(** * Verification of the SFE4030 projects: strict Roman numerals and the
      youtubr download-and-merge workers

    The development embeds three Python sources:
    - [ROMAN/roman_to_int_strict.py]            (module [Roman]),
    - [youtubr-FINAL PROJECT/gpt.py]            (module [Gpt]),
    - [youtubr/ghost_workers/worker.py]         (module [Ghost]).

    Python strings are modelled by [string]; Python integers by [Z];
    exceptions by explicit result types. *)

From Stdlib Require Import ZArith List Bool Ascii String Lia Sorted.
From Stdlib Require Import Floats.PrimFloat Floats.FloatOps Floats.SpecFloat.
Import ListNotations.
#[local] Set Warnings "-inexact-float".
Local Open Scope string_scope.
Local Open Scope Z_scope.

(** ** Python exceptions and results shared by the three sources *)

Inductive exn : Type :=
| ValueError (msg : string)
| KeyError (key : string)
| ZeroDivisionError
| OverflowError (msg : string)
| UnboundLocalError (var : string)
| RegexMatchError (msg : string)
| VideoUnavailable (msg : string)
| CalledProcessError (msg stderr : string)
| FileNotFoundError (msg : string)
| OtherError (msg : string).

(** [str(e)] *)
Definition str_exn (e : exn) : string :=
  match e with
  | ValueError msg => msg
  | KeyError key => "'" ++ key ++ "'"
  | ZeroDivisionError => "division by zero"
  | OverflowError msg => msg
  | UnboundLocalError var =>
      "cannot access local variable '" ++ var ++
      "' where it is not associated with a value"
  | RegexMatchError msg => msg
  | VideoUnavailable msg => msg
  | CalledProcessError msg _ => msg
  | FileNotFoundError msg => msg
  | OtherError msg => msg
  end.

Inductive result (A : Type) : Type :=
| Return (a : A)
| Raise (e : exn).
Arguments Return {A} a.
Arguments Raise {A} e.

Definition bind {A B : Type} (r : result A) (k : A -> result B) : result B :=
  match r with
  | Return a => k a
  | Raise e => Raise e
  end.

Notation "x <- r ;; k" := (bind r (fun x => k))
  (at level 61, r at next level, right associativity).

(** ** Regular expressions, as far as [re] is used by the sources

    The only constructs in the strict pattern are literal characters,
    concatenation, alternation and the bounded greedy repetition [r{lo,hi}]
    ([r?] is [r{0,1}]).  [fullmatch] is the backtracking matcher of [re]
    written with a continuation for the rest of the pattern. *)

Module Regex.

Inductive re : Type :=
| Lit (c : ascii)
| Seq (r1 r2 : re)
| Alt (r1 r2 : re)
| Rep (r : re) (lo hi : nat).

Definition Opt (r : re) : re := Rep r 0 1.

(** The loop of a greedy [{lo,hi}]: one more iteration of the body [m] is
    tried first, the rest of the pattern [k] only once [lo] is reached. *)
Fixpoint rep (m : string -> (string -> bool) -> bool) (lo n : nat)
    (s : string) (k : string -> bool) {struct n} : bool :=
  match n with
  | S n' =>
      m s (fun s' => rep m (Nat.pred lo) n' s' k)
      || (if Nat.eqb lo 0 then k s else false)
  | O => if Nat.eqb lo 0 then k s else false
  end.

Fixpoint run (r : re) (s : string) (k : string -> bool) {struct r} : bool :=
  match r with
  | Lit c =>
      match s with
      | String c' s' => if Ascii.eqb c c' then k s' else false
      | EmptyString => false
      end
  | Seq r1 r2 => run r1 s (fun s' => run r2 s' k)
  | Alt r1 r2 => run r1 s k || run r2 s k
  | Rep r' lo hi => rep (run r') lo hi s k
  end.

Definition at_end (s : string) : bool :=
  match s with
  | EmptyString => true
  | String _ _ => false
  end.

(** [pattern.fullmatch(s)]: the whole of [s] is consumed. *)
Definition fullmatch (r : re) (s : string) : bool := run r s at_end.

(** The language of a pattern, read off the pattern alone: what "[s]
    fully matches [r]" means, independently of the matcher. *)
Fixpoint iter (P : string -> Prop) (n : nat) (s : string) : Prop :=
  match n with
  | O => s = ""
  | S n' => exists a b, s = a ++ b /\ P a /\ iter P n' b
  end.

Fixpoint lang (r : re) (s : string) : Prop :=
  match r with
  | Lit c => s = String c ""
  | Seq r1 r2 => exists a b, s = a ++ b /\ lang r1 a /\ lang r2 b
  | Alt r1 r2 => lang r1 s \/ lang r2 s
  | Rep r' lo hi => exists n, (lo <= n <= hi)%nat /\ iter (lang r') n s
  end.

(** The finitely many strings a pattern can consume. *)
Fixpoint power (l : list string) (n : nat) : list string :=
  match n with
  | O => [""]
  | S n' => flat_map (fun a => map (fun b => a ++ b) (power l n')) l
  end.

Fixpoint upto (l : list string) (n : nat) : list string :=
  match n with
  | O => [""]
  | S n' => upto l n' ++ power l n
  end.

Fixpoint words (r : re) : list string :=
  match r with
  | Lit c => [String c ""]
  | Seq r1 r2 =>
      flat_map (fun a => map (fun b => a ++ b) (words r2)) (words r1)
  | Alt r1 r2 => words r1 ++ words r2
  | Rep r' _ hi => upto (words r') hi
  end.

(** What [run] computes: [k] accepts what a word of the language leaves. *)
Definition run_spec (r : re) : Prop :=
  forall s k, run r s k = true <->
              exists a b, s = a ++ b /\ lang r a /\ k b = true.

End Regex.

(** ** [ROMAN/roman_to_int_strict.py] *)

Module Roman.
Import Regex.

(** [roman_map = {"I": 1, "V": 5, "X": 10, "L": 50, "C": 100, "D": 500, "M": 1000}] *)
Definition roman_map : list (ascii * Z) :=
  [("I"%char, 1); ("V"%char, 5); ("X"%char, 10); ("L"%char, 50);
   ("C"%char, 100); ("D"%char, 500); ("M"%char, 1000)].

(** [roman_map[c]], a [KeyError] when the key is absent. *)
Fixpoint getitem (d : list (ascii * Z)) (c : ascii) : result Z :=
  match d with
  | [] => Raise (KeyError (String c ""))
  | (k, v) :: d' => if Ascii.eqb k c then Return v else getitem d' c
  end.

Definition lit (c : string) : re :=
  match c with
  | String a _ => Lit a
  | EmptyString => Lit "000"%char
  end.

Definition M := lit "M".
Definition D := lit "D".
Definition C := lit "C".
Definition L := lit "L".
Definition X := lit "X".
Definition V := lit "V".
Definition I := lit "I".

(** [^(M{0,3})(CM|CD|D?C{0,3})(XL|XC|L?X{0,3})(IV|IX|V?I{0,3})$] *)
Definition roman_pattern : re :=
  Seq (Rep M 0 3)
 (Seq (Alt (Seq C M) (Alt (Seq C D) (Seq (Opt D) (Rep C 0 3))))
 (Seq (Alt (Seq X L) (Alt (Seq X C) (Seq (Opt L) (Rep X 0 3))))
      (Alt (Seq I V) (Alt (Seq I X) (Seq (Opt V) (Rep I 0 3)))))).

Definition invalid_message (s : string) : string :=
  "'" ++ s ++
  "' is not a valid Roman numeral string (e.g., invalid characters, repetition, or sequence).".

(** [s[i]] for an index the loop keeps in range. *)
Definition char_at (s : string) (i : nat) : result ascii :=
  match String.get i s with
  | Some c => Return c
  | None => Raise (OtherError "string index out of range")
  end.

(** One iteration of [for i in range(len(s))]. *)
Definition step (s : string) (converted_number : Z) (i : nat) : result Z :=
  c <- char_at s i ;;
  current_number <- getitem roman_map c ;;
  next_number <-
    (if Nat.ltb (i + 1) (String.length s)
     then (c' <- char_at s (i + 1) ;; getitem roman_map c')
     else Return 0) ;;
  if current_number <? next_number
  then Return (converted_number - current_number)
  else Return (converted_number + current_number).

Fixpoint loop (s : string) (indices : list nat) (converted_number : Z)
  : result Z :=
  match indices with
  | [] => Return converted_number
  | i :: rest => acc <- step s converted_number i ;; loop s rest acc
  end.

Definition roman_to_int_strict (s : string) : result Z :=
  match s with
  | EmptyString => Return 0
  | _ =>
      if negb (fullmatch roman_pattern s)
      then Raise (ValueError (invalid_message s))
      else loop s (seq 0 (String.length s)) 0
  end.

(** The value of [s] is 0 for the empty string and 1..3999 otherwise. *)
Definition roman_in_range (s : string) : bool :=
  match roman_to_int_strict s with
  | Return n => if String.eqb s "" then n =? 0 else (1 <=? n) && (n <=? 3999)
  | Raise _ => false
  end.

End Roman.

(** ** Python [float]: IEEE 754 binary64, round to nearest, ties to even

    Every finite binary64 number is an integer multiple of [2^-1074], so a
    finite float is kept as that integer ([Fin n] is [n * 2^-1074]); the two
    zeros are not told apart (no operation used by the sources observes the
    sign of zero).  [round A B] is the float nearest to the rational
    [A / B] counted in these units. *)

Module Binary64.

Inductive float : Type :=
| Fin (n : Z)
| Inf (negative : bool)
| NaN.

(** [2^1074]: the number of units in [1.0]. *)
Definition one_units : Z := 2 ^ 1074.

(** [2^2098] units is [2^1024], the first magnitude that overflows. *)
Definition overflow_units : Z := 2 ^ 2098.

(** Exponent of the unit in the last place of a magnitude of [f] units:
    53 significant bits, none below the unit [2^-1074]. *)
Definition ulp_exp (f : Z) : Z := Z.max (Z.log2 f - 52) 0.

(** Nearest integer to [A / D], ties to even ([0 <= A], [0 < D]). *)
Definition rne (A D : Z) : Z :=
  let q := A / D in
  match 2 * (A mod D) ?= D with
  | Lt => q
  | Gt => q + 1
  | Eq => if Z.even q then q else q + 1
  end.

(** Rounding of the non-negative rational [A / B] to 53 significant bits. *)
Definition round_pos (A B : Z) : Z :=
  let s := ulp_exp (A / B) in
  rne A (B * 2 ^ s) * 2 ^ s.

(** Rounding of [A / B] ([0 < B]) with unbounded exponent range. *)
Definition round_units (A B : Z) : Z := Z.sgn A * round_pos (Z.abs A) B.

Definition of_units (n : Z) : float :=
  if overflow_units <=? Z.abs n then Inf (n <? 0) else Fin n.

Definition round (A B : Z) : float := of_units (round_units A B).

(** The float written as the decimal fraction [num / den] in the source. *)
Definition literal (num den : Z) : float := round (num * one_units) den.

(** [float(z)] for an integer that is converted without error check. *)
Definition of_Z (z : Z) : float := round (z * one_units) 1.

Definition opp (x : float) : float :=
  match x with
  | Fin n => Fin (- n)
  | Inf s => Inf (negb s)
  | NaN => NaN
  end.

Definition add (x y : float) : float :=
  match x, y with
  | Fin a, Fin b => round (a + b) 1
  | Fin _, Inf s => Inf s
  | Inf s, Fin _ => Inf s
  | Inf s, Inf s' => if Bool.eqb s s' then Inf s else NaN
  | _, _ => NaN
  end.

Definition sub (x y : float) : float := add x (opp y).

Definition mul (x y : float) : float :=
  match x, y with
  | Fin a, Fin b => round (a * b) one_units
  | Fin a, Inf s => if a =? 0 then NaN else Inf (xorb (a <? 0) s)
  | Inf s, Fin b => if b =? 0 then NaN else Inf (xorb s (b <? 0))
  | Inf s, Inf s' => Inf (xorb s s')
  | _, _ => NaN
  end.

(** [x / y] on floats; Python raises on a zero divisor. *)
Definition div (x y : float) : result float :=
  match x, y with
  | _, Fin 0 => Raise ZeroDivisionError
  | Fin a, Fin b => Return (round (a * Z.sgn b * one_units) (Z.abs b))
  | Fin _, Inf _ => Return (Fin 0)
  | Inf s, Fin b => Return (Inf (xorb s (b <? 0)))
  | _, _ => Return NaN
  end.

(** [a / b] on integers: the correctly rounded quotient. *)
Definition truediv (a b : Z) : result float :=
  if b =? 0 then Raise ZeroDivisionError
  else match round (a * Z.sgn b * one_units) (Z.abs b) with
       | Fin n => Return (Fin n)
       | _ => Raise (OverflowError
                       "integer division result too large for a float")
       end.

(** [int(x)]: truncation toward zero. *)
Definition to_int (x : float) : result Z :=
  match x with
  | Fin n => Return (Z.quot n one_units)
  | Inf _ => Raise (OverflowError "cannot convert float infinity to integer")
  | NaN => Raise (ValueError "cannot convert float NaN to integer")
  end.

Definition ltb (x y : float) : bool :=
  match x, y with
  | Fin a, Fin b => a <? b
  | Fin _, Inf s => negb s
  | Inf s, Fin _ => s
  | Inf s, Inf s' => s && negb s'
  | _, _ => false
  end.

Definition leb (x y : float) : bool :=
  match x, y with
  | Fin a, Fin b => a <=? b
  | Fin _, Inf s => negb s
  | Inf s, Fin _ => s
  | Inf s, Inf s' => s || negb s'
  | _, _ => false
  end.

(** [min(x, y)]: the first argument unless the second is smaller. *)
Definition min (x y : float) : float := if ltb y x then y else x.

Definition abs (x : float) : float :=
  match x with
  | Fin n => Fin (Z.abs n)
  | Inf _ => Inf false
  | NaN => NaN
  end.

(** The units of a finite float. *)
Definition units (x : float) : Z :=
  match x with
  | Fin n => n
  | _ => 0
  end.

(** Reading of a hardware float, used to compare [round] with the
    processor's arithmetic on sample values. *)
Definition of_prim (f : PrimFloat.float) : float :=
  match FloatOps.Prim2SF f with
  | SpecFloat.S754_zero _ => Fin 0
  | SpecFloat.S754_infinity s => Inf s
  | SpecFloat.S754_nan => NaN
  | SpecFloat.S754_finite s m e =>
      Fin ((if s then -1 else 1) * Z.pos m * 2 ^ (e + 1074))
  end.

End Binary64.

(** ** Python [str] methods used on titles

    A character is a code point below 256; [isalnum] and [isspace] are the
    Unicode predicates of Python restricted to these code points. *)

Module PyStr.

Definition code (c : ascii) : Z := Z.of_N (N_of_ascii c).

Definition between (lo hi : Z) (c : ascii) : bool :=
  (lo <=? code c) && (code c <=? hi).

(** [c.isalnum()] *)
Definition isalnum (c : ascii) : bool :=
  between 48 57 c || between 65 90 c || between 97 122 c
  || between 170 170 c || between 178 179 c || between 181 181 c
  || between 185 186 c || between 188 190 c || between 192 214 c
  || between 216 246 c || between 248 255 c.

(** [c.isspace()] *)
Definition isspace (c : ascii) : bool :=
  between 9 13 c || between 28 32 c || between 133 133 c || between 160 160 c.

Definition is_empty (s : string) : bool :=
  match s with
  | EmptyString => true
  | String _ _ => false
  end.

(** [s.rstrip()] *)
Fixpoint rstrip (s : string) : string :=
  match s with
  | EmptyString => EmptyString
  | String c s' =>
      let r := rstrip s' in
      if is_empty r && isspace c then EmptyString else String c r
  end.

(** [s.lstrip()] *)
Fixpoint lstrip (s : string) : string :=
  match s with
  | EmptyString => EmptyString
  | String c s' => if isspace c then lstrip s' else s
  end.

(** [s.strip()] *)
Definition strip (s : string) : string := rstrip (lstrip s).

(** [c in chars] for a one-character [c] *)
Fixpoint contains (chars : string) (c : ascii) : bool :=
  match chars with
  | EmptyString => false
  | String c' rest => Ascii.eqb c c' || contains rest c
  end.

(** ["".join(c for c in s if keep(c))] *)
Fixpoint join_if (keep : ascii -> bool) (s : string) : string :=
  match s with
  | EmptyString => EmptyString
  | String c s' => if keep c then String c (join_if keep s') else join_if keep s'
  end.

(** [s[:n]] *)
Fixpoint take (n : nat) (s : string) : string :=
  match n, s with
  | S n', String c s' => String c (take n' s')
  | _, _ => EmptyString
  end.

(** [x or default] on strings *)
Definition or_else (x default : string) : string :=
  if is_empty x then default else x.

(** [all(p(c) for c in s)] *)
Fixpoint every (p : ascii -> bool) (s : string) : bool :=
  match s with
  | EmptyString => true
  | String c s' => p c && every p s'
  end.

(** Does [s] end with a white-space character? *)
Fixpoint trailing_space (s : string) : bool :=
  match s with
  | EmptyString => false
  | String c EmptyString => isspace c
  | String _ s' => trailing_space s'
  end.

(** [c.isalnum() or c in " _-"], the characters kept in a file name *)
Definition keeps (c : ascii) : bool := isalnum c || contains " _-" c.

(** [p.endswith("/")] *)
Fixpoint ends_with_sep (p : string) : bool :=
  match p with
  | EmptyString => false
  | String c EmptyString => Ascii.eqb c "/"
  | String _ p' => ends_with_sep p'
  end.

(** [os.path.join(a, b)] of [posixpath]: an absolute [b] replaces [a]; no
    separator is added after an empty [a] or one that ends with ["/"]. *)
Definition path_join (a b : string) : string :=
  if String.prefix "/" b then b
  else if is_empty a || ends_with_sep a then a ++ b
  else a ++ "/" ++ b.

End PyStr.

(** ** [posixpath]: the parts of a path *)

Module PosixPath.

(** ['/' in p] *)
Definition has_sep (p : string) : bool :=
  negb (PyStr.every (fun c => negb (Ascii.eqb c "/")) p).

(** [posixpath.basename(p)]: [p[p.rfind('/') + 1:]] *)
Fixpoint basename (p : string) : string :=
  match p with
  | EmptyString => EmptyString
  | String c p' =>
      if has_sep p' then basename p'
      else if Ascii.eqb c "/" then p' else p
  end.

(** [p[:p.rfind('/') + 1]] *)
Fixpoint head (p : string) : string :=
  match p with
  | EmptyString => EmptyString
  | String c p' => if has_sep p then String c (head p') else EmptyString
  end.

(** [s.rstrip('/')] *)
Fixpoint rstrip_sep (s : string) : string :=
  match s with
  | EmptyString => EmptyString
  | String c s' =>
      let r := rstrip_sep s' in
      if PyStr.is_empty r && Ascii.eqb c "/" then EmptyString else String c r
  end.

(** [posixpath.dirname(p)]: the head without its trailing separators,
    unless it is made of separators only. *)
Definition dirname (p : string) : string :=
  let h := head p in
  if PyStr.every (fun c => Ascii.eqb c "/") h then h else rstrip_sep h.

End PosixPath.

(** ** The stream provider: [pytubefix] streams and [StreamQuery]

    The provider is not part of the repository.  A stream is recorded with
    the attributes the workers read; [resolution] and [abr] are recorded by
    the integer [order_by] ranks them with (["720p"] is 720, ["128kbps"] is
    128), [None] when the provider gives none.  [filter], [order_by],
    [desc] and [first] follow the library: [order_by] drops the streams
    without the attribute and sorts the others in ascending order, keeping
    the catalog order among equals. *)

Module Pytube.

Inductive track : Type := Video | Audio.

Record stream : Type := {
  itag : Z;
  type : track;
  subtype : string;
  is_progressive : bool;
  resolution : option Z;
  abr : option Z;
  filesize : Z;
  filesize_approx : Z
}.

Definition is_adaptive (s : stream) : bool := negb (is_progressive s).

Definition includes_video_track (s : stream) : bool :=
  is_progressive s || match type s with Video => true | Audio => false end.

Definition includes_audio_track (s : stream) : bool :=
  is_progressive s || match type s with Audio => true | Video => false end.

Definition only_video (s : stream) : bool :=
  includes_video_track s && negb (includes_audio_track s).

Definition only_audio (s : stream) : bool :=
  includes_audio_track s && negb (includes_video_track s).

Definition file_extension (ext : string) (s : stream) : bool :=
  String.eqb (subtype s) ext.

(** [res=[...]]: the resolution is one of the list *)
Definition res (allowed : list Z) (s : stream) : bool :=
  match resolution s with
  | Some r => existsb (Z.eqb r) allowed
  | None => false
  end.

Fixpoint insert (key : stream -> Z) (x : stream) (l : list stream)
  : list stream :=
  match l with
  | [] => [x]
  | y :: l' => if key x <=? key y then x :: l else y :: insert key x l'
  end.

(** [sorted(l, key=key)] *)
Fixpoint sorted (key : stream -> Z) (l : list stream) : list stream :=
  match l with
  | [] => []
  | x :: l' => insert key x (sorted key l')
  end.

Definition has (attribute : stream -> option Z) (s : stream) : bool :=
  match attribute s with
  | Some _ => true
  | None => false
  end.

Definition rank (attribute : stream -> option Z) (s : stream) : Z :=
  match attribute s with
  | Some n => n
  | None => 0
  end.

Definition order_by (attribute : stream -> option Z) (l : list stream)
  : list stream :=
  sorted (rank attribute) (filter (has attribute) l).

(** The order of [sorted]. *)
Definition below (key : stream -> Z) (a b : stream) : Prop := key a <= key b.

Definition desc (l : list stream) : list stream := rev l.

Definition first (l : list stream) : option stream := hd_error l.

(** The two queries of both workers. *)
Definition video_candidate (s : stream) : bool :=
  file_extension "mp4" s && only_video s && res [1080; 720; 480] s.

Definition audio_candidate (s : stream) : bool :=
  is_adaptive s && file_extension "mp4" s && only_audio s.

Definition select_video (streams : list stream) : option stream :=
  first (desc (order_by resolution (filter video_candidate streams))).

Definition select_audio (streams : list stream) : option stream :=
  first (desc (order_by abr (filter audio_candidate streams))).

End Pytube.

(** ** Signals and effects observed from a worker

    [WorkerSignals] has the four signals [finished], [message], [progress]
    and [error]; the calls that touch the file system or start a transfer
    or a process are recorded next to them, in program order. *)

Inductive signal : Type :=
| Finished
| Message (text : string)
| Progress (percent : Z)
| Error (text : string).

(** ** The progress arithmetic of [youtubr-FINAL PROJECT/gpt.py] *)

Module GptProgress.
Import Binary64 Pytube.

(** The fields of [Worker] used for progress tracking. *)
Record worker : Type := {
  video_size : Z;
  audio_size : Z;
  video_done : Z;
  audio_done : Z;
  _video_itag : option Z;
  _audio_itag : option Z
}.

(** [self.W_VIDEO = 0.40], [self.W_AUDIO = 0.40], [self.W_MERGE = 0.20] *)
Definition W_VIDEO : float := literal 40 100.
Definition W_AUDIO : float := literal 40 100.
Definition W_MERGE : float := literal 20 100.

(** [int(getattr(stream, "filesize", 0) or getattr(stream, "filesize_approx", 0) or 0)] *)
Definition _get_stream_size (s : stream) : Z :=
  if negb (filesize s =? 0) then filesize s
  else if negb (filesize_approx s =? 0) then filesize_approx s
  else 0.

(** [(done / size) if size else 0.0] *)
Definition fraction (done size : Z) : result float :=
  if negb (size =? 0) then truediv done size else Return (Fin 0).

(** [v_frac * W_VIDEO + a_frac * W_AUDIO + merge_fraction * W_MERGE] *)
Definition unified (w : worker) (merge_fraction : float) : result float :=
  v_frac <- fraction (video_done w) (video_size w) ;;
  a_frac <- fraction (audio_done w) (audio_size w) ;;
  Return (add (add (mul v_frac W_VIDEO) (mul a_frac W_AUDIO))
              (mul merge_fraction W_MERGE)).

Definition clamp (percent : Z) : Z :=
  let percent := if percent <? 0 then 0 else percent in
  if percent >? 100 then 100 else percent.

(** [_emit_unified_progress]: the percent handed to [progress.emit], or the
    exception that leaves the method. *)
Definition _emit_unified_progress (w : worker) (merge_fraction : float)
  : result Z :=
  u <- unified w merge_fraction ;;
  percent <- to_int (mul u (of_Z 100)) ;;
  Return (clamp percent).

Definition itag_is (slot : option Z) (i : Z) : bool :=
  match slot with
  | Some j => i =? j
  | None => false
  end.

(** The assignments of [on_progress_callback] before the emission. *)
Definition record_progress (w : worker) (s : stream) (bytes_remaining : Z)
  : worker :=
  let total := _get_stream_size s in
  let done := total - bytes_remaining in
  if itag_is (_video_itag w) (itag s) then
    {| video_size := video_size w; audio_size := audio_size w;
       video_done := Z.max 0 (Z.min total done); audio_done := audio_done w;
       _video_itag := _video_itag w; _audio_itag := _audio_itag w |}
  else if itag_is (_audio_itag w) (itag s) then
    {| video_size := video_size w; audio_size := audio_size w;
       video_done := video_done w; audio_done := Z.max 0 (Z.min total done);
       _video_itag := _video_itag w; _audio_itag := _audio_itag w |}
  else w.

(** [on_progress_callback]: the new state and the signal emitted. *)
Definition on_progress_callback (w : worker) (s : stream)
    (bytes_remaining : Z) : worker * signal :=
  let w' := record_progress w s bytes_remaining in
  match _emit_unified_progress w' (Fin 0) with
  | Return percent => (w', Progress percent)
  | Raise e => (w', Error ("Progress callback error: " ++ str_exn e))
  end.

(** The worker once [run] has recorded the two selected streams: sizes with
    the sentinel 1 for an unknown size, counters reset. *)
Definition select (video audio : stream) : worker :=
  let vs := _get_stream_size video in
  let az := _get_stream_size audio in
  {| video_size := if vs =? 0 then 1 else vs;
     audio_size := if az =? 0 then 1 else az;
     video_done := 0; audio_done := 0;
     _video_itag := Some (itag video); _audio_itag := Some (itag audio) |}.

(** [self.video_done = self.video_size] after the video download. *)
Definition finish_video (w : worker) : worker :=
  {| video_size := video_size w; audio_size := audio_size w;
     video_done := video_size w; audio_done := audio_done w;
     _video_itag := _video_itag w; _audio_itag := _audio_itag w |}.

(** [self.audio_done = self.audio_size] after the audio download. *)
Definition finish_audio (w : worker) : worker :=
  {| video_size := video_size w; audio_size := audio_size w;
     video_done := video_done w; audio_done := audio_size w;
     _video_itag := _video_itag w; _audio_itag := _audio_itag w |}.

(** The states a job goes through once its two streams are selected:
    any number of progress callbacks on either stream, with any
    [bytes_remaining], and the two completions. *)
Inductive job_state (video audio : stream) : worker -> Prop :=
| js_select : job_state video audio (select video audio)
| js_video_chunk w bytes_remaining :
    job_state video audio w ->
    job_state video audio (fst (on_progress_callback w video bytes_remaining))
| js_audio_chunk w bytes_remaining :
    job_state video audio w ->
    job_state video audio (fst (on_progress_callback w audio bytes_remaining))
| js_video_done w :
    job_state video audio w -> job_state video audio (finish_video w)
| js_audio_done w :
    job_state video audio w -> job_state video audio (finish_audio w).

(** A done counter lies between 0 and its declared size (a size of 0 is
    unknown; the comparison follows the sign of the size). *)
Definition counted (done size : Z) : Prop :=
  size = 0 \/ 0 <= done * Z.sgn size <= Z.abs size.

Definition tracked (w : worker) : Prop :=
  counted (video_done w) (video_size w) /\
  counted (audio_done w) (audio_size w).

(** The float that [_emit_unified_progress] truncates. *)
Definition scaled (w : worker) (merge_fraction : float) : result float :=
  u <- unified w merge_fraction ;;
  Return (mul u (of_Z 100)).

(** The percent of the specification, in exact arithmetic:
    truncation of [100 * (0.40 * vd/vs + 0.40 * ad/as + 0.20 * m)] for a
    merge fraction [m = mn / md], clamped to 0..100. *)
Definition exact_percent (w : worker) (mn md : Z) : Z :=
  let num := 40 * video_done w * audio_size w * md
             + 40 * audio_done w * video_size w * md
             + 20 * mn * video_size w * audio_size w in
  let den := video_size w * audio_size w * md in
  clamp (Z.quot num den).

End GptProgress.

(** ** Programs with state, early return, exceptions and a trace

    [effect] records the calls that leave the worker, [Unify] a call of
    [_emit_unified_progress] with its merge fraction.  A program maps the
    worker state to its outcome, the new state and the events in program
    order. *)

Inductive effect : Type :=
| Makedirs (path : string)
| Download (s : Pytube.stream) (output_path filename : string)
    (skip_existing : bool)
| Popen (cmd : list string)
| SubprocessRun (cmd : list string)
| Sleep (seconds : Binary64.float)
| Rmtree (path : string).

Inductive event : Type :=
| Sig (s : signal)
| Eff (e : effect)
| Unify (merge_fraction : Binary64.float).

Module Exec.

Inductive flow (A : Type) : Type :=
| Next (a : A)
| Returned
| Raised (e : exn).
Arguments Next {A} a.
Arguments Returned {A}.
Arguments Raised {A} e.

Definition prog (S A : Type) : Type := S -> flow A * S * list event.

Definition ret {S A : Type} (a : A) : prog S A := fun s => (Next a, s, []).

Definition seq {S A B : Type} (m : prog S A) (k : A -> prog S B) : prog S B :=
  fun s =>
    match m s with
    | (Next a, s', t) =>
        match k a s' with
        | (r, s'', t') => (r, s'', (t ++ t')%list)
        end
    | (Returned, s', t) => (Returned, s', t)
    | (Raised e, s', t) => (Raised e, s', t)
    end.

(** [signal.emit(...)] *)
Definition emit {S : Type} (g : signal) : prog S unit :=
  fun s => (Next tt, s, [Sig g]).

(** A call that leaves the worker; [outcome] is the exception it raises. *)
Definition perform {S : Type} (e : effect) (outcome : option exn)
  : prog S unit :=
  fun s =>
    match outcome with
    | None => (Next tt, s, [Eff e])
    | Some x => (Raised x, s, [Eff e])
    end.

(** [return] *)
Definition return_ {S A : Type} : prog S A := fun s => (Returned, s, []).

(** [raise e] *)
Definition raise {S A : Type} (e : exn) : prog S A :=
  fun s => (Raised e, s, []).

Definition lift {S A : Type} (r : result A) : prog S A :=
  match r with
  | Return a => ret a
  | Raise e => raise e
  end.

Definition put {S : Type} (s : S) : prog S unit := fun _ => (Next tt, s, []).

Definition modify {S : Type} (f : S -> S) : prog S unit :=
  fun s => (Next tt, f s, []).

(** [try: m  except Exception as e: handler(e)] *)
Definition try_except {S A : Type} (m : prog S A) (handler : exn -> prog S A)
  : prog S A :=
  fun s =>
    match m s with
    | (Raised e, s', t) =>
        match handler e s' with
        | (r, s'', t') => (r, s'', (t ++ t')%list)
        end
    | other => other
    end.

(** The call of a method: its [return] ends the method, not the caller. *)
Definition call {S : Type} (m : prog S unit) : prog S unit :=
  fun s =>
    match m s with
    | (Returned, s', t) => (Next tt, s', t)
    | other => other
    end.

Definition trace {S A : Type} (m : prog S A) (s : S) : list event :=
  snd (m s).

Definition outcome {S A : Type} (m : prog S A) (s : S) : flow A :=
  fst (fst (m s)).

End Exec.

Notation "x <-- m ;;; k" := (Exec.seq m (fun x => k))
  (at level 61, m at next level, right associativity).
Notation "m ;;; k" := (Exec.seq m (fun _ => k))
  (at level 61, right associativity).

(** What the environment of a worker decides.

    A catalog is what [YouTube(url)] gives: its streams, and its title or
    the exception that reading the title raises. *)
Record catalog : Type := {
  streams : list Pytube.stream;
  title : result string
}.

(** A transfer: the [bytes_remaining] of its progress calls, then the
    exception that ends it, if any. *)
Record download : Type := {
  chunks : list Z;
  failure : option exn
}.

(** Is [Finished] absent from a trace? *)
Definition is_finished (e : event) : bool :=
  match e with
  | Sig Finished => true
  | _ => false
  end.

Definition is_download (e : event) : bool :=
  match e with
  | Eff (Download _ _ _ _) => true
  | _ => false
  end.

Definition is_rmtree (e : event) : bool :=
  match e with
  | Eff (Rmtree _) => true
  | _ => false
  end.

(** No event of the kind [P] in any trace of the program. *)
Definition avoids {S A : Type} (P : event -> bool) (m : Exec.prog S A) : Prop :=
  forall s, existsb P (Exec.trace m s) = false.

Definition ends_with_error (t : list event) : Prop :=
  exists t' msg, t = (t' ++ [Sig (Error msg)])%list.

(** Every [return] of the program comes right after an error signal. *)
Definition returns_on_error {S A : Type} (m : Exec.prog S A) : Prop :=
  forall s, Exec.outcome m s = Exec.Returned ->
            ends_with_error (Exec.trace m s).

(** The program goes on to its next statement or raises: no [return]. *)
Definition proceeds {S A : Type} (m : Exec.prog S A) : Prop :=
  forall s, Exec.outcome m s <> Exec.Returned.

(** The end of a job: its [finished] signal, the removal of its folder. *)
Definition is_terminal (e : event) : bool := is_finished e || is_rmtree e.

(** The signals of a trace, in order: what the interface receives. *)
Fixpoint signals (t : list event) : list signal :=
  match t with
  | [] => []
  | Sig g :: t' => g :: signals t'
  | _ :: t' => signals t'
  end.

Definition is_sleep (e : event) : bool :=
  match e with
  | Eff (Sleep _) => true
  | _ => false
  end.

(** Each float is at most the next one. *)
Fixpoint nondecreasing (l : list Binary64.float) : bool :=
  match l with
  | [] => true
  | a :: l' =>
      match l' with
      | [] => true
      | b :: _ => Binary64.leb a b && nondecreasing l'
      end
  end.

(** A clock that does not run backwards: finite readings, none before
    [start], each at least the one before. *)
Definition steady (start : Binary64.float) (readings : list Binary64.float)
  : Prop :=
  exists b zs, start = Binary64.Fin b /\ readings = map Binary64.Fin zs /\
               StronglySorted Z.le (b :: zs).

(** The merge fractions handed to [_emit_unified_progress], in order. *)
Fixpoint fractions (t : list event) : list Binary64.float :=
  match t with
  | [] => []
  | Unify f :: t' => f :: fractions t'
  | _ :: t' => fractions t'
  end.

(** The merge fraction on display each time the loop goes to sleep: the last
    one handed to [_emit_unified_progress] before that [sleep], [last] when
    there is none. *)
Fixpoint at_sleeps (last : Binary64.float) (t : list event)
  : list Binary64.float :=
  match t with
  | [] => []
  | Unify f :: t' => at_sleeps f t'
  | Eff (Sleep _) :: t' => last :: at_sleeps last t'
  | _ :: t' => at_sleeps last t'
  end.

(** ** [youtubr-FINAL PROJECT/gpt.py]: [Worker.run] *)

Module Gpt.
Import Binary64 PyStr Pytube GptProgress Exec.

(** [Worker(url, folder_path)] after [__init__]. *)
Record job : Type := {
  url : string;
  folder_path : string
}.

(** [folder_path] is the folder after [path.expanduser]. *)
Definition init (url folder_path : string) : job :=
  {| url := strip url; folder_path := folder_path |}.

Definition initial : worker :=
  {| video_size := 0; audio_size := 0; video_done := 0; audio_done := 0;
     _video_itag := None; _audio_itag := None |}.

(** The environment of one job: the name drawn by [uuid4], the outcome of
    each outside call, the clock at the start of the merge and at each
    iteration of its loop in which ffmpeg still runs, and how ffmpeg ends. *)
Record world : Type := {
  uuid4_hex : string;
  makedirs : string -> option exn;
  youtube : result catalog;
  video_download : download;
  audio_download : download;
  popen : option exn;
  merge_start : float;
  polls : list float;
  communicate : option exn;
  returncode : Z;
  stderr : string
}.

(** [path.join("/tmp", "ytbr_" + uuid.uuid4().hex)] *)
Definition temp_yt_folder (w : world) : string :=
  path_join "/tmp" ("ytbr_" ++ uuid4_hex w).

(** [self._emit_unified_progress(merge_fraction=m)] *)
Definition emit_unified (m : float) : prog worker unit :=
  fun st =>
    match _emit_unified_progress st m with
    | Return percent => (Next tt, st, [Unify m; Sig (Progress percent)])
    | Raise e => (Raised e, st, [Unify m])
    end.

(** One call of [on_progress_callback] by the provider. *)
Definition callback (s : stream) (bytes_remaining : Z) : prog worker unit :=
  fun st =>
    match on_progress_callback st s bytes_remaining with
    | (st', g) => (Next tt, st', [Unify (Fin 0); Sig g])
    end.

Fixpoint callbacks (s : stream) (remaining : list Z) : prog worker unit :=
  match remaining with
  | [] => ret tt
  | r :: rest => callback s r ;;; callbacks s rest
  end.

(** [stream.download(output_path=..., filename=..., skip_existing=False)] *)
Definition download_stream (s : stream) (output_path filename : string)
    (d : download) : prog worker unit :=
  perform (Download s output_path filename false) None ;;;
  callbacks s (chunks d) ;;;
  match failure d with
  | Some e => raise e
  | None => ret tt
  end.

Definition ramp_seconds : float := literal 12 1.
Definition cap : float := literal 99 100.
Definition min_delta : float := literal 5 1000.
Definition poll_interval : float := literal 8 100.

(** [min(0.99, elapsed / ramp_seconds)] for the clock reading [now] *)
Definition ramp (merge_start now : float) : result float :=
  q <- div (sub now merge_start) ramp_seconds ;;
  Return (min cap q).

(** The [while True] loop: one clock reading per iteration in which
    [proc.poll()] is still [None]. *)
Fixpoint merge_loop (merge_start : float) (readings : list float)
    (last_emit : float) : prog worker unit :=
  match readings with
  | [] => ret tt
  | now :: rest =>
      frac <-- lift (ramp merge_start now) ;;;
      last <-- (if leb min_delta (abs (sub frac last_emit))
                then emit_unified frac ;;; ret frac
                else ret last_emit) ;;;
      perform (Sleep poll_interval) None ;;;
      merge_loop merge_start rest last
  end.

Definition ffmpeg_cmd (video_file audio_file output_file : string)
  : list string :=
  ["ffmpeg"; "-y"; "-i"; video_file; "-i"; audio_file; "-c"; "copy";
   output_file].

(** ["".join(c for c in title if c.isalnum() or c in " _-").rstrip() or "ytdl"] *)
Definition safe_title (title : string) : string :=
  or_else (rstrip (join_if keeps title)) "ytdl".

(** From the start of ffmpeg to the last progress emission. *)
Definition merge (w : world) (video_file audio_file output_file : string)
  : prog worker unit :=
  perform (Popen (ffmpeg_cmd video_file audio_file output_file)) (popen w) ;;;
  merge_loop (merge_start w) (polls w) (Fin 0) ;;;
  lift (match communicate w with Some e => Raise e | None => Return tt end) ;;;
  if negb (returncode w =? 0)
  then emit (Error ("ffmpeg failed: " ++ take 400 (strip (stderr w)))) ;;;
       return_
  else emit_unified (literal 1 1).

(** ffmpeg started, was waited for and exited with 0. *)
Definition merge_succeeds (w : world) : bool :=
  match popen w, communicate w with
  | None, None => returncode w =? 0
  | _, _ => false
  end.

(** The body of [run] before its two last statements. *)
Definition main (j : job) (w : world) : prog worker unit :=
  if is_empty (url j)
  then emit (Error "No URL provided") ;;; return_
  else
    perform (Makedirs (folder_path j)) (makedirs w (folder_path j)) ;;;
    perform (Makedirs (temp_yt_folder w)) (makedirs w (temp_yt_folder w)) ;;;
    yt <-- lift (youtube w) ;;;
    match select_video (streams yt), select_audio (streams yt) with
    | Some video_stream, Some audio_stream =>
        put (select video_stream audio_stream) ;;;
        let video_file := path_join (temp_yt_folder w) "video.mp4" in
        let audio_file := path_join (temp_yt_folder w) "audio.mp4" in
        emit (Message "Downloading video...") ;;;
        download_stream video_stream (temp_yt_folder w) "video.mp4"
          (video_download w) ;;;
        modify finish_video ;;;
        emit_unified (Fin 0) ;;;
        emit (Message "Downloading audio...") ;;;
        download_stream audio_stream (temp_yt_folder w) "audio.mp4"
          (audio_download w) ;;;
        modify finish_audio ;;;
        emit_unified (Fin 0) ;;;
        name <-- lift (title yt) ;;;
        let output_file :=
          path_join (folder_path j) (safe_title name ++ ".mp4") in
        perform (Makedirs (PosixPath.dirname output_file))
          (makedirs w (PosixPath.dirname output_file)) ;;;
        emit (Message "Merging streams...") ;;;
        merge w video_file audio_file output_file
    | _, _ =>
        emit (Error "No suitable video or audio streams found") ;;; return_
    end.

Definition complete_message : string := " Download Complete ✔ ".

Definition program (j : job) (w : world) : prog worker unit :=
  try_except
    (main j w ;;;
     emit (Message complete_message) ;;;
     emit Finished)
    (fun e => emit (Error (str_exn e))).

(** The events of one job. *)
Definition run (j : job) (w : world) : list event :=
  trace (program j w) initial.

End Gpt.

(** ** [youtubr/ghost_workers/worker.py]: [Worker] *)

Module Ghost.
Import Binary64 PyStr Pytube Exec.

(** [Worker(url, folder_path)] after [__init__]. *)
Record job : Type := {
  url : string;
  folder_path : string;
  temp_yt_folder : string
}.

(** [folder_path] is the folder after [path.expanduser]. *)
Definition init (url folder_path : string) : job :=
  {| url := url; folder_path := folder_path; temp_yt_folder := "/tmp/ytbr" |}.

(** The environment of one job: the outcome of each outside call, and
    whether the scratch folder exists when [run] ends. *)
Record world : Type := {
  makedirs : option exn;
  youtube : result catalog;
  video_download : download;
  audio_download : download;
  ffmpeg : option exn;
  temp_exists : bool;
  rmtree : option exn
}.

(** [on_progress_callback]: [int(done * 100 / total)], not clamped. *)
Definition on_progress_callback (s : stream) (bytes_remaining : Z) : signal :=
  let total := filesize s in
  let done := total - bytes_remaining in
  match (q <- truediv (done * 100) total ;; to_int q) with
  | Return percent => Progress percent
  | Raise e => Error ("Progress callback error: " ++ str_exn e)
  end.

Fixpoint callbacks (s : stream) (remaining : list Z) : prog unit unit :=
  match remaining with
  | [] => ret tt
  | r :: rest => emit (on_progress_callback s r) ;;; callbacks s rest
  end.

(** [stream.download(output_path=..., filename=..., skip_existing=True)] *)
Definition download_stream (s : stream) (output_path filename : string)
    (d : download) : prog unit unit :=
  perform (Download s output_path filename true) None ;;;
  callbacks s (chunks d) ;;;
  match failure d with
  | Some e => raise e
  | None => ret tt
  end.

Definition merge_cmd (video_path audio_path output_file : string)
  : list string :=
  ["ffmpeg"; "-y"; "-i"; video_path; "-i"; audio_path; "-c"; "copy";
   output_file].

(** [' '.join(cmd)] *)
Fixpoint join_spaces (cmd : list string) : string :=
  match cmd with
  | [] => ""
  | [a] => a
  | a :: rest => a ++ " " ++ join_spaces rest
  end.

Definition ffmpeg_merge (w : world) (video_path audio_path output_file : string)
  : prog unit unit :=
  let cmd := merge_cmd video_path audio_path output_file in
  try_except
    (perform (SubprocessRun cmd) (ffmpeg w))
    (fun e =>
       match e with
       | CalledProcessError _ stderr =>
           emit (Error ("FFmpeg merge failed. Command: " ++ join_spaces cmd
                        ++ ". Stderr: " ++ strip stderr)) ;;;
           raise e
       | FileNotFoundError _ =>
           emit (Error "FFmpeg not found in $PATH.") ;;; raise e
       | _ => emit (Error "Ffmpeg merger failed:") ;;; raise e
       end).

(** ["".join(c for c in title if c.isalnum() or c in " _-").rstrip()] *)
Definition safe_title (title : string) : string :=
  rstrip (join_if keeps title).

Definition output_file (j : job) (title : string) : string :=
  path_join (folder_path j) (safe_title title ++ ".mp4").

(** The first [try] of [download_video]: the streams bound when it ends
    without [return], [None] when its last handler swallowed an exception
    and left [video_stream] unbound. *)
Definition query (w : world) : prog unit (option (catalog * stream * stream)) :=
  try_except
    (yt <-- lift (youtube w) ;;;
     match select_video (streams yt), select_audio (streams yt) with
     | Some video_stream, Some audio_stream =>
         ret (Some (yt, video_stream, audio_stream))
     | _, _ =>
         emit (Error "No suitable video or audio streams found") ;;; return_
     end)
    (fun e =>
       match e with
       | RegexMatchError _ =>
           emit (Error "Invalid YouTube URL structure.") ;;; return_
       | VideoUnavailable _ =>
           emit (Error ("Video unavailable: " ++ str_exn e)) ;;; return_
       | _ => emit (Error ("Error: " ++ str_exn e)) ;;; ret None
       end).

Definition download_video (j : job) (w : world) : prog unit unit :=
  perform (Makedirs (temp_yt_folder j)) (makedirs w) ;;;
  bound <-- query w ;;;
  let video_file := path_join (temp_yt_folder j) "video.mp4" in
  let audio_file := path_join (temp_yt_folder j) "audio.mp4" in
  emit (Message "Downloading video (1/2) ..") ;;;
  match bound with
  | None => raise (UnboundLocalError "video_stream")
  | Some (yt, video_stream, audio_stream) =>
      download_stream video_stream (temp_yt_folder j) "video.mp4"
        (video_download w) ;;;
      emit (Progress 80) ;;;
      emit (Message "Downloading audio (2/2)") ;;;
      download_stream audio_stream (temp_yt_folder j) "audio.mp4"
        (audio_download w) ;;;
      emit (Progress 90) ;;;
      name <-- lift (title yt) ;;;
      merged <-- try_except
        (emit (Message "Merging…😃") ;;;
         ffmpeg_merge w video_file audio_file (output_file j name) ;;;
         emit (Progress 100) ;;;
         ret true)
        (fun e => emit (Error (str_exn e)) ;;; ret false) ;;;
      if merged
      then emit (Message ("Downloaded ↘ "
                          ++ PosixPath.basename (output_file j name)))
      else ret tt
  end.

(** The [finally] block of [run]. *)
Definition cleanup (j : job) (w : world) : prog unit unit :=
  emit Finished ;;;
  if temp_exists w
  then try_except
         (perform (Rmtree (temp_yt_folder j)) (rmtree w))
         (fun _ => emit (Error "Failed to clean up tempFiles:"))
  else ret tt.

Definition program (j : job) (w : world) : prog unit unit :=
  try_except (call (download_video j w))
             (fun e => emit (Error (str_exn e))) ;;;
  cleanup j w.

(** The events of one job. *)
Definition run (j : job) (w : world) : list event :=
  trace (program j w) tt.

(** The same environment with another outcome of [shutil.rmtree]. *)
Definition with_rmtree (w : world) (o : option exn) : world :=
  {| makedirs := makedirs w; youtube := youtube w;
     video_download := video_download w; audio_download := audio_download w;
     ffmpeg := ffmpeg w; temp_exists := temp_exists w; rmtree := o |}.

(** What [cleanup] does after [finished]. *)
Definition removal (j : job) (w : world) : list event :=
  if temp_exists w
  then Eff (Rmtree (temp_yt_folder j)) ::
       match rmtree w with
       | Some _ => [Sig (Error "Failed to clean up tempFiles:")]
       | None => []
       end
  else [].

End Ghost.

(** ** The scenarios of the specification, as data *)

Module Scenario.
Import Pytube.

Definition video720 : stream :=
  {| itag := 136; type := Video; subtype := "mp4"; is_progressive := false;
     resolution := Some 720; abr := None;
     filesize := 50000000; filesize_approx := 50000000 |}.

Definition audio128 : stream :=
  {| itag := 140; type := Audio; subtype := "mp4"; is_progressive := false;
     resolution := None; abr := Some 128;
     filesize := 5000000; filesize_approx := 5000000 |}.

Definition both : catalog :=
  {| streams := [video720; audio128]; title := Return "My Video: Part #1?" |}.

Definition video_only : catalog :=
  {| streams := [video720]; title := Return "My Video: Part #1?" |}.

Definition video1080 : stream :=
  {| itag := 137; type := Video; subtype := "mp4"; is_progressive := false;
     resolution := Some 1080; abr := None;
     filesize := 90000000; filesize_approx := 90000000 |}.

Definition video2160_webm : stream :=
  {| itag := 313; type := Video; subtype := "webm"; is_progressive := false;
     resolution := Some 2160; abr := None;
     filesize := 400000000; filesize_approx := 400000000 |}.

Definition video1440 : stream :=
  {| itag := 400; type := Video; subtype := "mp4"; is_progressive := false;
     resolution := Some 1440; abr := None;
     filesize := 200000000; filesize_approx := 200000000 |}.

Definition progressive720 : stream :=
  {| itag := 22; type := Video; subtype := "mp4"; is_progressive := true;
     resolution := Some 720; abr := Some 192;
     filesize := 60000000; filesize_approx := 60000000 |}.

Definition audio48 : stream :=
  {| itag := 139; type := Audio; subtype := "mp4"; is_progressive := false;
     resolution := None; abr := Some 48;
     filesize := 2000000; filesize_approx := 2000000 |}.

Definition audio160_webm : stream :=
  {| itag := 251; type := Audio; subtype := "webm"; is_progressive := false;
     resolution := None; abr := Some 160;
     filesize := 6000000; filesize_approx := 6000000 |}.

Definition many : catalog :=
  {| streams := [progressive720; video720; video2160_webm; video1080;
                 video1440; audio48; audio160_webm; audio128];
     title := Return "My Video: Part #1?" |}.

Definition transfer (remaining : list Z) : download :=
  {| chunks := remaining; failure := None |}.

(** Scenario A on [gpt.py]: both transfers complete, ffmpeg runs for three
    polls and exits with 0. *)
Definition gpt_success : Gpt.world :=
  {| Gpt.uuid4_hex := "0123456789abcdef0123456789abcdef";
     Gpt.makedirs := fun _ => None;
     Gpt.youtube := Return both;
     Gpt.video_download := transfer [25000000; 0];
     Gpt.audio_download := transfer [0];
     Gpt.popen := None;
     Gpt.merge_start := Binary64.literal 1000 1;
     Gpt.polls := [Binary64.literal 1000 1; Binary64.literal 10008 10;
                   Binary64.literal 10016 10];
     Gpt.communicate := None;
     Gpt.returncode := 0;
     Gpt.stderr := "" |}.


(** Scenario C: no audio-only stream in the catalog. *)
Definition gpt_no_audio : Gpt.world :=
  {| Gpt.uuid4_hex := "0123456789abcdef0123456789abcdef";
     Gpt.makedirs := fun _ => None;
     Gpt.youtube := Return video_only;
     Gpt.video_download := transfer [];
     Gpt.audio_download := transfer [];
     Gpt.popen := None;
     Gpt.merge_start := Binary64.Fin 0;
     Gpt.polls := [];
     Gpt.communicate := None;
     Gpt.returncode := 0;
     Gpt.stderr := "" |}.


Definition gpt_job : Gpt.job := Gpt.init "https://youtu.be/dQw4w9WgXcQ" "/home/user/Videos/ytbr".


Definition ghost_job : Ghost.job :=
  Ghost.init "https://youtu.be/dQw4w9WgXcQ" "/home/user/Videos/ytbr".


Definition ghost_success : Ghost.world :=
  {| Ghost.makedirs := None;
     Ghost.youtube := Return both;
     Ghost.video_download := transfer [25000000; 0];
     Ghost.audio_download := transfer [0];
     Ghost.ffmpeg := None;
     Ghost.temp_exists := true;
     Ghost.rmtree := None |}.

(** The worker of Scenario A when its merge starts. *)
Definition downloaded : GptProgress.worker :=
  GptProgress.finish_audio
    (GptProgress.finish_video (GptProgress.select video720 audio128)).

(** Scenario C on [worker.py]. *)
Definition ghost_no_audio : Ghost.world :=
  {| Ghost.makedirs := None;
     Ghost.youtube := Return video_only;
     Ghost.video_download := transfer [];
     Ghost.audio_download := transfer [];
     Ghost.ffmpeg := None;
     Ghost.temp_exists := true;
     Ghost.rmtree := None |}.


(** Scenario A with the long catalog, on [gpt.py]. *)
Definition gpt_many : Gpt.world :=
  {| Gpt.uuid4_hex := "0123456789abcdef0123456789abcdef";
     Gpt.makedirs := fun _ => None;
     Gpt.youtube := Return many;
     Gpt.video_download := transfer [45000000; 0];
     Gpt.audio_download := transfer [0];
     Gpt.popen := None;
     Gpt.merge_start := Binary64.literal 1000 1;
     Gpt.polls := [Binary64.literal 1000 1; Binary64.literal 10008 10];
     Gpt.communicate := None;
     Gpt.returncode := 0;
     Gpt.stderr := "" |}.

(** Scenario A with the long catalog, on [worker.py]. *)
Definition ghost_many : Ghost.world :=
  {| Ghost.makedirs := None;
     Ghost.youtube := Return many;
     Ghost.video_download := transfer [45000000; 0];
     Ghost.audio_download := transfer [0];
     Ghost.ffmpeg := None;
     Ghost.temp_exists := true;
     Ghost.rmtree := None |}.

(** Scenario A on a machine whose wall clock is set back by nine seconds
    while ffmpeg runs: [time.time()] gives 1000.0 at the start of the merge,
    then 1003.0, 1006.0 and 997.0. *)
Definition gpt_clock_set_back : Gpt.world :=
  {| Gpt.uuid4_hex := "0123456789abcdef0123456789abcdef";
     Gpt.makedirs := fun _ => None;
     Gpt.youtube := Return both;
     Gpt.video_download := transfer [25000000; 0];
     Gpt.audio_download := transfer [0];
     Gpt.popen := None;
     Gpt.merge_start := Binary64.literal 1000 1;
     Gpt.polls := [Binary64.literal 1003 1; Binary64.literal 1006 1;
                   Binary64.literal 997 1];
     Gpt.communicate := None;
     Gpt.returncode := 0;
     Gpt.stderr := "" |}.

End Scenario.

(** * Definitions for the further properties *)

(** The value of a numeral, [-1] when [roman_to_int_strict] raises. *)
Definition roman_value (s : string) : Z :=
  match Roman.roman_to_int_strict s with
  | Return n => n
  | Raise _ => -1
  end.

(** No integer occurs twice in the list. *)
Fixpoint distinct (l : list Z) : bool :=
  match l with
  | [] => true
  | x :: l' => negb (existsb (Z.eqb x) l') && distinct l'
  end.

(** A numeral of at most 15 letters, all of them keys of [roman_map]. *)
Definition roman_shape (s : string) : bool :=
  (String.length s <=? 15)%nat && PyStr.every (PyStr.contains "IVXLCDM") s.

(** The start of ffmpeg: [subprocess.Popen] or [subprocess.run]. *)
Definition is_ffmpeg (e : event) : bool :=
  match e with
  | Eff (Popen _) => true
  | Eff (SubprocessRun _) => true
  | _ => false
  end.

(** [text.startswith("Downloaded")] on a [message] signal *)
Definition announces (e : event) : bool :=
  match e with
  | Sig (Message text) => String.prefix "Downloaded" text
  | _ => false
  end.

(** The program never goes on to its next statement. *)
Definition stops {S A : Type} (m : Exec.prog S A) : Prop :=
  forall s a s' t, m s <> (Exec.Next a, s', t).

(** The program goes on, and only with a value that satisfies [Q]. *)
Definition yields {S A : Type} (Q : A -> Prop) (m : Exec.prog S A) : Prop :=
  forall s a s' t, m s = (Exec.Next a, s', t) -> Q a.

(** The same environment with another outcome of [YouTube(url)]. *)
Definition Ghost_with_youtube (w : Ghost.world) (y : result catalog)
  : Ghost.world :=
  {| Ghost.makedirs := Ghost.makedirs w; Ghost.youtube := y;
     Ghost.video_download := Ghost.video_download w;
     Ghost.audio_download := Ghost.audio_download w;
     Ghost.ffmpeg := Ghost.ffmpeg w; Ghost.temp_exists := Ghost.temp_exists w;
     Ghost.rmtree := Ghost.rmtree w |}.

(** Every trace of the program holds an event of the kind [P]. *)
Definition performs {S A : Type} (P : event -> bool) (m : Exec.prog S A)
  : Prop :=
  forall s, existsb P (Exec.trace m s) = true.

(** In every trace of the program an event of the kind [Q] comes with one of
    the kind [P]. *)
Definition needs {S A : Type} (P Q : event -> bool) (m : Exec.prog S A)
  : Prop :=
  forall s, existsb Q (Exec.trace m s) = true ->
            existsb P (Exec.trace m s) = true.

(** The worker has recorded the two streams: their itags and non-zero sizes. *)
Definition recorded (video audio : Pytube.stream) (st : GptProgress.worker)
  : Prop :=
  GptProgress._video_itag st = Some (Pytube.itag video) /\
  GptProgress._audio_itag st = Some (Pytube.itag audio) /\
  GptProgress.video_size st <> 0 /\ GptProgress.audio_size st <> 0.

(** The program leaves the worker state as it found it. *)
Definition keeps_state {S A : Type} (m : Exec.prog S A) : Prop :=
  forall s a s' t, m s = (Exec.Next a, s', t) -> s' = s.

(** ** The two interfaces

    A window is recorded by the widget properties its methods read and set.
    [QProgressBar.setValue] leaves the value as it is when the new one is
    outside the range, here [setRange(0, 100)]; [QTimer.singleShot] is
    recorded as a pending action with its delay in milliseconds.  The
    signals of a worker are delivered to their slots in the order of their
    emission. *)

Module Qt.

Inductive action : Type :=
| SetPlaceholderText (text : string)
| HideProgressBar.

Record window : Type := {
  placeholder_text : string;
  input_text : string;
  controls_enabled : bool;
  bar_visible : bool;
  bar_value : Z;
  download_folder : string;
  timers : list (Z * action)
}.

(** [self.progress_bar.setValue(v)] *)
Definition setValue (v : Z) (u : window) : window :=
  if (0 <=? v) && (v <=? 100)
  then {| placeholder_text := placeholder_text u; input_text := input_text u;
          controls_enabled := controls_enabled u;
          bar_visible := bar_visible u; bar_value := v;
          download_folder := download_folder u; timers := timers u |}
  else u.

(** [self.progress_bar.show()], [self.progress_bar.hide()] *)
Definition setVisible (b : bool) (u : window) : window :=
  {| placeholder_text := placeholder_text u; input_text := input_text u;
     controls_enabled := controls_enabled u;
     bar_visible := b; bar_value := bar_value u;
     download_folder := download_folder u; timers := timers u |}.

(** [self.url_input.setPlaceholderText(text)] *)
Definition setPlaceholderText (text : string) (u : window) : window :=
  {| placeholder_text := text; input_text := input_text u;
     controls_enabled := controls_enabled u;
     bar_visible := bar_visible u; bar_value := bar_value u;
     download_folder := download_folder u; timers := timers u |}.

(** [self.url_input.clear()] *)
Definition clear (u : window) : window :=
  {| placeholder_text := placeholder_text u; input_text := "";
     controls_enabled := controls_enabled u;
     bar_visible := bar_visible u; bar_value := bar_value u;
     download_folder := download_folder u; timers := timers u |}.

(** [QTimer.singleShot(ms, a)] *)
Definition singleShot (ms : Z) (a : action) (u : window) : window :=
  {| placeholder_text := placeholder_text u; input_text := input_text u;
     controls_enabled := controls_enabled u;
     bar_visible := bar_visible u; bar_value := bar_value u;
     download_folder := download_folder u;
     timers := (timers u ++ [(ms, a)])%list |}.

End Qt.

(** [youtubr/main.py]: [MainApp].  The folders of the window are absolute
    paths, which [path.expanduser] leaves as they are. *)
Module MainUi.
Import Qt.

(** [self.placeholder] *)
Definition placeholder : string := "Enter YouTube Link       ".

(** [toggle_controls]: the input and the folder button together. *)
Definition toggle_controls (enable : bool) (u : window) : window :=
  {| placeholder_text := placeholder_text u; input_text := input_text u;
     controls_enabled := enable;
     bar_visible := bar_visible u; bar_value := bar_value u;
     download_folder := download_folder u; timers := timers u |}.

(** The three slots connected to [finished], in the order of their
    connection. *)
Definition on_finished (u : window) : window :=
  toggle_controls true (setValue 0 (setVisible false u)).

(** [update_placeholder] *)
Definition update_placeholder (text : string) (u : window) : window :=
  let u := setPlaceholderText text u in
  if String.prefix "Downloaded" text
  then singleShot 3500 (SetPlaceholderText placeholder) u
  else u.

(** [update_placeholder_error] *)
Definition update_placeholder_error (error : string) (u : window) : window :=
  singleShot 2500 (SetPlaceholderText placeholder)
    (toggle_controls true
       (setVisible false (setPlaceholderText ("❌ " ++ error) u))).

(** The slot of one signal. *)
Definition deliver (u : window) (g : signal) : window :=
  match g with
  | Finished => on_finished u
  | Message text => update_placeholder text u
  | Progress percent => setValue percent u
  | Error text => update_placeholder_error text u
  end.

(** [worker_init(url)] up to [self.threadpool.start(worker)]: the window and
    the worker handed to the pool. *)
Definition worker_init (url : string) (u : window) : window * Ghost.job :=
  (setVisible true (clear (toggle_controls false u)),
   Ghost.init url (download_folder u)).

(** [url_download_on_return]; [makedirs] is the outcome of
    [makedirs(folder_path, exist_ok=True)], [default] the value of
    [default_download_path()]. *)
Definition url_download_on_return (default : string)
    (makedirs : string -> option exn) (u : window)
  : window * option Ghost.job :=
  let url_text := PyStr.strip (input_text u) in
  if PyStr.is_empty url_text
  then (singleShot 2000 (SetPlaceholderText placeholder)
          (setPlaceholderText "❌ Enter url ... empty" u), None)
  else if negb (String.prefix "https://youtu.be/" url_text)
  then (singleShot 2000 (SetPlaceholderText placeholder)
          (setPlaceholderText "❌ Enter valid Youtube URL" (clear u)), None)
  else
    let folder_path := PyStr.or_else (download_folder u) default in
    match makedirs folder_path with
    | Some e =>
        (setPlaceholderText
           ("❌ Failed to access folder " ++ folder_path ++ ": " ++ str_exn e)
           u, None)
    | None =>
        match worker_init url_text u with
        | (u', worker) => (u', Some worker)
        end
    end.

(** The window once the signals of a run have reached their slots. *)
Definition after_run (u : window) (t : list event) : window :=
  fold_left deliver (signals t) u.

End MainUi.

(** [youtubr-FINAL PROJECT/gpt.py]: [MainApp] *)
Module GptUi.
Import Qt.

Definition placeholder : string := "Enter YouTube Link       ".

(** [on_worker_finished] *)
Definition on_worker_finished (u : window) : window :=
  singleShot 2000 (SetPlaceholderText placeholder)
    (singleShot 1200 HideProgressBar
       (setPlaceholderText "Download Complete ✔" (clear u))).

(** [on_worker_error] *)
Definition on_worker_error (err : string) (u : window) : window :=
  setPlaceholderText ("❌ " ++ err) (setVisible false u).

(** The slot of one signal. *)
Definition deliver (u : window) (g : signal) : window :=
  match g with
  | Finished => on_worker_finished u
  | Message text => setPlaceholderText text u
  | Progress percent => setValue percent u
  | Error text => on_worker_error text u
  end.

(** [worker_init(folder)] up to [self.threadpool.start(worker)]; [folder]
    is [None] or the folder chosen. *)
Definition worker_init (folder : option string) (u : window)
  : window * Gpt.job :=
  let folder_path :=
    match folder with
    | Some f => PyStr.or_else f (download_folder u)
    | None => download_folder u
    end in
  (setVisible true (setValue 0 u), Gpt.init (input_text u) folder_path).

(** [url_download_on_return] *)
Definition url_download_on_return (makedirs : string -> option exn)
    (u : window) : window * option Gpt.job :=
  let folder_path := download_folder u in
  match makedirs folder_path with
  | Some e =>
      (setPlaceholderText
         ("❌ Failed to access folder " ++ folder_path ++ ": " ++ str_exn e)
         u, None)
  | None =>
      match worker_init (Some folder_path) u with
      | (u', worker) => (u', Some worker)
      end
  end.

Definition after_run (u : window) (t : list event) : window :=
  fold_left deliver (signals t) u.

End GptUi.

(** A [progress] signal with a percent outside 0..100. *)
Definition out_of_range (e : event) : bool :=
  match e with
  | Sig (Progress percent) => negb ((0 <=? percent) && (percent <=? 100))
  | _ => false
  end.

(** The same environment with another outcome of [YouTube(url)]. *)
Definition Gpt_with_youtube (w : Gpt.world) (y : result catalog) : Gpt.world :=
  {| Gpt.uuid4_hex := Gpt.uuid4_hex w; Gpt.makedirs := Gpt.makedirs w;
     Gpt.youtube := y;
     Gpt.video_download := Gpt.video_download w;
     Gpt.audio_download := Gpt.audio_download w;
     Gpt.popen := Gpt.popen w; Gpt.merge_start := Gpt.merge_start w;
     Gpt.polls := Gpt.polls w; Gpt.communicate := Gpt.communicate w;
     Gpt.returncode := Gpt.returncode w; Gpt.stderr := Gpt.stderr w |}.

(** The [error] signal of [ffmpeg_merge] for the exception of
    [subprocess.run]. *)
Definition merge_error (cmd : list string) (e : exn) : string :=
  match e with
  | CalledProcessError _ stderr =>
      "FFmpeg merge failed. Command: " ++ Ghost.join_spaces cmd
      ++ ". Stderr: " ++ PyStr.strip stderr
  | FileNotFoundError _ => "FFmpeg not found in $PATH."
  | _ => "Ffmpeg merger failed:"
  end.

(** Scenario A on [worker.py] on a machine without ffmpeg. *)
Definition Scenario_ghost_ffmpeg_missing : Ghost.world :=
  {| Ghost.makedirs := None;
     Ghost.youtube := Return Scenario.both;
     Ghost.video_download := Scenario.transfer [25000000; 0];
     Ghost.audio_download := Scenario.transfer [0];
     Ghost.ffmpeg :=
       Some (FileNotFoundError "[Errno 2] No such file or directory: 'ffmpeg'");
     Ghost.temp_exists := true;
     Ghost.rmtree := None |}.

(** Each fraction differs from the one before, [last] for the first, by at
    least [0.005]: the test of the merge loop. *)
Fixpoint spaced (last : Binary64.float) (l : list Binary64.float) : bool :=
  match l with
  | [] => true
  | f :: l' =>
      Binary64.leb Gpt.min_delta (Binary64.abs (Binary64.sub f last))
      && spaced f l'
  end.

(** * Properties *)

(** ** Strings *)

Lemma append_nil_r (s : string) : s ++ "" = s.
Proof. induction s as [|c s IH]; simpl; [reflexivity | now rewrite IH]. Qed.

Lemma append_assoc (a b c : string) : (a ++ b) ++ c = a ++ (b ++ c).
Proof. induction a as [|x a IH]; simpl; [reflexivity | now rewrite IH]. Qed.

(** ** The matcher decides the language of the pattern *)

Section RegexFacts.
Import Regex.

Lemma rep_spec (r : re) (IH : run_spec r) (k : string -> bool) :
  forall n lo s,
    rep (run r) lo n s k = true <->
    exists j a b, (lo <= j <= n)%nat /\ iter (lang r) j a /\ s = a ++ b /\ k b = true.
Proof.
  induction n as [|n IHn]; intros lo s; cbn [rep].
  - destruct (Nat.eqb_spec lo 0) as [->|Hlo]; split.
    + intros Hk. exists 0%nat, "", s. simpl. repeat split; auto.
    + intros (j & a & b & Hj & Hit & -> & Hk).
      assert (j = 0%nat) by lia. subst j. simpl in Hit. subst a. exact Hk.
    + discriminate.
    + intros (j & a & b & Hj & _). lia.
  - rewrite orb_true_iff. split.
    + intros [Hrun | Hk].
      * apply IH in Hrun. destruct Hrun as (a & b & -> & Ha & Hrep).
        apply IHn in Hrep. destruct Hrep as (j & a' & b' & Hj & Hit & -> & Hk).
        exists (S j), (a ++ a'), b'. repeat split; try lia.
        -- simpl. exists a, a'. auto.
        -- now rewrite append_assoc.
        -- exact Hk.
      * destruct (Nat.eqb_spec lo 0) as [->|]; [|discriminate].
        exists 0%nat, "", s. simpl. repeat split; auto; lia.
    + intros (j & a & b & Hj & Hit & -> & Hk).
      destruct j as [|j].
      * right. simpl in Hit. subst a. simpl.
        assert (lo = 0%nat) by lia. subst lo. exact Hk.
      * left. simpl in Hit. destruct Hit as (a1 & a2 & -> & Ha1 & Hit).
        apply IH. exists a1, (a2 ++ b).
        split; [now rewrite append_assoc|]. split; [exact Ha1|].
        apply IHn. exists j, a2, b. repeat split; auto; lia.
Qed.

Lemma run_correct (r : re) : run_spec r.
Proof.
  induction r as [c | r1 IH1 r2 IH2 | r1 IH1 r2 IH2 | r IH lo hi];
    intros s k; cbn [run lang].
  - split.
    + destruct s as [|c' s]; [discriminate|].
      destruct (Ascii.eqb_spec c c') as [->|]; [|discriminate].
      intros Hk. exists (String c' ""), s. simpl. auto.
    + intros (a & b & -> & -> & Hk). simpl. now rewrite Ascii.eqb_refl.
  - split.
    + intros H. apply IH1 in H. destruct H as (a & b & -> & Ha & Hb).
      apply IH2 in Hb. destruct Hb as (a' & b' & -> & Ha' & Hk).
      exists (a ++ a'), b'. rewrite append_assoc. repeat split; auto.
      exists a, a'. auto.
    + intros (a & b & -> & (a1 & a2 & -> & H1 & H2) & Hk).
      apply IH1. exists a1, (a2 ++ b). rewrite append_assoc. repeat split; auto.
      apply IH2. exists a2, b. auto.
  - rewrite orb_true_iff. split.
    + intros [H | H]; [apply IH1 in H | apply IH2 in H];
        destruct H as (a & b & -> & Ha & Hk); exists a, b; auto.
    + intros (a & b & -> & [Ha | Ha] & Hk);
        [left; apply IH1 | right; apply IH2]; exists a, b; auto.
  - split.
    + intros H. apply (rep_spec r IH) in H.
      destruct H as (j & a & b & Hj & Hit & -> & Hk).
      exists a, b. repeat split; auto. exists j. auto.
    + intros (a & b & -> & (j & Hj & Hit) & Hk).
      apply (rep_spec r IH). exists j, a, b. auto.
Qed.

Lemma fullmatch_lang (r : re) (s : string) :
  fullmatch r s = true <-> lang r s.
Proof.
  unfold fullmatch. split.
  - intros H. apply run_correct in H. destruct H as (a & b & -> & Ha & Hb).
    destruct b; [|discriminate]. now rewrite append_nil_r.
  - intros H. apply run_correct. exists s, "". rewrite append_nil_r. auto.
Qed.

Lemma in_power (P : string -> Prop) (l : list string) :
  (forall a, P a -> In a l) ->
  forall n s, iter P n s -> In s (power l n).
Proof.
  intros HP. induction n as [|n IH]; intros s; simpl.
  - intros ->. now left.
  - intros (a & b & -> & Ha & Hb). apply in_flat_map. exists a.
    split; [now apply HP|]. apply in_map. now apply IH.
Qed.

Lemma in_upto (l : list string) (n j : nat) (s : string) :
  (j <= n)%nat -> In s (power l j) -> In s (upto l n).
Proof.
  induction n as [|n IH]; intros Hj Hs.
  - assert (j = 0%nat) by lia. subst j. exact Hs.
  - cbn [upto]. apply in_or_app.
    destruct (Nat.eq_dec j (S n)) as [->|]; [now right|].
    left. apply IH; [lia | exact Hs].
Qed.

Lemma lang_words (r : re) : forall s, lang r s -> In s (words r).
Proof.
  induction r as [c | r1 IH1 r2 IH2 | r1 IH1 r2 IH2 | r IH lo hi];
    intros s; simpl.
  - intros ->. now left.
  - intros (a & b & -> & Ha & Hb). apply in_flat_map. exists a.
    split; [now apply IH1|]. apply in_map. now apply IH2.
  - intros [H | H]; apply in_or_app; [left | right]; auto.
  - intros (n & Hn & Hit). apply in_upto with (j := n); [lia|].
    now apply in_power with (P := lang r).
Qed.

End RegexFacts.

(** ** Strict Roman numerals *)

Lemma roman_words_in_range :
  forallb Roman.roman_in_range (Regex.words Roman.roman_pattern) = true.
Proof. vm_compute. reflexivity. Qed.

Lemma roman_lang_in_range (s : string) :
  Regex.lang Roman.roman_pattern s -> Roman.roman_in_range s = true.
Proof.
  intros H. apply lang_words in H.
  pose proof roman_words_in_range as Hall.
  rewrite forallb_forall in Hall. now apply Hall.
Qed.

Lemma roman_accepted (s : string) :
  s <> "" -> Regex.lang Roman.roman_pattern s ->
  exists n, Roman.roman_to_int_strict s = Return n /\ 1 <= n <= 3999.
Proof.
  intros Hs HL. pose proof (roman_lang_in_range s HL) as Hr.
  unfold Roman.roman_in_range in Hr.
  destruct (Roman.roman_to_int_strict s) as [n|e]; [|discriminate].
  destruct (String.eqb_spec s "") as [->|_]; [now elim Hs|].
  apply andb_true_iff in Hr. destruct Hr as [H1 H2].
  exists n. split; [reflexivity | lia].
Qed.

Lemma roman_rejected (s : string) :
  s <> "" -> ~ Regex.lang Roman.roman_pattern s ->
  Roman.roman_to_int_strict s = Raise (ValueError (Roman.invalid_message s)).
Proof.
  intros Hs HL. unfold Roman.roman_to_int_strict.
  destruct s as [|c s]; [now elim Hs|].
  destruct (Regex.fullmatch Roman.roman_pattern (String c s)) eqn:E.
  - apply fullmatch_lang in E. now elim HL.
  - reflexivity.
Qed.

Lemma roman_lang_dec (s : string) :
  {Regex.lang Roman.roman_pattern s} + {~ Regex.lang Roman.roman_pattern s}.
Proof.
  destruct (Regex.fullmatch Roman.roman_pattern s) eqn:E.
  - left. now apply fullmatch_lang.
  - right. intros H. apply fullmatch_lang in H. congruence.
Qed.

(** C9: on a non-empty string, [roman_to_int_strict] raises [ValueError]
    exactly when the string is not in the language of the strict pattern
    [^(M{0,3})(CM|CD|D?C{0,3})(XL|XC|L?X{0,3})(IV|IX|V?I{0,3})$], and on every
    non-empty string of that language it returns an integer between 1 and
    3999 without raising. *)
Theorem roman_strict_validation (s : string) (Hs : s <> "") :
  (Regex.lang Roman.roman_pattern s ->
     exists n, Roman.roman_to_int_strict s = Return n /\ 1 <= n <= 3999) /\
  (~ Regex.lang Roman.roman_pattern s ->
     Roman.roman_to_int_strict s = Raise (ValueError (Roman.invalid_message s))) /\
  ((exists msg, Roman.roman_to_int_strict s = Raise (ValueError msg)) <->
     ~ Regex.lang Roman.roman_pattern s).
Proof.
  repeat split.
  - now apply roman_accepted.
  - now apply roman_rejected.
  - intros (msg & Hmsg) HL.
    destruct (roman_accepted s Hs HL) as (n & Hn & _). congruence.
  - intros HL. eexists. now apply roman_rejected.
Qed.

Lemma roman_strict_validation_witness :
  "MCMXCIV" <> "" /\
  exists n, Roman.roman_to_int_strict "MCMXCIV" = Return n /\ 1 <= n <= 3999.
Proof.
  split; [discriminate|].
  apply (roman_strict_validation "MCMXCIV"); [discriminate|].
  apply fullmatch_lang. reflexivity.
Defined.

(** C10: the empty string is mapped to 0 without raising, and it is the only
    input mapped to 0. *)
Theorem roman_empty_is_zero :
  Roman.roman_to_int_strict "" = Return 0 /\
  forall s, Roman.roman_to_int_strict s = Return 0 -> s = "".
Proof.
  split; [reflexivity|].
  intros s Hs. destruct (String.eqb_spec s "") as [|Hne]; [assumption|].
  destruct (roman_lang_dec s) as [HL | HL].
  - destruct (roman_accepted s Hne HL) as (n & Hn & Hrange).
    rewrite Hs in Hn. injection Hn as <-. lia.
  - rewrite (roman_rejected s Hne HL) in Hs. discriminate.
Qed.

Example roman_1994 : Roman.roman_to_int_strict "MCMXCIV" = Return 1994.
Proof. reflexivity. Qed.

Example roman_3888 : Roman.roman_to_int_strict "MMMDCCCLXXXVIII" = Return 3888.
Proof. reflexivity. Qed.

Example roman_IC :
  Roman.roman_to_int_strict "IC" = Raise (ValueError (Roman.invalid_message "IC")).
Proof. reflexivity. Qed.

(** ** Rounding to nearest is monotone *)

Section Rounding.
Import Binary64.

Lemma div_cross_le (A1 B1 A2 B2 : Z) :
  0 < B1 -> 0 < B2 -> A1 * B2 <= A2 * B1 -> A1 / B1 <= A2 / B2.
Proof.
  intros HB1 HB2 H.
  pose proof (Z.div_mod A1 B1 ltac:(lia)) as E1.
  pose proof (Z.mod_pos_bound A1 B1 HB1) as R1.
  pose proof (Z.div_mod A2 B2 ltac:(lia)) as E2.
  pose proof (Z.mod_pos_bound A2 B2 HB2) as R2.
  remember (A1 / B1) as q1. remember (A2 / B2) as q2.
  remember (A1 mod B1) as r1. remember (A2 mod B2) as r2.
  destruct (Z.lt_ge_cases q1 (q2 + 1)) as [|Hge]; [lia|]. exfalso.
  assert (H1 : B1 * (q2 + 1) <= B1 * q1) by (apply Z.mul_le_mono_nonneg_l; lia).
  assert (H2 : (B1 * (q2 + 1)) * B2 <= A1 * B2)
    by (apply Z.mul_le_mono_nonneg_r; lia).
  assert (H3 : r2 * B1 < B2 * B1) by (apply Z.mul_lt_mono_pos_r; lia).
  nia.
Qed.

Lemma rne_bounds (A D : Z) : A / D <= rne A D <= A / D + 1.
Proof.
  unfold rne. destruct (2 * (A mod D) ?= D); [destruct (Z.even (A / D))| |]; lia.
Qed.

Lemma rne_le_int (A D N : Z) : 0 < D -> A <= N * D -> rne A D <= N.
Proof.
  intros HD H.
  pose proof (Z.div_mod A D ltac:(lia)) as E.
  pose proof (Z.mod_pos_bound A D HD) as R.
  unfold rne. destruct (Z.compare_spec (2 * (A mod D)) D) as [C|C|C];
    [destruct (Z.even (A / D))| |]; nia.
Qed.

Lemma rne_ge_int (A D N : Z) : 0 < D -> N * D <= A -> N <= rne A D.
Proof.
  intros HD H.
  pose proof (Z.div_mod A D ltac:(lia)) as E.
  pose proof (Z.mod_pos_bound A D HD) as R.
  pose proof (rne_bounds A D). assert (N <= A / D); [nia | lia].
Qed.

Lemma rne_mono (A1 D1 A2 D2 : Z) :
  0 < D1 -> 0 < D2 -> A1 * D2 <= A2 * D1 -> rne A1 D1 <= rne A2 D2.
Proof.
  intros HD1 HD2 H.
  pose proof (div_cross_le A1 D1 A2 D2 HD1 HD2 H) as Hq.
  pose proof (rne_bounds A1 D1) as B1. pose proof (rne_bounds A2 D2) as B2.
  destruct (Z.eq_dec (A1 / D1) (A2 / D2)) as [Heq | Hne]; [|lia].
  pose proof (Z.div_mod A1 D1 ltac:(lia)) as E1.
  pose proof (Z.mod_pos_bound A1 D1 HD1) as R1.
  pose proof (Z.div_mod A2 D2 ltac:(lia)) as E2.
  pose proof (Z.mod_pos_bound A2 D2 HD2) as R2.
  unfold rne. rewrite <- Heq in *.
  assert (Hr : (A1 mod D1) * D2 <= (A2 mod D2) * D1) by nia.
  destruct (Z.compare_spec (2 * (A1 mod D1)) D1) as [C1|C1|C1];
    destruct (Z.compare_spec (2 * (A2 mod D2)) D2) as [C2|C2|C2];
    destruct (Z.even (A1 / D1)); try lia; nia.
Qed.

Lemma ulp_exp_nonneg (f : Z) : 0 <= ulp_exp f.
Proof. unfold ulp_exp. lia. Qed.

Lemma ulp_exp_mono (f g : Z) : f <= g -> ulp_exp f <= ulp_exp g.
Proof. intros H. unfold ulp_exp. pose proof (Z.log2_le_mono f g H). lia. Qed.

Lemma pow2_pos (s : Z) : 0 <= s -> 0 < 2 ^ s.
Proof. intros. apply Z.pow_pos_nonneg; lia. Qed.

Lemma round_pos_nonneg (A B : Z) : 0 <= A -> 0 < B -> 0 <= round_pos A B.
Proof.
  intros HA HB. unfold round_pos.
  pose proof (pow2_pos _ (ulp_exp_nonneg (A / B))) as HP.
  assert (0 <= rne A (B * 2 ^ ulp_exp (A / B))); [|nia].
  apply rne_ge_int; nia.
Qed.

(** Above a power of two [2^(s+52)] with [s] the exponent of the ulp, the
    rounded value stays above it; below, it stays below. *)
Lemma round_pos_ge_pow (A B s : Z) :
  0 < B -> 0 < s -> ulp_exp (A / B) = s -> 2 ^ (s + 52) <= round_pos A B.
Proof.
  intros HB Hs Hu. unfold round_pos. rewrite Hu.
  pose proof (pow2_pos s ltac:(lia)) as HP.
  unfold ulp_exp in Hu.
  assert (Hl : Z.log2 (A / B) = s + 52) by lia.
  assert (Hf : 0 < A / B).
  { destruct (Z.lt_ge_cases 0 (A / B)) as [|Hle]; [assumption|].
    rewrite (Z.log2_nonpos _ Hle) in Hl. lia. }
  pose proof (Z.log2_spec _ Hf) as [Hlo _]. rewrite Hl in Hlo.
  pose proof (Z.div_mod A B ltac:(lia)) as E.
  pose proof (Z.mod_pos_bound A B HB) as R.
  rewrite Z.pow_add_r in * by lia.
  assert (2 ^ 52 <= rne A (B * 2 ^ s)); [|nia].
  apply rne_ge_int; nia.
Qed.

Lemma round_pos_le_pow (A B s : Z) :
  0 <= A -> 0 < B -> ulp_exp (A / B) < s -> round_pos A B <= 2 ^ (s + 52).
Proof.
  intros HA HB Hu. unfold round_pos.
  set (s1 := ulp_exp (A / B)) in *.
  pose proof (ulp_exp_nonneg (A / B)) as Hs1. fold s1 in Hs1.
  pose proof (pow2_pos s1 Hs1) as HP.
  assert (Hf : A / B < 2 ^ (s + 52)).
  { destruct (Z.lt_ge_cases 0 (A / B)) as [Hpos|Hle].
    - apply Z.log2_lt_pow2; [assumption|]. unfold s1, ulp_exp in Hu. lia.
    - pose proof (pow2_pos (s + 52) ltac:(lia)). lia. }
  pose proof (Z.div_mod A B ltac:(lia)) as E.
  pose proof (Z.mod_pos_bound A B HB) as R.
  replace (s + 52) with ((s + 52 - s1) + s1) in * by lia.
  rewrite Z.pow_add_r in * by lia.
  pose proof (pow2_pos (s + 52 - s1) ltac:(lia)) as HP'.
  assert (rne A (B * 2 ^ s1) <= 2 ^ (s + 52 - s1)); [|nia].
  apply rne_le_int; nia.
Qed.

Lemma round_pos_mono (A1 B1 A2 B2 : Z) :
  0 <= A1 -> 0 < B1 -> 0 < B2 -> A1 * B2 <= A2 * B1 ->
  round_pos A1 B1 <= round_pos A2 B2.
Proof.
  intros HA1 HB1 HB2 H.
  pose proof (div_cross_le A1 B1 A2 B2 HB1 HB2 H) as Hq.
  pose proof (ulp_exp_mono _ _ Hq) as Hs.
  destruct (Z.eq_dec (ulp_exp (A1 / B1)) (ulp_exp (A2 / B2))) as [Heq | Hne].
  - unfold round_pos. rewrite Heq.
    pose proof (pow2_pos _ (ulp_exp_nonneg (A2 / B2))) as HP.
    apply Z.mul_le_mono_nonneg_r; [lia|].
    apply rne_mono; nia.
  - pose proof (ulp_exp_nonneg (A1 / B1)).
    transitivity (2 ^ (ulp_exp (A2 / B2) + 52)).
    + apply round_pos_le_pow; lia.
    + apply round_pos_ge_pow; lia.
Qed.

Lemma round_units_mono (A1 B1 A2 B2 : Z) :
  0 < B1 -> 0 < B2 -> A1 * B2 <= A2 * B1 ->
  round_units A1 B1 <= round_units A2 B2.
Proof.
  intros HB1 HB2 H. unfold round_units.
  pose proof (round_pos_nonneg (Z.abs A1) B1 (Z.abs_nonneg A1) HB1) as P1.
  pose proof (round_pos_nonneg (Z.abs A2) B2 (Z.abs_nonneg A2) HB2) as P2.
  destruct (Z.sgn_spec A1) as [[S1 E1] | [[S1 E1] | [S1 E1]]];
    destruct (Z.sgn_spec A2) as [[S2 E2] | [[S2 E2] | [S2 E2]]];
    rewrite E1, E2; try lia; try (exfalso; nia).
  - assert (round_pos (Z.abs A1) B1 <= round_pos (Z.abs A2) B2); [|lia].
    apply round_pos_mono; lia.
  - assert (round_pos (Z.abs A2) B2 <= round_pos (Z.abs A1) B1); [|lia].
    apply round_pos_mono; lia.
Qed.

End Rounding.

(** ** Finite results stay within the bounds of their operands *)

Section FloatBounds.
Import Binary64.

Lemma of_units_fin (n : Z) : Z.abs n < overflow_units -> of_units n = Fin n.
Proof.
  intros H. unfold of_units.
  destruct (Z.leb_spec overflow_units (Z.abs n)); [lia | reflexivity].
Qed.

Lemma round_between (A B lo hi : Z) :
  0 < B -> lo * B <= A <= hi * B ->
  round_units lo 1 <= round_units A B <= round_units hi 1.
Proof.
  intros HB [Hlo Hhi]. split; apply round_units_mono; lia.
Qed.

(** [x] is a finite float of [lo .. hi] units. *)
Lemma unit_interval_leb (m : float) :
  leb (Fin 0) m = true -> leb m (Fin one_units) = true ->
  exists n, m = Fin n /\ 0 <= n <= one_units.
Proof.
  destruct m as [n | s | ]; cbn [leb]; intros H0 H1; try discriminate.
  - exists n. split; [reflexivity | lia].
  - destruct s; discriminate.
Qed.

Lemma one_units_pos : 0 < one_units.
Proof. reflexivity. Qed.

Lemma one_below_overflow : one_units < overflow_units.
Proof. reflexivity. Qed.

(** The constants met along [_emit_unified_progress]. *)
Lemma round_zero : round_units 0 1 = 0.
Proof. reflexivity. Qed.

Lemma round_one : round_units one_units 1 = one_units.
Proof. vm_compute. reflexivity. Qed.

Lemma mul_fin_bound (a b a' b' : Z) :
  0 <= a <= a' -> 0 <= b <= b' ->
  round_units (a' * b') one_units < overflow_units ->
  exists n, mul (Fin a) (Fin b) = Fin n /\
            0 <= n <= round_units (a' * b') one_units.
Proof.
  intros Ha Hb Hc. cbn [mul]. unfold round.
  pose proof one_units_pos as H1.
  assert (Hr : round_units 0 1 <= round_units (a * b) one_units
               <= round_units (a' * b') one_units).
  { split; apply round_units_mono; try lia.
    apply Z.mul_le_mono_nonneg_r; [lia|]. nia. }
  rewrite round_zero in Hr.
  exists (round_units (a * b) one_units). split; [|lia].
  apply of_units_fin. lia.
Qed.

Lemma add_fin_bound (a b a' b' : Z) :
  0 <= a <= a' -> 0 <= b <= b' ->
  round_units (a' + b') 1 < overflow_units ->
  exists n, add (Fin a) (Fin b) = Fin n /\
            0 <= n <= round_units (a' + b') 1.
Proof.
  intros Ha Hb Hc. cbn [add]. unfold round.
  assert (Hr : round_units 0 1 <= round_units (a + b) 1
               <= round_units (a' + b') 1).
  { split; apply round_units_mono; lia. }
  rewrite round_zero in Hr.
  exists (round_units (a + b) 1). split; [|lia].
  apply of_units_fin. lia.
Qed.

(** A quotient of integers between 0 and 1 is a float between 0.0 and 1.0. *)
Lemma truediv_unit (d s : Z) :
  s <> 0 -> 0 <= d * Z.sgn s <= Z.abs s ->
  exists n, truediv d s = Return (Fin n) /\ 0 <= n <= one_units.
Proof.
  intros Hs Hd. unfold truediv.
  destruct (Z.eqb_spec s 0) as [|_]; [contradiction|].
  unfold round.
  pose proof one_units_pos as H1. pose proof one_below_overflow as H2.
  assert (Hr : round_units 0 1 <= round_units (d * Z.sgn s * one_units) (Z.abs s)
               <= round_units one_units 1).
  { apply round_between; [lia|]. nia. }
  rewrite round_zero, round_one in Hr.
  rewrite of_units_fin by lia. eexists. split; [reflexivity | lia].
Qed.

End FloatBounds.

(** ** The unified percent of [gpt.py] *)

Section GptProgressFacts.
Import Binary64 Pytube GptProgress.

Lemma fraction_unit (d s : Z) :
  counted d s -> exists n, fraction d s = Return (Fin n) /\ 0 <= n <= one_units.
Proof.
  intros H. unfold fraction. destruct (Z.eqb_spec s 0) as [Hs | Hs]; cbn [negb].
  - exists 0. split; [reflexivity|]. pose proof one_units_pos. lia.
  - destruct H as [H | H]; [contradiction|]. now apply truediv_unit.
Qed.

Lemma weights_finite :
  W_VIDEO = Fin (units W_VIDEO) /\ W_AUDIO = Fin (units W_AUDIO) /\
  W_MERGE = Fin (units W_MERGE) /\ of_Z 100 = Fin (100 * one_units) /\
  0 <= units W_VIDEO /\ 0 <= units W_AUDIO /\ 0 <= units W_MERGE.
Proof. vm_compute. repeat split; discriminate. Qed.

Lemma weights_sum :
  round_units (one_units * units W_VIDEO) one_units = units W_VIDEO /\
  round_units (one_units * units W_AUDIO) one_units = units W_AUDIO /\
  round_units (one_units * units W_MERGE) one_units = units W_MERGE /\
  round_units (round_units (units W_VIDEO + units W_AUDIO) 1 + units W_MERGE) 1
  = one_units /\
  round_units (one_units * (100 * one_units)) one_units = 100 * one_units /\
  round_units (units W_VIDEO + units W_AUDIO) 1 < overflow_units /\
  units W_VIDEO < overflow_units /\ units W_AUDIO < overflow_units /\
  units W_MERGE < overflow_units /\ 100 * one_units < overflow_units.
Proof. vm_compute. repeat split. Qed.

(** With counters inside their sizes and a merge fraction between 0.0 and
    1.0, every intermediate float is finite and the product with 100 lies
    between 0.0 and 100.0. *)
Lemma scaled_range (w : worker) (mu : Z) :
  tracked w -> 0 <= mu <= one_units ->
  exists x, scaled w (Fin mu) = Return (Fin x) /\ 0 <= x <= 100 * one_units.
Proof.
  intros [Hv Ha] Hm. unfold scaled, unified.
  destruct (fraction_unit _ _ Hv) as (v & -> & Hvr).
  destruct (fraction_unit _ _ Ha) as (a & -> & Har).
  cbn [bind].
  destruct weights_finite as (EV & EA & EM & E100 & PV & PA & PM).
  destruct weights_sum as (KV & KA & KM & KS & K100 & B1 & BV & BA & BM & B100).
  pose proof one_units_pos as H1. pose proof one_below_overflow as H2.
  rewrite EV, EA, EM, E100.
  destruct (mul_fin_bound v (units W_VIDEO) one_units (units W_VIDEO))
    as (x1 & -> & R1); try lia.
  destruct (mul_fin_bound a (units W_AUDIO) one_units (units W_AUDIO))
    as (x2 & -> & R2); try lia.
  destruct (mul_fin_bound mu (units W_MERGE) one_units (units W_MERGE))
    as (x3 & -> & R3); try lia.
  rewrite KV in R1. rewrite KA in R2. rewrite KM in R3.
  destruct (add_fin_bound x1 x2 (units W_VIDEO) (units W_AUDIO))
    as (s1 & -> & R4); try lia.
  destruct (add_fin_bound s1 x3
              (round_units (units W_VIDEO + units W_AUDIO) 1) (units W_MERGE))
    as (s2 & -> & R5); try lia.
  rewrite KS in R5.
  destruct (mul_fin_bound s2 (100 * one_units) one_units (100 * one_units))
    as (y & -> & R6); try lia.
  rewrite K100 in R6.
  exists y. split; [reflexivity | lia].
Qed.

Lemma emit_of_scaled (w : worker) (m : float) (x : Z) :
  scaled w m = Return (Fin x) ->
  _emit_unified_progress w m = Return (clamp (Z.quot x one_units)).
Proof.
  unfold scaled, _emit_unified_progress.
  destruct (unified w m) as [u | e]; cbn [bind]; [|discriminate].
  intros H. injection H as ->. reflexivity.
Qed.

Lemma clamp_range (z : Z) : 0 <= clamp z <= 100.
Proof.
  unfold clamp. destruct (Z.ltb_spec z 0).
  - destruct (Z.gtb_spec 0 100); lia.
  - destruct (Z.gtb_spec z 100); lia.
Qed.

Lemma clamp_inert (z : Z) : 0 <= z <= 100 -> clamp z = z.
Proof.
  intros H. unfold clamp. destruct (Z.ltb_spec z 0); [lia|].
  destruct (Z.gtb_spec z 100); lia.
Qed.

Lemma quot_percent (x : Z) :
  0 <= x <= 100 * one_units -> 0 <= Z.quot x one_units <= 100.
Proof.
  intros H. pose proof one_units_pos as H1.
  rewrite Z.quot_div_nonneg by lia. split.
  - apply Z.div_pos; lia.
  - apply Z.div_le_upper_bound; lia.
Qed.

Lemma fraction_no_zero_division (d s : Z) :
  fraction d s <> Raise ZeroDivisionError.
Proof.
  unfold fraction, truediv. destruct (Z.eqb_spec s 0) as [Hs | Hs]; cbn [negb].
  - discriminate.
  - destruct (round _ _); discriminate.
Qed.

Lemma emit_no_zero_division (w : worker) (m : float) :
  _emit_unified_progress w m <> Raise ZeroDivisionError.
Proof.
  unfold _emit_unified_progress, unified.
  pose proof (fraction_no_zero_division (video_done w) (video_size w)) as Hv.
  pose proof (fraction_no_zero_division (audio_done w) (audio_size w)) as Ha.
  destruct (fraction (video_done w) (video_size w)) as [v | e]; cbn [bind];
    [|congruence].
  destruct (fraction (audio_done w) (audio_size w)) as [a | e]; cbn [bind];
    [|congruence].
  destruct (to_int _) as [z | e] eqn:E; cbn [bind]; [discriminate|].
  unfold to_int in E. destruct (mul _ _); [discriminate | |];
    injection E as <-; discriminate.
Qed.

Lemma emit_in_range (w : worker) (m : float) (p : Z) :
  _emit_unified_progress w m = Return p -> 0 <= p <= 100.
Proof.
  unfold _emit_unified_progress.
  destruct (unified w m) as [u | e]; cbn [bind]; [|discriminate].
  destruct (to_int _) as [z | e]; cbn [bind]; [|discriminate].
  intros H. injection H as <-. apply clamp_range.
Qed.

Lemma emit_tracked (w : worker) (m : float) :
  tracked w -> leb (Fin 0) m = true -> leb m (Fin one_units) = true ->
  exists x, scaled w m = Return (Fin x) /\ 0 <= x <= 100 * one_units /\
            _emit_unified_progress w m = Return (Z.quot x one_units) /\
            0 <= Z.quot x one_units <= 100.
Proof.
  intros Hw H0 H1. destruct (unit_interval_leb m H0 H1) as (mu & -> & Hmu).
  destruct (scaled_range w mu Hw Hmu) as (x & Hx & Hr).
  pose proof (quot_percent x Hr) as Hq.
  exists x. repeat split; try lia; try assumption.
  rewrite (emit_of_scaled w (Fin mu) x Hx). now rewrite clamp_inert.
Qed.

(** Counters stay inside their sizes along a job. *)
Lemma job_state_invariant (video audio : stream) (w : worker) :
  itag video <> itag audio -> job_state video audio w ->
  tracked w /\ video_size w <> 0 /\ audio_size w <> 0 /\
  _video_itag w = Some (itag video) /\ _audio_itag w = Some (itag audio) /\
  video_size w = (if _get_stream_size video =? 0 then 1
                  else _get_stream_size video) /\
  audio_size w = (if _get_stream_size audio =? 0 then 1
                  else _get_stream_size audio).
Proof.
  intros Hne H. induction H as [ | w br H IH | w br H IH | w H IH | w H IH].
  - unfold tracked, counted, select; cbn.
    destruct (Z.eqb_spec (_get_stream_size video) 0);
      destruct (Z.eqb_spec (_get_stream_size audio) 0);
      repeat split; try lia; right; lia.
  - destruct IH as ((Hv & Ha) & Sv & Sa & Iv & Ia & Ev & Ea).
    unfold on_progress_callback.
    destruct (_emit_unified_progress _ _); cbn [fst];
      unfold record_progress; rewrite Iv; cbn [itag_is]; rewrite Z.eqb_refl;
      unfold tracked, counted; cbn; rewrite Ev in *;
      (repeat split; try assumption;
       destruct (Z.eqb_spec (_get_stream_size video) 0); right; lia).
  - destruct IH as ((Hv & Ha) & Sv & Sa & Iv & Ia & Ev & Ea).
    unfold on_progress_callback.
    destruct (_emit_unified_progress _ _); cbn [fst];
      unfold record_progress; rewrite Iv, Ia; cbn [itag_is];
      (destruct (Z.eqb_spec (itag audio) (itag video)); [congruence|]);
      rewrite Z.eqb_refl;
      unfold tracked, counted; cbn; rewrite Ea in *;
      (repeat split; try assumption;
       destruct (Z.eqb_spec (_get_stream_size audio) 0); right; lia).
  - destruct IH as ((Hv & Ha) & Sv & Sa & Iv & Ia & Ev & Ea).
    unfold tracked, counted, finish_video; cbn.
    repeat split; try assumption. right. lia.
  - destruct IH as ((Hv & Ha) & Sv & Sa & Iv & Ia & Ev & Ea).
    unfold tracked, counted, finish_audio; cbn.
    repeat split; try assumption. right. lia.
Qed.

Lemma tracked_of_valid (w : worker) :
  0 < video_size w -> 0 < audio_size w ->
  0 <= video_done w <= video_size w -> 0 <= audio_done w <= audio_size w ->
  tracked w.
Proof. intros. split; right; lia. Qed.

(** C1, as the code has it: with declared sizes above 0, done counters
    between 0 and their size and a merge fraction between 0.0 and 1.0, the
    unifier raises nothing and emits the truncation of the binary64 value of
    [(vd/vs * 0.40 + ad/as * 0.40 + m * 0.20) * 100]; that value lies
    between 0.0 and 100.0, the emitted percent between 0 and 100, and the
    clamp leaves it unchanged. *)
Theorem gpt_unified_percent (w : worker) (m : float)
    (Hvs : 0 < video_size w) (Has : 0 < audio_size w)
    (Hvd : 0 <= video_done w <= video_size w)
    (Had : 0 <= audio_done w <= audio_size w)
    (Hm0 : leb (Fin 0) m = true) (Hm1 : leb m (Fin one_units) = true) :
  exists x,
    scaled w m = Return (Fin x) /\ 0 <= x <= 100 * one_units /\
    _emit_unified_progress w m = Return (Z.quot x one_units) /\
    0 <= Z.quot x one_units <= 100.
Proof.
  apply emit_tracked; try assumption. now apply tracked_of_valid.
Qed.

Lemma gpt_unified_percent_witness :
  let w := {| video_size := 50000000; audio_size := 5000000;
              video_done := 50000000; audio_done := 5000000;
              _video_itag := Some 136; _audio_itag := Some 140 |} in
  exists x,
    scaled w (literal 1 1) = Return (Fin x) /\ 0 <= x <= 100 * one_units /\
    _emit_unified_progress w (literal 1 1) = Return (Z.quot x one_units) /\
    0 <= Z.quot x one_units <= 100.
Proof.
  intros w. apply (gpt_unified_percent w (literal 1 1)).
  - reflexivity.
  - reflexivity.
  - vm_compute. split; discriminate.
  - vm_compute. split; discriminate.
  - vm_compute. reflexivity.
  - vm_compute. reflexivity.
Defined.

(** C1 as stated fails: at [video_done / video_size = 7 / 10], nothing of
    the audio and no merge progress, exact arithmetic gives 28 and the code
    emits 27.  The callback of [worker.py] unifies nothing: half of the
    video is reported as 50. *)
Lemma gpt_unified_percent_not_exact :
  let w := {| video_size := 10; audio_size := 1;
              video_done := 7; audio_done := 0;
              _video_itag := Some 136; _audio_itag := Some 140 |} in
  0 < video_size w /\ 0 < audio_size w /\
  0 <= video_done w <= video_size w /\ 0 <= audio_done w <= audio_size w /\
  leb (Fin 0) (Fin 0) = true /\ leb (Fin 0) (Fin one_units) = true /\
  exact_percent w 0 1 = 28 /\
  _emit_unified_progress w (Fin 0) = Return 27 /\
  _emit_unified_progress w (Fin 0) <> Return (exact_percent w 0 1) /\
  Ghost.on_progress_callback Scenario.video720 25000000 = Progress 50.
Proof. vm_compute. repeat split; discriminate. Qed.

(** C4: the unifier never divides by zero and never emits a percent outside
    0..100, whatever the state and the merge fraction (a size of 0 gives the
    fraction 0.0, and [run] records the sentinel 1 for it); along a job, for
    any declared sizes and any [bytes_remaining] the provider reports, every
    progress callback and every emission with a merge fraction between 0.0
    and 1.0 yields a percent, never an exception. *)
Theorem gpt_unifier_total (video audio : stream) (w : worker)
    (Hitag : itag video <> itag audio) (Hw : job_state video audio w) :
  (forall s bytes_remaining, s = video \/ s = audio ->
     exists p, snd (on_progress_callback w s bytes_remaining) = Progress p /\
               0 <= p <= 100) /\
  (forall m, leb (Fin 0) m = true -> leb m (Fin one_units) = true ->
     exists p, _emit_unified_progress w m = Return p /\ 0 <= p <= 100) /\
  (forall w' m, _emit_unified_progress w' m <> Raise ZeroDivisionError /\
     forall p, _emit_unified_progress w' m = Return p -> 0 <= p <= 100) /\
  video_size w <> 0 /\ audio_size w <> 0 /\
  (forall done, fraction done 0 = Return (Fin 0)).
Proof.
  pose proof (job_state_invariant video audio w Hitag Hw)
    as (Ht & Sv & Sa & _).
  split; [|split; [|split; [|split; [assumption|split; [assumption|]]]]].
  - intros s br Hs.
    assert (Hw' : job_state video audio (fst (on_progress_callback w s br))).
    { destruct Hs as [-> | ->]; now constructor. }
    apply (job_state_invariant _ _ _ Hitag) in Hw'. destruct Hw' as (Ht' & _).
    unfold on_progress_callback in *.
    destruct (emit_tracked (record_progress w s br) (Fin 0))
      as (x & _ & _ & Hemit & Hr).
    + destruct (_emit_unified_progress _ _); exact Ht'.
    + reflexivity.
    + reflexivity.
    + rewrite Hemit. cbn [snd]. eexists. split; [reflexivity | exact Hr].
  - intros m H0 H1.
    destruct (emit_tracked w m Ht H0 H1) as (x & _ & _ & Hemit & Hr).
    eexists. split; [exact Hemit | exact Hr].
  - intros w' m. split; [apply emit_no_zero_division|].
    intros p. apply emit_in_range.
  - reflexivity.
Qed.

Lemma gpt_unifier_total_witness :
  let video := {| itag := 136; type := Video; subtype := "mp4";
                  is_progressive := false; resolution := Some 720;
                  abr := None; filesize := 0; filesize_approx := 0 |} in
  let audio := {| itag := 140; type := Audio; subtype := "mp4";
                  is_progressive := false; resolution := None;
                  abr := Some 128; filesize := 5000000;
                  filesize_approx := 0 |} in
  itag video <> itag audio /\
  job_state video audio (select video audio) /\
  (exists p, snd (on_progress_callback (select video audio) audio (-7))
             = Progress p /\ 0 <= p <= 100).
Proof.
  intros video audio.
  split; [discriminate|]. split; [constructor|].
  apply (gpt_unifier_total video audio (select video audio)).
  - discriminate.
  - constructor.
  - right. reflexivity.
Defined.

End GptProgressFacts.

(** ** Sample agreement of [Binary64] with the hardware floats *)

Example binary64_literals :
  Binary64.of_prim 0.4%float = Binary64.literal 2 5 /\
  Binary64.of_prim 0.2%float = Binary64.literal 1 5 /\
  Binary64.of_prim 0.99%float = Binary64.literal 99 100 /\
  Binary64.of_prim 0.005%float = Binary64.literal 5 1000 /\
  Binary64.of_prim 12%float = Binary64.of_Z 12.
Proof. vm_compute. repeat split. Qed.

Example gpt_emit_sample :
  let w := {| GptProgress.video_size := 10; GptProgress.audio_size := 1;
              GptProgress.video_done := 7; GptProgress.audio_done := 0;
              GptProgress._video_itag := Some 1;
              GptProgress._audio_itag := Some 2 |} in
  GptProgress._emit_unified_progress w (Binary64.Fin 0) = Return 27 /\
  GptProgress.exact_percent w 0 1 = 28 /\
  Binary64.of_prim ((0.7 * 0.4 + 0 * 0.4 + 0 * 0.2) * 100)%float
  = Binary64.mul (Binary64.add (Binary64.add
      (Binary64.mul (Binary64.literal 7 10) GptProgress.W_VIDEO)
      (Binary64.mul (Binary64.Fin 0) GptProgress.W_AUDIO))
      (Binary64.mul (Binary64.Fin 0) GptProgress.W_MERGE)) (Binary64.of_Z 100).
Proof. vm_compute. repeat split. Qed.

(** ** Traces of programs *)

Section TraceFacts.
Import Exec.
Context {S : Type}.

Lemma trace_seq {A B : Type} (m : prog S A) (k : A -> prog S B) (s : S) :
  trace (seq m k) s =
  match m s with
  | (Next a, s', t) => (t ++ trace (k a) s')%list
  | (_, _, t) => t
  end.
Proof.
  unfold trace, seq. destruct (m s) as [[[a | | e] s'] t]; try reflexivity.
  destruct (k a s') as [[r s''] t']. reflexivity.
Qed.

Lemma outcome_seq {A B : Type} (m : prog S A) (k : A -> prog S B) (s : S) :
  outcome (seq m k) s =
  match m s with
  | (Next a, s', _) => outcome (k a) s'
  | (Returned, _, _) => Returned
  | (Raised e, _, _) => Raised e
  end.
Proof.
  unfold outcome, seq. destruct (m s) as [[[a | | e] s'] t]; try reflexivity.
  destruct (k a s') as [[r s''] t']. reflexivity.
Qed.

Variable P : event -> bool.

Lemma avoids_seq {A B : Type} (m : prog S A) (k : A -> prog S B) :
  avoids P m -> (forall a, avoids P (k a)) -> avoids P (seq m k).
Proof.
  intros Hm Hk s. rewrite trace_seq. specialize (Hm s). unfold trace in Hm.
  destruct (m s) as [[[a | | e] s'] t]; cbn [snd] in Hm; try exact Hm.
  rewrite existsb_app, Hm. apply Hk.
Qed.

Lemma avoids_ret {A : Type} (a : A) : avoids P (@ret S A a).
Proof. intros s. reflexivity. Qed.

Lemma avoids_return {A : Type} : avoids P (@return_ S A).
Proof. intros s. reflexivity. Qed.

Lemma avoids_raise {A : Type} (e : exn) : avoids P (@raise S A e).
Proof. intros s. reflexivity. Qed.

Lemma avoids_lift {A : Type} (r : result A) : avoids P (@lift S A r).
Proof. destruct r; intros s; reflexivity. Qed.

Lemma avoids_put (s0 : S) : avoids P (put s0).
Proof. intros s. reflexivity. Qed.

Lemma avoids_modify (f : S -> S) : avoids P (modify f).
Proof. intros s. reflexivity. Qed.

Lemma avoids_emit (g : signal) : P (Sig g) = false -> avoids P (@emit S g).
Proof. intros H s. cbn. now rewrite H. Qed.

Lemma avoids_perform (e : effect) (o : option exn) :
  P (Eff e) = false -> avoids P (@perform S e o).
Proof. intros H s. destruct o; cbn; now rewrite H. Qed.

Lemma avoids_try_except {A : Type} (m : prog S A) (h : exn -> prog S A) :
  avoids P m -> (forall e, avoids P (h e)) -> avoids P (try_except m h).
Proof.
  intros Hm Hh s. specialize (Hm s). unfold trace, try_except in *.
  destruct (m s) as [[[a | | e] s'] t]; cbn [snd] in *; try exact Hm.
  specialize (Hh e s'). unfold trace in Hh.
  destruct (h e s') as [[r s''] t']. cbn [snd] in *.
  now rewrite existsb_app, Hm, Hh.
Qed.

Lemma avoids_call (m : prog S unit) : avoids P m -> avoids P (call m).
Proof.
  intros Hm s. specialize (Hm s). unfold trace, call in *.
  destruct (m s) as [[[a | | e] s'] t]; exact Hm.
Qed.

Lemma returns_on_error_seq {A B : Type} (m : prog S A) (k : A -> prog S B) :
  returns_on_error m -> (forall a, returns_on_error (k a)) ->
  returns_on_error (seq m k).
Proof.
  intros Hm Hk s. rewrite outcome_seq, trace_seq.
  specialize (Hm s). unfold outcome, trace in Hm.
  destruct (m s) as [[[a | | e] s'] t]; cbn [fst snd] in Hm.
  - intros H. destruct (Hk a s' H) as (t' & msg & ->).
    exists (t ++ t')%list, msg. now rewrite app_assoc.
  - intros _. now apply Hm.
  - discriminate.
Qed.

Lemma never_returns_on_error {A : Type} (m : prog S A) :
  proceeds m -> returns_on_error m.
Proof. intros H s E. now elim (H s). Qed.

Lemma returns_on_error_emit_return {A : Type} (msg : string) :
  returns_on_error (seq (emit (Error msg)) (fun _ => @return_ S A)).
Proof. intros s _. exists [], msg. reflexivity. Qed.

End TraceFacts.

Section Proceeds.
Import Exec.
Context {S : Type}.

Lemma proceeds_seq {A B : Type} (m : prog S A) (k : A -> prog S B) :
  proceeds m -> (forall a, proceeds (k a)) -> proceeds (seq m k).
Proof.
  intros Hm Hk s. rewrite outcome_seq. specialize (Hm s). unfold outcome in Hm.
  destruct (m s) as [[[a | | e] s'] t]; cbn [fst] in Hm.
  - apply Hk.
  - congruence.
  - discriminate.
Qed.

Lemma proceeds_ret {A : Type} (a : A) : proceeds (@ret S A a).
Proof. intros s. discriminate. Qed.

Lemma proceeds_raise {A : Type} (e : exn) : proceeds (@raise S A e).
Proof. intros s. discriminate. Qed.

Lemma proceeds_lift {A : Type} (r : result A) : proceeds (@lift S A r).
Proof. destruct r; intros s; discriminate. Qed.

Lemma proceeds_put (s0 : S) : proceeds (put s0).
Proof. intros s. discriminate. Qed.

Lemma proceeds_modify (f : S -> S) : proceeds (modify f).
Proof. intros s. discriminate. Qed.

Lemma proceeds_emit (g : signal) : proceeds (@emit S g).
Proof. intros s. discriminate. Qed.

Lemma proceeds_perform (e : effect) (o : option exn) :
  proceeds (@perform S e o).
Proof. destruct o; intros s; discriminate. Qed.

Lemma proceeds_try_except {A : Type} (m : prog S A) (h : exn -> prog S A) :
  proceeds m -> (forall e, proceeds (h e)) -> proceeds (try_except m h).
Proof.
  intros Hm Hh s. specialize (Hm s). unfold outcome, try_except in *.
  destruct (m s) as [[[a | | e] s'] t]; cbn [fst] in *; try assumption.
  specialize (Hh e s'). unfold outcome in Hh.
  destruct (h e s') as [[r s''] t']. exact Hh.
Qed.

Lemma returns_on_error_try_except {A : Type} (m : prog S A)
    (h : exn -> prog S A) :
  returns_on_error m -> (forall e, returns_on_error (h e)) ->
  returns_on_error (try_except m h).
Proof.
  intros Hm Hh s. specialize (Hm s). unfold outcome, trace, try_except in *.
  destruct (m s) as [[[a | | e] s'] t]; cbn [fst snd] in *; try assumption.
  specialize (Hh e s'). unfold outcome, trace in Hh.
  destruct (h e s') as [[r s''] t']. cbn [fst snd] in *.
  intros H. destruct (Hh H) as (u & msg & ->).
  exists (t ++ u)%list, msg. now rewrite app_assoc.
Qed.

End Proceeds.

(** Weakening of the events avoided. *)
Lemma avoids_weaken {S A : Type} (P Q : event -> bool) (m : Exec.prog S A) :
  (forall e, Q e = true -> P e = true) -> avoids P m -> avoids Q m.
Proof.
  intros H Hm s. specialize (Hm s). revert Hm.
  induction (Exec.trace m s) as [|e t IH]; [reflexivity|].
  cbn [existsb]. intros Hm. apply orb_false_iff in Hm as [He Ht].
  rewrite (IH Ht), orb_false_r.
  destruct (Q e) eqn:E; [|reflexivity]. apply H in E. congruence.
Qed.

Lemma signals_app (t u : list event) :
  signals (t ++ u) = (signals t ++ signals u)%list.
Proof.
  induction t as [|e t IH]; [reflexivity|].
  destruct e; cbn [signals app]; now rewrite IH.
Qed.


Lemma terminal_finished (t : list event) :
  existsb is_terminal t = false -> existsb is_finished t = false.
Proof.
  induction t as [|e t IH]; [reflexivity|]. cbn [existsb]. unfold is_terminal at 1.
  intros H. apply orb_false_iff in H as [He Ht].
  apply orb_false_iff in He as [-> _]. now apply IH.
Qed.

Lemma terminal_rmtree (t : list event) :
  existsb is_terminal t = false -> existsb is_rmtree t = false.
Proof.
  induction t as [|e t IH]; [reflexivity|]. cbn [existsb]. unfold is_terminal at 1.
  intros H. apply orb_false_iff in H as [He Ht].
  apply orb_false_iff in He as [_ ->]. now apply IH.
Qed.

(** Steps through a program built from the statements of [Exec]. *)
Ltac quiet_step :=
  match goal with
  | |- avoids _ (Exec.seq _ _) => apply avoids_seq; [|intros ?]
  | |- avoids _ (Exec.ret _) => apply avoids_ret
  | |- avoids _ Exec.return_ => apply avoids_return
  | |- avoids _ (Exec.raise _) => apply avoids_raise
  | |- avoids _ (Exec.lift _) => apply avoids_lift
  | |- avoids _ (Exec.put _) => apply avoids_put
  | |- avoids _ (Exec.modify _) => apply avoids_modify
  | |- avoids _ (Exec.emit _) => apply avoids_emit; reflexivity
  | |- avoids _ (Exec.perform _ _) => apply avoids_perform; reflexivity
  | |- avoids _ (Exec.try_except _ _) => apply avoids_try_except; [|intros ?]
  | |- avoids _ (Exec.call _) => apply avoids_call
  | |- avoids _ (if ?b then _ else _) => destruct b
  | |- avoids _ (match ?x with _ => _ end) => destruct x
  | |- proceeds (Exec.seq _ _) => apply proceeds_seq; [|intros ?]
  | |- proceeds (Exec.ret _) => apply proceeds_ret
  | |- proceeds (Exec.raise _) => apply proceeds_raise
  | |- proceeds (Exec.lift _) => apply proceeds_lift
  | |- proceeds (Exec.put _) => apply proceeds_put
  | |- proceeds (Exec.modify _) => apply proceeds_modify
  | |- proceeds (Exec.emit _) => apply proceeds_emit
  | |- proceeds (Exec.perform _ _) => apply proceeds_perform
  | |- proceeds (Exec.try_except _ _) => apply proceeds_try_except; [|intros ?]
  | |- proceeds (if ?b then _ else _) => destruct b
  | |- proceeds (match ?x with _ => _ end) => destruct x
  end.

Section GptTraces.
Import Binary64 PyStr Pytube GptProgress Exec Gpt.

Lemma emit_unified_quiet (m : float) : avoids is_terminal (emit_unified m).
Proof.
  intros s. unfold trace, emit_unified.
  destruct (_emit_unified_progress s m); reflexivity.
Qed.

Lemma emit_unified_proceeds (m : float) : proceeds (emit_unified m).
Proof.
  intros s. unfold outcome, emit_unified.
  destruct (_emit_unified_progress s m); discriminate.
Qed.

Lemma callback_quiet (v : stream) (r : Z) : avoids is_terminal (callback v r).
Proof.
  intros s. unfold trace, callback, on_progress_callback.
  destruct (_emit_unified_progress _ _); reflexivity.
Qed.

Lemma callback_proceeds (v : stream) (r : Z) : proceeds (callback v r).
Proof.
  intros s. unfold outcome, callback.
  destruct (on_progress_callback s v r). discriminate.
Qed.

Lemma callbacks_quiet (v : stream) (l : list Z) :
  avoids is_terminal (callbacks v l).
Proof.
  induction l as [|r l IH]; cbn [callbacks]; [apply avoids_ret|].
  apply avoids_seq; [apply callback_quiet | intros _; exact IH].
Qed.

Lemma callbacks_proceeds (v : stream) (l : list Z) : proceeds (callbacks v l).
Proof.
  induction l as [|r l IH]; cbn [callbacks]; [apply proceeds_ret|].
  apply proceeds_seq; [apply callback_proceeds | intros _; exact IH].
Qed.

Lemma download_stream_quiet (v : stream) (o f : string) (d : download) :
  avoids is_terminal (download_stream v o f d).
Proof.
  unfold download_stream. repeat quiet_step. apply callbacks_quiet.
Qed.

Lemma download_stream_proceeds (v : stream) (o f : string) (d : download) :
  proceeds (download_stream v o f d).
Proof.
  unfold download_stream. repeat quiet_step. apply callbacks_proceeds.
Qed.

Lemma merge_loop_quiet (start : float) (readings : list float) :
  forall last, avoids is_terminal (merge_loop start readings last).
Proof.
  induction readings as [|now rest IH]; intros last; cbn [merge_loop].
  - apply avoids_ret.
  - repeat quiet_step; try apply emit_unified_quiet. apply IH.
Qed.

Lemma merge_loop_proceeds (start : float) (readings : list float) :
  forall last, proceeds (merge_loop start readings last).
Proof.
  induction readings as [|now rest IH]; intros last; cbn [merge_loop].
  - apply proceeds_ret.
  - repeat quiet_step; try apply emit_unified_proceeds. apply IH.
Qed.

Lemma merge_quiet (w : world) (v a o : string) :
  avoids is_terminal (merge w v a o).
Proof.
  unfold merge. repeat quiet_step;
    first [apply merge_loop_quiet | apply emit_unified_quiet].
Qed.

Lemma merge_returns_on_error (w : world) (v a o : string) :
  returns_on_error (merge w v a o).
Proof.
  unfold merge.
  apply returns_on_error_seq;
    [apply never_returns_on_error, proceeds_perform | intros _].
  apply returns_on_error_seq;
    [apply never_returns_on_error, merge_loop_proceeds | intros _].
  apply returns_on_error_seq;
    [apply never_returns_on_error, proceeds_lift | intros _].
  destruct (negb _).
  - apply returns_on_error_emit_return.
  - apply never_returns_on_error, emit_unified_proceeds.
Qed.

Lemma main_quiet (j : job) (w : world) : avoids is_terminal (main j w).
Proof.
  unfold main. repeat quiet_step;
    first [apply download_stream_quiet | apply emit_unified_quiet
          | apply merge_quiet].
Qed.

Ltac skip_statement :=
  apply returns_on_error_seq;
  [apply never_returns_on_error;
   first [apply download_stream_proceeds | apply emit_unified_proceeds
         | solve [repeat quiet_step]]
  | intros ?].

Lemma main_returns_on_error (j : job) (w : world) :
  returns_on_error (main j w).
Proof.
  unfold main. destruct (is_empty (url j)).
  - apply returns_on_error_emit_return.
  - do 3 skip_statement.
    destruct (select_video _) as [video_stream|];
      [destruct (select_audio _) as [audio_stream|]|];
      try apply returns_on_error_emit_return.
    do 12 skip_statement. apply merge_returns_on_error.
Qed.

(** The three ways [run] ends. *)
Lemma program_cases (j : job) (w : world) :
  exists t, existsb is_terminal t = false /\
    (run j w = (t ++ [Sig (Message complete_message); Sig Finished])%list \/
     exists msg, run j w = (t ++ [Sig (Error msg)])%list).
Proof.
  pose proof (main_quiet j w initial) as Hq.
  pose proof (main_returns_on_error j w initial) as Hr.
  unfold run, program, trace, outcome, try_except, seq, emit in *.
  destruct (main j w initial) as [[[[] | | e] s'] t]; cbn [fst snd] in *.
  - exists t. split; [exact Hq|]. now left.
  - destruct (Hr eq_refl) as (t' & msg & ->). exists t'. split.
    + rewrite existsb_app in Hq. now apply orb_false_iff in Hq.
    + right. now exists msg.
  - exists t. split; [exact Hq|]. right. now exists (str_exn e).
Qed.

End GptTraces.

Section GhostTraces.
Import Binary64 PyStr Pytube Exec Ghost.

Lemma ghost_callbacks_quiet (v : stream) (l : list Z) :
  avoids is_terminal (callbacks v l).
Proof.
  induction l as [|r l IH]; cbn [callbacks]; [apply avoids_ret|].
  apply avoids_seq; [|intros _; exact IH].
  apply avoids_emit. unfold on_progress_callback.
  destruct (bind _ _); reflexivity.
Qed.

Lemma ghost_download_stream_quiet (v : stream) (o f : string) (d : download) :
  avoids is_terminal (download_stream v o f d).
Proof.
  unfold download_stream. repeat quiet_step. apply ghost_callbacks_quiet.
Qed.

Lemma ffmpeg_merge_quiet (w : world) (v a o : string) :
  avoids is_terminal (ffmpeg_merge w v a o).
Proof. unfold ffmpeg_merge. repeat quiet_step. Qed.

Lemma query_quiet (w : world) : avoids is_terminal (query w).
Proof. unfold query. repeat quiet_step. Qed.

Lemma download_video_quiet (j : job) (w : world) :
  avoids is_terminal (download_video j w).
Proof.
  unfold download_video. repeat quiet_step;
    first [apply query_quiet | apply ghost_download_stream_quiet
          | apply ffmpeg_merge_quiet].
Qed.

(** [run] always reaches its [finally] block, whatever [download_video]
    did. *)
Lemma guarded_download (j : job) (w : world) :
  exists t,
    try_except (call (download_video j w))
               (fun e => emit (Error (str_exn e))) tt = (Next tt, tt, t) /\
    existsb is_terminal t = false.
Proof.
  pose proof (download_video_quiet j w tt) as Hq.
  unfold trace, try_except, call, emit in *.
  destruct (download_video j w tt) as [[[[] | | e] []] t]; cbn [fst snd] in *.
  - now exists t.
  - now exists t.
  - exists (t ++ [Sig (Error (str_exn e))])%list. split; [reflexivity|].
    now rewrite existsb_app, Hq.
Qed.

Lemma cleanup_trace (j : job) (w : world) :
  trace (cleanup j w) tt = Sig Finished :: removal j w.
Proof.
  unfold cleanup, removal, trace, seq, emit, try_except, perform, ret.
  destruct (temp_exists w); [|reflexivity].
  destruct (rmtree w); reflexivity.
Qed.

Lemma ghost_run_cases (j : job) (w : world) :
  exists t, existsb is_terminal t = false /\
            run j w = (t ++ Sig Finished :: removal j w)%list.
Proof.
  destruct (guarded_download j w) as (t & Ht & Hq).
  exists t. split; [exact Hq|].
  unfold run, program. rewrite trace_seq, Ht. now rewrite cleanup_trace.
Qed.

(** The events before [finished] do not depend on how the removal ends. *)
Lemma ghost_run_removal (j : job) (w : world) :
  exists t, existsb is_terminal t = false /\
    forall o, run j (with_rmtree w o)
              = (t ++ Sig Finished :: removal j (with_rmtree w o))%list.
Proof.
  destruct (guarded_download j w) as (t & Ht & Hq).
  exists t. split; [exact Hq|]. intros o.
  unfold run, program. rewrite trace_seq.
  change (download_video j (with_rmtree w o)) with (download_video j w).
  rewrite Ht. now rewrite cleanup_trace.
Qed.

End GhostTraces.

(** ** The terminal signal *)



(** ** The scratch folder *)

(** C3 on the two workers.  [gpt.py] creates its folder and never removes
    it, on any path: the run of Scenario A creates [/tmp/ytbr_<hex>],
    completes, and contains no removal.  [worker.py] removes its folder once,
    right after [finished], on every path on which the folder exists; a
    removal that fails adds one [error] signal and changes no other event. *)
Theorem scratch_folder_removal :
  (forall j w, existsb is_rmtree (Gpt.run j w) = false) /\
  (In (Eff (Makedirs "/tmp/ytbr_0123456789abcdef0123456789abcdef"))
      (Gpt.run Scenario.gpt_job Scenario.gpt_success) /\
   last (Gpt.run Scenario.gpt_job Scenario.gpt_success) (Sig (Error ""))
     = Sig Finished) /\
  (forall j w, exists t, existsb is_terminal t = false /\
     forall o, Ghost.run j (Ghost.with_rmtree w o)
       = (t ++ Sig Finished ::
            if Ghost.temp_exists w
            then Eff (Rmtree (Ghost.temp_yt_folder j)) ::
                 match o with
                 | Some _ => [Sig (Error "Failed to clean up tempFiles:")]
                 | None => []
                 end
            else [])%list).
Proof.
  split; [|split].
  - intros j w. destruct (program_cases j w) as (t & Ht & [E | [msg E]]);
      rewrite E, existsb_app, (terminal_rmtree t Ht); reflexivity.
  - split.
    + vm_compute. tauto.
    + vm_compute. reflexivity.
  - intros j w. destruct (ghost_run_removal j w) as (t & Ht & E).
    exists t. split; [exact Ht|]. intros o. rewrite E. reflexivity.
Qed.




(** ** The name of the output file *)

Section Titles.
Import PyStr.

Lemma join_if_every (p : ascii -> bool) (s : string) :
  every p (join_if p s) = true.
Proof.
  induction s as [|c s IH]; [reflexivity|]. cbn [join_if].
  destruct (p c) eqn:E; [|exact IH]. cbn [every]. now rewrite E, IH.
Qed.

Lemma rstrip_every (p : ascii -> bool) (s : string) :
  every p s = true -> every p (rstrip s) = true.
Proof.
  induction s as [|c s IH]; [reflexivity|]. cbn [every rstrip].
  intros H. apply andb_true_iff in H as [Hc Hs].
  destruct (is_empty (rstrip s) && isspace c); [reflexivity|].
  cbn [every]. now rewrite Hc, IH.
Qed.

Lemma rstrip_trailing_space (s : string) : trailing_space (rstrip s) = false.
Proof.
  induction s as [|c s IH]; [reflexivity|]. cbn [rstrip].
  destruct (rstrip s) as [|c' r] eqn:E; cbn [is_empty andb].
  - destruct (isspace c) eqn:Ec; [reflexivity|]. cbn. exact Ec.
  - exact IH.
Qed.

Lemma rstrip_idempotent (s : string) : rstrip (rstrip s) = rstrip s.
Proof.
  induction s as [|c s IH]; [reflexivity|]. cbn [rstrip].
  destruct (is_empty (rstrip s) && isspace c) eqn:E; [reflexivity|].
  cbn [rstrip]. now rewrite IH, E.
Qed.

Lemma or_else_nonempty (x : string) : is_empty (or_else x "ytdl") = false.
Proof. unfold or_else. destruct (is_empty x) eqn:E; [reflexivity | exact E]. Qed.

End Titles.

(** C7 on the two workers.  Both keep only the characters for which
    [isalnum] holds, spaces, underscores and hyphens, and strip trailing
    white space.  [gpt.py] then falls back on ["ytdl"], so its name is never
    empty; [worker.py] has no fallback: the title ["???"] gives the empty
    name and the output file [.mp4]. *)
Theorem sanitized_title (title : string) :
  (PyStr.every PyStr.keeps (Gpt.safe_title title) = true /\
   PyStr.trailing_space (Gpt.safe_title title) = false /\
   PyStr.is_empty (Gpt.safe_title title) = false /\
   Gpt.safe_title title
     = if PyStr.is_empty (Ghost.safe_title title) then "ytdl"
       else Ghost.safe_title title) /\
  (PyStr.every PyStr.keeps (Ghost.safe_title title) = true /\
   PyStr.trailing_space (Ghost.safe_title title) = false) /\
  (Gpt.safe_title "My Video: Part #1?" = "My Video Part 1" /\
   Gpt.safe_title "???" = "ytdl") /\
  (Ghost.safe_title "???" = "" /\
   Ghost.output_file Scenario.ghost_job "???" = "/home/user/Videos/ytbr/.mp4").
Proof.
  assert (Hk : PyStr.every PyStr.keeps (Ghost.safe_title title) = true)
    by apply rstrip_every, join_if_every.
  assert (Hs : PyStr.trailing_space (Ghost.safe_title title) = false)
    by apply rstrip_trailing_space.
  split; [|split; [|split]].
  - unfold Gpt.safe_title, PyStr.or_else.
    change (PyStr.rstrip (PyStr.join_if PyStr.keeps title))
      with (Ghost.safe_title title).
    destruct (PyStr.is_empty (Ghost.safe_title title)) eqn:E.
    + repeat split; reflexivity.
    + repeat split; assumption.
  - split; assumption.
  - split; vm_compute; reflexivity.
  - split; vm_compute; reflexivity.
Qed.

(** ** The choice of the streams *)

Section Selection.
Import Pytube.

Variable key : stream -> Z.

Lemma insert_in (x y : stream) (l : list stream) :
  In y (insert key x l) <-> y = x \/ In y l.
Proof.
  induction l as [|z l IH]; cbn [insert].
  - cbn. intuition congruence.
  - destruct (key x <=? key z); cbn [In]; [intuition congruence|].
    rewrite IH. intuition congruence.
Qed.

Lemma sorted_in (y : stream) (l : list stream) :
  In y (sorted key l) <-> In y l.
Proof.
  induction l as [|x l IH]; cbn [sorted]; [reflexivity|].
  rewrite insert_in, IH. cbn [In]. intuition congruence.
Qed.

Lemma insert_sorted (x : stream) (l : list stream) :
  StronglySorted (below key) l -> StronglySorted (below key) (insert key x l).
Proof.
  induction 1 as [|z l Hl IH Hz]; cbn [insert].
  - constructor; constructor.
  - destruct (Z.leb_spec (key x) (key z)) as [Hle | Hlt].
    + constructor; [now constructor|]. constructor; [exact Hle|].
      apply Forall_forall. intros s Hs.
      rewrite Forall_forall in Hz. specialize (Hz s Hs). unfold below in *. lia.
    + constructor; [exact IH|]. apply Forall_forall. intros s Hs.
      apply insert_in in Hs as [-> | Hs].
      * unfold below. lia.
      * rewrite Forall_forall in Hz. now apply Hz.
Qed.

Lemma sorted_sorted (l : list stream) : StronglySorted (below key) (sorted key l).
Proof.
  induction l as [|x l IH]; cbn [sorted]; [constructor|].
  now apply insert_sorted.
Qed.

(** The first of a sorted list taken in descending order is a greatest
    element. *)
Lemma first_desc_greatest (l : list stream) :
  StronglySorted (below key) l ->
  match first (desc l) with
  | Some v => In v l /\ forall s, In s l -> key s <= key v
  | None => l = []
  end.
Proof.
  unfold first, desc.
  induction 1 as [|x l Hl IH Hx]; [reflexivity|]. cbn [rev].
  destruct (rev l) as [|v r] eqn:E; cbn [app hd_error] in *.
  - subst l. split; [now left|]. intros s [<- | []]. lia.
  - destruct IH as [Hv Hmax]. split; [now right|].
    intros s [<- | Hs]; [|now apply Hmax].
    rewrite Forall_forall in Hx. now apply Hx.
Qed.

End Selection.

Section Queries.
Import Pytube.

(** [filter(...).order_by(attribute).desc().first()] *)
Lemma query_greatest (attribute : stream -> option Z)
    (candidate : stream -> bool) (streams : list stream) :
  match first (desc (order_by attribute (filter candidate streams))) with
  | Some v =>
      In v streams /\ candidate v = true /\
      exists n, attribute v = Some n /\
        forall s m, In s streams -> candidate s = true ->
                    attribute s = Some m -> m <= n
  | None =>
      forall s, In s streams -> candidate s = true -> attribute s = None
  end.
Proof.
  unfold order_by.
  pose proof (first_desc_greatest (rank attribute) _
    (sorted_sorted (rank attribute)
       (filter (has attribute) (filter candidate streams)))) as H.
  destruct (first _) as [v|].
  - destruct H as [Hv Hmax].
    apply sorted_in, filter_In in Hv as [Hv Hhas].
    apply filter_In in Hv as [Hv Hc].
    split; [exact Hv|]. split; [exact Hc|].
    unfold has in Hhas. destruct (attribute v) as [n|] eqn:En; [|discriminate].
    exists n. split; [reflexivity|]. intros s m Hs Hsc Hm.
    assert (Hin : In s (sorted (rank attribute)
                    (filter (has attribute) (filter candidate streams)))).
    { apply sorted_in, filter_In. split.
      - apply filter_In. now split.
      - unfold has. now rewrite Hm. }
    specialize (Hmax s Hin). unfold rank in Hmax. now rewrite Hm, En in Hmax.
  - intros s Hs Hc. destruct (attribute s) as [m|] eqn:Em; [|reflexivity].
    assert (Hin : In s (sorted (rank attribute)
                    (filter (has attribute) (filter candidate streams)))).
    { apply sorted_in, filter_In. split.
      - apply filter_In. now split.
      - unfold has. now rewrite Em. }
    apply sorted_in in Hin.
    assert (Hnil : filter (has attribute) (filter candidate streams) = []).
    { destruct (filter (has attribute) (filter candidate streams)) as [|x l] eqn:E;
        [reflexivity|].
      assert (Hx : In x (sorted (rank attribute) (x :: l)))
        by (apply sorted_in; now left).
      rewrite H in Hx. destruct Hx. }
    rewrite Hnil in Hin. destruct Hin.
Qed.

Lemma video_candidate_resolution (s : stream) :
  video_candidate s = true ->
  exists r, resolution s = Some r /\ (r = 1080 \/ r = 720 \/ r = 480).
Proof.
  unfold video_candidate, res. intros H.
  apply andb_true_iff in H as [_ H].
  destruct (resolution s) as [r|]; [|discriminate]. exists r.
  split; [reflexivity|]. cbn [existsb] in H.
  destruct (Z.eqb_spec r 1080); [tauto|].
  destruct (Z.eqb_spec r 720); [tauto|].
  destruct (Z.eqb_spec r 480); [tauto|]. discriminate.
Qed.

End Queries.

Section FailedSelection.
Import PyStr Pytube Exec.

Variable c : catalog.
Hypothesis none :
  select_video (streams c) = None \/ select_audio (streams c) = None.

Lemma gpt_no_suitable_stream (j : Gpt.job) (w : Gpt.world) :
  Gpt.youtube w = Return c ->
  existsb is_download (Gpt.run j w) = false /\
  (is_empty (Gpt.url j) = false ->
   Gpt.makedirs w (Gpt.folder_path j) = None ->
   Gpt.makedirs w (Gpt.temp_yt_folder w) = None ->
   Gpt.run j w
     = [Eff (Makedirs (Gpt.folder_path j));
        Eff (Makedirs (Gpt.temp_yt_folder w));
        Sig (Error "No suitable video or audio streams found")]).
Proof.
  intros Hy.
  unfold Gpt.run, Gpt.program, Gpt.main, trace, try_except, seq, perform,
    lift, emit, return_, ret, raise.
  rewrite Hy.
  assert (E : match select_video (streams c), select_audio (streams c) with
              | Some _, Some _ => false
              | _, _ => true
              end = true).
  { destruct none as [-> | ->]; [reflexivity|].
    destruct (select_video _); reflexivity. }
  destruct (select_video (streams c)) as [v|];
    [destruct (select_audio (streams c)) as [a|]; [discriminate|]|];
    (split;
     [ destruct (is_empty _); [reflexivity|];
       destruct (Gpt.makedirs w (Gpt.folder_path j)); [reflexivity|];
       destruct (Gpt.makedirs w (Gpt.temp_yt_folder w)); reflexivity
     | intros -> -> ->; reflexivity ]).
Qed.

Lemma ghost_no_suitable_stream (j : Ghost.job) (w : Ghost.world) :
  Ghost.youtube w = Return c ->
  existsb is_download (Ghost.run j w) = false /\
  (Ghost.makedirs w = None ->
   Ghost.run j w
     = Eff (Makedirs (Ghost.temp_yt_folder j)) ::
       Sig (Error "No suitable video or audio streams found") ::
       Sig Finished :: Ghost.removal j w).
Proof.
  intros Hy.
  unfold Ghost.run, Ghost.program. rewrite trace_seq.
  pose proof (cleanup_trace j w) as Hc. unfold trace in Hc.
  unfold Ghost.download_video, Ghost.query, trace, try_except, call, seq,
    perform, lift, emit, return_, ret, raise.
  rewrite Hy.
  assert (E : match select_video (streams c), select_audio (streams c) with
              | Some _, Some _ => false
              | _, _ => true
              end = true).
  { destruct none as [-> | ->]; [reflexivity|].
    destruct (select_video _); reflexivity. }
  assert (Hr : existsb is_download (Sig Finished :: Ghost.removal j w) = false).
  { unfold Ghost.removal. destruct (Ghost.temp_exists w); [|reflexivity].
    destruct (Ghost.rmtree w); reflexivity. }
  destruct (select_video (streams c)) as [v|];
    [destruct (select_audio (streams c)) as [a|]; [discriminate|]|];
    (split;
     [ destruct (Ghost.makedirs w); cbn [fst snd];
       rewrite Hc, existsb_app, Hr; reflexivity
     | intros ->; cbn [fst snd]; rewrite Hc; reflexivity ]).
Qed.

End FailedSelection.

(** *** The transfers of the streams that were chosen *)

Section Steps.
Import Binary64 PyStr Pytube Exec.

Lemma seq_step {S A B : Type} (m : prog S A) (k : A -> prog S B)
    (s s' : S) (a : A) (t : list event) :
  m s = (Next a, s', t) ->
  seq m k s = match k a s' with
              | (r, s'', t') => (r, s'', (t ++ t')%list)
              end.
Proof. intros H. unfold seq. now rewrite H. Qed.

Lemma trace_perform_seq {S B : Type} (e : effect) (k : unit -> prog S B)
    (s : S) :
  trace (seq (perform e None) k) s = Eff e :: trace (k tt) s.
Proof. rewrite trace_seq. reflexivity. Qed.

Lemma ghost_callbacks_next (v : stream) (l : list Z) :
  exists t, Ghost.callbacks v l tt = (Next tt, tt, t).
Proof.
  induction l as [|r l [t IH]]; cbn [Ghost.callbacks].
  - now exists [].
  - unfold seq, emit. rewrite IH. eexists. reflexivity.
Qed.

Lemma ghost_query_next (w : Ghost.world) (c : catalog) (video audio : stream) :
  Ghost.youtube w = Return c ->
  select_video (streams c) = Some video ->
  select_audio (streams c) = Some audio ->
  Ghost.query w tt = (Next (Some (c, video, audio)), tt, []).
Proof.
  intros Hy Hv Ha. unfold Ghost.query, try_except, seq, lift. rewrite Hy.
  cbn [ret]. now rewrite Hv, Ha.
Qed.

End Steps.

Lemma filter_none {A : Type} (P : A -> bool) (l : list A) :
  existsb P l = false -> filter P l = [].
Proof.
  induction l as [|x l IH]; [reflexivity|]. cbn [existsb filter].
  intros H. apply orb_false_iff in H as [-> H]. now apply IH.
Qed.

Section Filtered.
Import Exec.
Context {S : Type}.
Variable P : event -> bool.

Lemma filter_seq_head {A B : Type} (m : prog S A) (k : A -> prog S B) (s : S) :
  avoids P m ->
  filter P (trace (seq m k) s)
  = match m s with
    | (Next a, s', _) => filter P (trace (k a) s')
    | _ => []
    end.
Proof.
  intros H. rewrite trace_seq. specialize (H s). unfold trace in H.
  destruct (m s) as [[[a | | e] s'] t]; cbn [snd] in H.
  - now rewrite filter_app, (filter_none _ _ H).
  - now apply filter_none.
  - now apply filter_none.
Qed.

Lemma filter_seq_tail {A B : Type} (m : prog S A) (k : A -> prog S B) (s : S) :
  (forall a, avoids P (k a)) ->
  filter P (trace (seq m k) s) = filter P (trace m s).
Proof.
  intros H. rewrite trace_seq. unfold trace at 2.
  destruct (m s) as [[[a | | e] s'] t]; cbn [snd]; try reflexivity.
  now rewrite filter_app, (filter_none _ _ (H a s')), app_nil_r.
Qed.

Lemma filter_try_except {A : Type} (m : prog S A) (h : exn -> prog S A)
    (s : S) :
  (forall e, avoids P (h e)) ->
  filter P (trace (try_except m h) s) = filter P (trace m s).
Proof.
  intros H. unfold trace, try_except.
  destruct (m s) as [[[a | | e] s'] t]; cbn [snd]; try reflexivity.
  specialize (H e s'). unfold trace in H.
  destruct (h e s') as [[r s''] t']. cbn [snd] in *.
  now rewrite filter_app, (filter_none _ _ H), app_nil_r.
Qed.

Lemma trace_call (m : prog S unit) (s : S) : trace (call m) s = trace m s.
Proof.
  unfold trace, call. now destruct (m s) as [[[a | | e] s'] t].
Qed.

End Filtered.

Section Transfers.
Import Binary64 PyStr Pytube GptProgress Exec.

Lemma gpt_emit_unified_no_download (m : float) :
  avoids is_download (Gpt.emit_unified m).
Proof.
  intros s. unfold trace, Gpt.emit_unified.
  now destruct (_emit_unified_progress s m).
Qed.

Lemma gpt_merge_loop_no_download (start : float) (readings : list float) :
  forall last, avoids is_download (Gpt.merge_loop start readings last).
Proof.
  induction readings as [|now rest IH]; intros last; cbn [Gpt.merge_loop].
  - apply avoids_ret.
  - repeat quiet_step; try apply gpt_emit_unified_no_download. apply IH.
Qed.

Lemma gpt_merge_no_download (w : Gpt.world) (v a o : string) :
  avoids is_download (Gpt.merge w v a o).
Proof.
  unfold Gpt.merge. repeat quiet_step;
    first [apply gpt_merge_loop_no_download
          | apply gpt_emit_unified_no_download].
Qed.

(** The progress calls of the video transfer leave the audio counter and
    the sizes as they are. *)
Lemma video_callbacks_run (video : stream) (l : list Z) :
  forall st, _video_itag st = Some (itag video) ->
    exists st' t,
      Gpt.callbacks video l st = (Next tt, st', t) /\
      existsb is_download t = false /\
      video_size st' = video_size st /\ audio_size st' = audio_size st /\
      audio_done st' = audio_done st.
Proof.
  induction l as [|r l IH]; intros st Hst; cbn [Gpt.callbacks].
  - exists st, []. now repeat split.
  - assert (E : exists g, Gpt.callback video r st
                 = (Next tt, record_progress st video r,
                    [Unify (Fin 0); Sig g])).
    { unfold Gpt.callback, on_progress_callback.
      destruct (_emit_unified_progress _ _); eexists; reflexivity. }
    destruct E as (g & E).
    assert (Hr : _video_itag (record_progress st video r) = Some (itag video)
                 /\ video_size (record_progress st video r) = video_size st
                 /\ audio_size (record_progress st video r) = audio_size st
                 /\ audio_done (record_progress st video r) = audio_done st).
    { unfold record_progress. rewrite Hst. cbn [itag_is].
      rewrite Z.eqb_refl. now repeat split. }
    destruct Hr as (Hi & Hv & Ha & Hd).
    destruct (IH _ Hi) as (st' & t & Ht & Hq & Hv' & Ha' & Hd').
    exists st'. eexists. rewrite (seq_step _ _ _ _ _ _ E), Ht.
    split; [reflexivity|]. cbn [app existsb is_download orb].
    split; [exact Hq|]. repeat split; congruence.
Qed.

Lemma gpt_callbacks_no_download (s : stream) (l : list Z) :
  avoids is_download (Gpt.callbacks s l).
Proof.
  induction l as [|r l IH]; cbn [Gpt.callbacks]; [apply avoids_ret|].
  apply avoids_seq; [|intros _; exact IH].
  intros st. unfold trace, Gpt.callback, on_progress_callback.
  now destruct (_emit_unified_progress _ _).
Qed.

Lemma tracked_after_video (st : worker) :
  audio_done st = 0 -> tracked (finish_video st).
Proof.
  intros H. split; right; cbn [finish_video video_done video_size audio_done
                               audio_size].
  - rewrite Z.sgn_abs. pose proof (Z.abs_nonneg (video_size st)). lia.
  - rewrite H. pose proof (Z.abs_nonneg (audio_size st)). lia.
Qed.

Lemma gpt_download_run (video : stream) (o f : string) (d : download)
    (st : worker) :
  _video_itag st = Some (itag video) ->
  exists st' t,
    Gpt.download_stream video o f d st
    = (match failure d with Some e => Raised e | None => Next tt end, st',
       Eff (Download video o f false) :: t) /\
    existsb is_download t = false /\ audio_done st' = audio_done st.
Proof.
  intros H. destruct (video_callbacks_run video (chunks d) st H)
    as (st' & t & E & Hq & _ & _ & Hd).
  exists st', t. unfold Gpt.download_stream, seq, perform. rewrite E.
  destruct (failure d); cbn [raise ret app]; rewrite ?app_nil_r; now repeat split.
Qed.

Lemma gpt_download_trace (s : stream) (o f : string) (d : download)
    (st : worker) :
  filter is_download (trace (Gpt.download_stream s o f d) st)
  = [Eff (Download s o f false)].
Proof.
  unfold Gpt.download_stream. rewrite trace_perform_seq.
  cbn [filter is_download]. f_equal. apply filter_none.
  apply avoids_seq; [apply gpt_callbacks_no_download | intros _].
  destruct (failure d); [apply avoids_raise | apply avoids_ret].
Qed.

Lemma gpt_transfers (j : Gpt.job) (w : Gpt.world) (c : catalog)
    (v a : stream) :
  Gpt.youtube w = Return c ->
  select_video (streams c) = Some v ->
  select_audio (streams c) = Some a ->
  is_empty (Gpt.url j) = false ->
  Gpt.makedirs w (Gpt.folder_path j) = None ->
  Gpt.makedirs w (Gpt.temp_yt_folder w) = None ->
  filter is_download (Gpt.run j w)
  = Eff (Download v (Gpt.temp_yt_folder w) "video.mp4" false) ::
    match failure (Gpt.video_download w) with
    | Some _ => []
    | None => [Eff (Download a (Gpt.temp_yt_folder w) "audio.mp4" false)]
    end.
Proof.
  intros Hy Hv Ha Hu H1 H2. unfold Gpt.run, Gpt.program.
  rewrite filter_try_except by (intros e; apply avoids_emit; reflexivity).
  rewrite filter_seq_tail by (intros ?; repeat quiet_step).
  unfold Gpt.main. rewrite Hu, H1, H2, Hy. cbn [lift].
  rewrite !trace_perform_seq. cbn [filter is_download].
  rewrite trace_seq. cbn [ret app]. rewrite Hv, Ha.
  rewrite trace_seq. cbn [put app]. rewrite trace_seq.
  cbn [emit app filter is_download].
  destruct (gpt_download_run v (Gpt.temp_yt_folder w) "video.mp4"
              (Gpt.video_download w) (select v a) eq_refl)
    as (st & t & E & Hq & Hd).
  rewrite trace_seq, E.
  destruct (failure (Gpt.video_download w)) as [e|].
  - cbn [filter is_download]. now rewrite (filter_none _ _ Hq).
  - cbn [app filter is_download]. rewrite filter_app, (filter_none _ _ Hq).
    cbn [app]. f_equal.
    rewrite trace_seq. cbn [modify app].
    destruct (emit_tracked (finish_video st) (Fin 0)
                (tracked_after_video st Hd) eq_refl)
      as (x & _ & _ & Ep & _).
    { apply Z.leb_le. pose proof one_units_pos. lia. }
    rewrite trace_seq. unfold Gpt.emit_unified at 1. rewrite Ep.
    cbn [app filter is_download].
    rewrite trace_seq. cbn [emit app filter is_download].
    rewrite filter_seq_tail.
    + apply gpt_download_trace.
    + intros _. repeat quiet_step;
        first [apply gpt_emit_unified_no_download | apply gpt_merge_no_download].
Qed.

(** Before the transfers, and on every path without them, nothing is
    downloaded. *)
Lemma gpt_transfers_among (j : Gpt.job) (w : Gpt.world) (c : catalog)
    (v a : stream) :
  Gpt.youtube w = Return c ->
  select_video (streams c) = Some v ->
  select_audio (streams c) = Some a ->
  incl (filter is_download (Gpt.run j w))
       [Eff (Download v (Gpt.temp_yt_folder w) "video.mp4" false);
        Eff (Download a (Gpt.temp_yt_folder w) "audio.mp4" false)].
Proof.
  intros Hy Hv Ha.
  destruct (is_empty (Gpt.url j)) eqn:Hu;
    [|destruct (Gpt.makedirs w (Gpt.folder_path j)) as [e1|] eqn:H1;
      [|destruct (Gpt.makedirs w (Gpt.temp_yt_folder w)) as [e2|] eqn:H2]].
  - unfold Gpt.run, Gpt.program, Gpt.main. rewrite Hu. intros x [].
  - unfold Gpt.run, Gpt.program, Gpt.main. rewrite Hu, H1. intros x [].
  - unfold Gpt.run, Gpt.program, Gpt.main. rewrite Hu, H1, H2. intros x [].
  - rewrite (gpt_transfers j w c v a Hy Hv Ha Hu H1 H2).
    destruct (failure _); intros x Hx; cbn [In] in *; tauto.
Qed.

Lemma ghost_download_trace (s : stream) (o f : string) (d : download) :
  Ghost.download_stream s o f d tt
  = (match failure d with Some e => Raised e | None => Next tt end, tt,
     Eff (Download s o f true) :: snd (Ghost.callbacks s (chunks d) tt)).
Proof.
  unfold Ghost.download_stream.
  destruct (ghost_callbacks_next s (chunks d)) as (t & E).
  unfold seq, perform. rewrite E. cbn [snd].
  destruct (failure d); cbn [raise ret app]; now rewrite ?app_nil_r.
Qed.

Lemma ghost_callbacks_no_download (s : stream) (l : list Z) :
  avoids is_download (Ghost.callbacks s l).
Proof.
  induction l as [|r l IH]; cbn [Ghost.callbacks]; [apply avoids_ret|].
  apply avoids_seq; [|intros _; exact IH].
  intros []. unfold trace, emit, Ghost.on_progress_callback. cbn [snd existsb].
  now destruct (bind _ _).
Qed.

Lemma ghost_ffmpeg_merge_no_download (w : Ghost.world) (v a o : string) :
  avoids is_download (Ghost.ffmpeg_merge w v a o).
Proof. unfold Ghost.ffmpeg_merge. repeat quiet_step. Qed.

Lemma ghost_transfers (j : Ghost.job) (w : Ghost.world) (c : catalog)
    (v a : stream) :
  Ghost.youtube w = Return c ->
  select_video (streams c) = Some v ->
  select_audio (streams c) = Some a ->
  Ghost.makedirs w = None ->
  filter is_download (Ghost.run j w)
  = Eff (Download v (Ghost.temp_yt_folder j) "video.mp4" true) ::
    match failure (Ghost.video_download w) with
    | Some _ => []
    | None => [Eff (Download a (Ghost.temp_yt_folder j) "audio.mp4" true)]
    end.
Proof.
  intros Hy Hv Ha Hm. unfold Ghost.run, Ghost.program.
  rewrite filter_seq_tail.
  2:{ intros _ []. rewrite cleanup_trace. unfold Ghost.removal.
      destruct (Ghost.temp_exists w); [|reflexivity].
      destruct (Ghost.rmtree w); reflexivity. }
  rewrite filter_try_except by (intros e; apply avoids_emit; reflexivity).
  rewrite trace_call. unfold Ghost.download_video. rewrite Hm.
  rewrite trace_perform_seq. cbn [filter is_download].
  rewrite trace_seq, (ghost_query_next w c v a Hy Hv Ha). cbn [app].
  rewrite trace_seq. cbn [emit app filter is_download].
  rewrite trace_seq, ghost_download_trace.
  pose proof (ghost_callbacks_no_download v
                (chunks (Ghost.video_download w)) tt) as Hq.
  unfold trace in Hq.
  destruct (failure (Ghost.video_download w)) as [e|].
  - cbn [filter is_download]. now rewrite (filter_none _ _ Hq).
  - cbn [app filter is_download]. rewrite filter_app, (filter_none _ _ Hq).
    cbn [app]. f_equal.
    rewrite trace_seq. cbn [emit app filter is_download].
    rewrite trace_seq. cbn [emit app filter is_download].
    rewrite filter_seq_tail.
    + unfold trace. rewrite ghost_download_trace. cbn [snd filter is_download].
      f_equal. apply filter_none.
      apply (ghost_callbacks_no_download a _ tt).
    + intros _. repeat quiet_step. apply ghost_ffmpeg_merge_no_download.
Qed.

Lemma ghost_transfers_among (j : Ghost.job) (w : Ghost.world) (c : catalog)
    (v a : stream) :
  Ghost.youtube w = Return c ->
  select_video (streams c) = Some v ->
  select_audio (streams c) = Some a ->
  incl (filter is_download (Ghost.run j w))
       [Eff (Download v (Ghost.temp_yt_folder j) "video.mp4" true);
        Eff (Download a (Ghost.temp_yt_folder j) "audio.mp4" true)].
Proof.
  intros Hy Hv Ha. destruct (Ghost.makedirs w) as [e|] eqn:Hm.
  - unfold Ghost.run, Ghost.program. rewrite filter_seq_tail.
    2:{ intros _ []. rewrite cleanup_trace. unfold Ghost.removal.
        destruct (Ghost.temp_exists w); [|reflexivity].
        destruct (Ghost.rmtree w); reflexivity. }
    unfold Ghost.download_video. rewrite Hm. intros x [].
  - rewrite (ghost_transfers j w c v a Hy Hv Ha Hm).
    destruct (failure _); intros x Hx; cbn [In] in *; tauto.
Qed.

End Transfers.

(** C6.  Of a catalog, both workers take the video-only mp4 stream of the
    highest resolution among 1080p, 720p and 480p, and the adaptive
    audio-only mp4 stream of the highest bitrate.  When either is missing,
    the job reports "No suitable video or audio streams found" and starts no
    download.  When both are found, they are what the job transfers and all
    it transfers: the video stream into [video.mp4] of the scratch folder
    and, unless that transfer raises, the audio stream into [audio.mp4]. *)
Theorem stream_selection (c : catalog)
    (gj : Gpt.job) (gw : Gpt.world) (hj : Ghost.job) (hw : Ghost.world)
    (Hg : Gpt.youtube gw = Return c) (Hh : Ghost.youtube hw = Return c) :
  match Pytube.select_video (streams c) with
  | Some v =>
      In v (streams c) /\ Pytube.video_candidate v = true /\
      exists r, Pytube.resolution v = Some r /\
        (r = 1080 \/ r = 720 \/ r = 480) /\
        forall s r', In s (streams c) -> Pytube.video_candidate s = true ->
                     Pytube.resolution s = Some r' -> r' <= r
  | None =>
      forall s, In s (streams c) -> Pytube.video_candidate s = false
  end /\
  match Pytube.select_audio (streams c) with
  | Some a =>
      In a (streams c) /\ Pytube.audio_candidate a = true /\
      exists b, Pytube.abr a = Some b /\
        forall s b', In s (streams c) -> Pytube.audio_candidate s = true ->
                     Pytube.abr s = Some b' -> b' <= b
  | None =>
      forall s, In s (streams c) -> Pytube.audio_candidate s = true ->
                Pytube.abr s = None
  end /\
  (Pytube.select_video (streams c) = None \/
   Pytube.select_audio (streams c) = None ->
   (existsb is_download (Gpt.run gj gw) = false /\
    (PyStr.is_empty (Gpt.url gj) = false ->
     Gpt.makedirs gw (Gpt.folder_path gj) = None ->
     Gpt.makedirs gw (Gpt.temp_yt_folder gw) = None ->
     Gpt.run gj gw
       = [Eff (Makedirs (Gpt.folder_path gj));
          Eff (Makedirs (Gpt.temp_yt_folder gw));
          Sig (Error "No suitable video or audio streams found")])) /\
   (existsb is_download (Ghost.run hj hw) = false /\
    (Ghost.makedirs hw = None ->
     Ghost.run hj hw
       = Eff (Makedirs (Ghost.temp_yt_folder hj)) ::
         Sig (Error "No suitable video or audio streams found") ::
         Sig Finished :: Ghost.removal hj hw))) /\
  (forall v a,
     Pytube.select_video (streams c) = Some v ->
     Pytube.select_audio (streams c) = Some a ->
     (incl (filter is_download (Gpt.run gj gw))
           [Eff (Download v (Gpt.temp_yt_folder gw) "video.mp4" false);
            Eff (Download a (Gpt.temp_yt_folder gw) "audio.mp4" false)] /\
      (PyStr.is_empty (Gpt.url gj) = false ->
       Gpt.makedirs gw (Gpt.folder_path gj) = None ->
       Gpt.makedirs gw (Gpt.temp_yt_folder gw) = None ->
       filter is_download (Gpt.run gj gw)
         = Eff (Download v (Gpt.temp_yt_folder gw) "video.mp4" false) ::
           match failure (Gpt.video_download gw) with
           | Some _ => []
           | None =>
               [Eff (Download a (Gpt.temp_yt_folder gw) "audio.mp4" false)]
           end)) /\
     (incl (filter is_download (Ghost.run hj hw))
           [Eff (Download v (Ghost.temp_yt_folder hj) "video.mp4" true);
            Eff (Download a (Ghost.temp_yt_folder hj) "audio.mp4" true)] /\
      (Ghost.makedirs hw = None ->
       filter is_download (Ghost.run hj hw)
         = Eff (Download v (Ghost.temp_yt_folder hj) "video.mp4" true) ::
           match failure (Ghost.video_download hw) with
           | Some _ => []
           | None =>
               [Eff (Download a (Ghost.temp_yt_folder hj) "audio.mp4" true)]
           end))).
Proof.
  split; [|split; [|split]].
  - pose proof (query_greatest Pytube.resolution Pytube.video_candidate
                  (streams c)) as H.
    fold (Pytube.select_video (streams c)) in H.
    destruct (Pytube.select_video (streams c)) as [v|].
    + destruct H as (Hv & Hc & r & Hr & Hmax).
      split; [exact Hv|]. split; [exact Hc|]. exists r.
      split; [exact Hr|]. split.
      * destruct (video_candidate_resolution v Hc) as (r0 & E & H0).
        rewrite Hr in E. injection E as <-. exact H0.
      * intros s r' Hs Hsc Hsr. exact (Hmax s r' Hs Hsc Hsr).
    + intros s Hs. destruct (Pytube.video_candidate s) eqn:E; [|reflexivity].
      destruct (video_candidate_resolution s E) as (r & Hr & _).
      rewrite (H s Hs E) in Hr. discriminate.
  - pose proof (query_greatest Pytube.abr Pytube.audio_candidate
                  (streams c)) as H.
    fold (Pytube.select_audio (streams c)) in H.
    destruct (Pytube.select_audio (streams c)) as [a|].
    + destruct H as (Ha & Hc & b & Hb & Hmax).
      split; [exact Ha|]. split; [exact Hc|]. exists b.
      split; [exact Hb|]. intros s b' Hs Hsc Hsb. exact (Hmax s b' Hs Hsc Hsb).
    + exact H.
  - intros Hnone. split.
    + exact (gpt_no_suitable_stream c Hnone gj gw Hg).
    + exact (ghost_no_suitable_stream c Hnone hj hw Hh).
  - intros v a Hv Ha. split; split.
    + exact (gpt_transfers_among gj gw c v a Hg Hv Ha).
    + exact (gpt_transfers gj gw c v a Hg Hv Ha).
    + exact (ghost_transfers_among hj hw c v a Hh Hv Ha).
    + exact (ghost_transfers hj hw c v a Hh Hv Ha).
Qed.

Lemma stream_selection_witness :
  (filter is_download (Gpt.run Scenario.gpt_job Scenario.gpt_many)
     = [Eff (Download Scenario.video1080
               "/tmp/ytbr_0123456789abcdef0123456789abcdef" "video.mp4"
               false);
        Eff (Download Scenario.audio128
               "/tmp/ytbr_0123456789abcdef0123456789abcdef" "audio.mp4"
               false)] /\
   filter is_download (Ghost.run Scenario.ghost_job Scenario.ghost_many)
     = [Eff (Download Scenario.video1080 "/tmp/ytbr" "video.mp4" true);
        Eff (Download Scenario.audio128 "/tmp/ytbr" "audio.mp4" true)]) /\
  Gpt.run Scenario.gpt_job Scenario.gpt_no_audio
    = [Eff (Makedirs "/home/user/Videos/ytbr");
       Eff (Makedirs "/tmp/ytbr_0123456789abcdef0123456789abcdef");
       Sig (Error "No suitable video or audio streams found")] /\
  Ghost.run Scenario.ghost_job Scenario.ghost_no_audio
    = [Eff (Makedirs "/tmp/ytbr");
       Sig (Error "No suitable video or audio streams found");
       Sig Finished; Eff (Rmtree "/tmp/ytbr")].
Proof.
  split.
  - destruct (stream_selection Scenario.many
                Scenario.gpt_job Scenario.gpt_many
                Scenario.ghost_job Scenario.ghost_many
                eq_refl eq_refl) as (_ & _ & _ & H).
    destruct (H Scenario.video1080 Scenario.audio128 eq_refl eq_refl)
      as ((_ & Hgpt) & (_ & Hghost)).
    split.
    + exact (Hgpt eq_refl eq_refl eq_refl).
    + exact (Hghost eq_refl).
  - destruct (stream_selection Scenario.video_only
                Scenario.gpt_job Scenario.gpt_no_audio
                Scenario.ghost_job Scenario.ghost_no_audio
                eq_refl eq_refl) as (_ & _ & H & _).
    destruct (H (or_intror eq_refl)) as ((_ & Hgpt) & (_ & Hghost)).
    split.
    + exact (Hgpt eq_refl eq_refl eq_refl).
    + exact (Hghost eq_refl).
Defined.

Example selection_sample :
  Pytube.select_video (streams Scenario.many) = Some Scenario.video1080 /\
  Pytube.select_audio (streams Scenario.many) = Some Scenario.audio128.
Proof. split; reflexivity. Qed.

(** ** The merge phase of [gpt.py] *)

Section FloatOrder.
Import Binary64.

Lemma of_units_zero : of_units 0 = Fin 0.
Proof. reflexivity. Qed.

Lemma of_units_mono (n n' : Z) :
  n <= n' -> leb (of_units n) (of_units n') = true.
Proof.
  intros H. unfold of_units.
  destruct (Z.leb_spec overflow_units (Z.abs n)) as [Hn | Hn];
    destruct (Z.leb_spec overflow_units (Z.abs n')) as [Hn' | Hn'];
    cbn [leb].
  - destruct (Z.ltb_spec n 0); [reflexivity|].
    destruct (Z.ltb_spec n' 0); [lia | reflexivity].
  - destruct (Z.ltb_spec n 0); [reflexivity | lia].
  - destruct (Z.ltb_spec n' 0); [lia | reflexivity].
  - apply Z.leb_le. exact H.
Qed.

Lemma round_leb (A1 A2 B : Z) :
  0 < B -> A1 <= A2 -> leb (round A1 B) (round A2 B) = true.
Proof.
  intros HB H. apply of_units_mono, round_units_mono; try assumption.
  now apply Z.mul_le_mono_nonneg_r; [lia|].
Qed.

Lemma round_zero_pos (B : Z) : round 0 B = Fin 0.
Proof. reflexivity. Qed.

Lemma sub_leb (a a' b : Z) :
  a <= a' -> leb (sub (Fin a) (Fin b)) (sub (Fin a') (Fin b)) = true.
Proof. intros H. apply round_leb; lia. Qed.

Lemma sub_diag (b : Z) : sub (Fin b) (Fin b) = Fin 0.
Proof.
  unfold sub, opp, add. replace (b + - b) with 0 by lia. apply round_zero_pos.
Qed.

Lemma div_by_pos (x : float) (k : Z) :
  0 < k ->
  div x (Fin k)
  = Return match x with
           | Fin a => round (a * one_units) k
           | Inf s => Inf s
           | NaN => NaN
           end.
Proof.
  intros Hk. destruct k as [|p|p]; try lia.
  destruct x as [a | s |]; cbn [div]; try reflexivity.
  - cbn [Z.sgn Z.abs]. now rewrite Z.mul_1_r.
  - cbn [Z.ltb Z.compare]. now rewrite xorb_false_r.
Qed.

Lemma leb_round_inf (A B : Z) : leb (round A B) (Inf false) = true.
Proof.
  unfold round, of_units. destruct (_ <=? _); cbn [leb];
    [apply orb_true_r | reflexivity].
Qed.

Lemma leb_inf_round (A B : Z) : leb (Inf true) (round A B) = true.
Proof. unfold round, of_units. destruct (_ <=? _); reflexivity. Qed.

Lemma div_leb (x y : float) (k : Z) :
  0 < k -> leb x y = true ->
  exists q r, div x (Fin k) = Return q /\ div y (Fin k) = Return r /\
              leb q r = true.
Proof.
  intros Hk H. rewrite !div_by_pos by exact Hk.
  eexists. eexists. split; [reflexivity|]. split; [reflexivity|].
  pose proof one_units_pos as H1.
  destruct x as [a | s |], y as [a' | s' |]; cbn [leb] in H; try discriminate.
  - apply round_leb; [exact Hk|]. apply Z.leb_le in H.
    now apply Z.mul_le_mono_nonneg_r; [lia|].
  - destruct s'; [discriminate|]. apply leb_round_inf.
  - subst s. apply leb_inf_round.
  - exact H.
Qed.

Lemma min_leb (c : Z) (x y : float) :
  leb x y = true -> leb (min (Fin c) x) (min (Fin c) y) = true.
Proof.
  unfold min.
  destruct x as [a | [] |], y as [a' | [] |]; cbn [leb ltb]; try discriminate;
    intros H; try apply Z.leb_le in H;
    repeat match goal with
           | |- context [?u <? ?v] => destruct (Z.ltb_spec u v)
           end;
    cbn [leb]; try reflexivity; try (apply Z.leb_le; lia).
Qed.

Lemma min_fin (c : Z) (x : float) :
  0 <= c -> leb (Fin 0) x = true ->
  exists n, min (Fin c) x = Fin n /\ 0 <= n <= c.
Proof.
  intros Hc. unfold min.
  destruct x as [a | [] |]; cbn [leb ltb]; try discriminate; intros H.
  - apply Z.leb_le in H. destruct (Z.ltb_spec a c).
    + exists a. split; [reflexivity | lia].
    + exists c. split; [reflexivity | lia].
  - exists c. split; [reflexivity | lia].
Qed.

End FloatOrder.

Section MergePhase.
Import Binary64 GptProgress Exec Gpt.

Lemma ramp_seconds_units : ramp_seconds = Fin (12 * one_units).
Proof. vm_compute. reflexivity. Qed.

Lemma cap_units : cap = Fin (units cap).
Proof. vm_compute. reflexivity. Qed.

Lemma cap_below_one : 0 < units cap < one_units.
Proof. split; vm_compute; reflexivity. Qed.

Lemma one_literal : literal 1 1 = Fin one_units.
Proof. vm_compute. reflexivity. Qed.

Lemma ramp_seconds_pos : 0 < 12 * one_units.
Proof. pose proof one_units_pos. lia. Qed.

(** The fraction of a reading that is not before the start: a finite float
    between [0.0] and [0.99]. *)
Lemma ramp_spec (b a : Z) :
  b <= a ->
  exists n, ramp (Fin b) (Fin a) = Return (Fin n) /\ 0 <= n <= units cap.
Proof.
  intros H. unfold ramp.
  pose proof (sub_leb b a b H) as Hs. rewrite sub_diag in Hs.
  destruct (div_leb (Fin 0) (sub (Fin a) (Fin b)) (12 * one_units)
              ramp_seconds_pos Hs) as (q0 & q & H0 & Hq & Hle).
  rewrite div_by_pos in H0 by exact ramp_seconds_pos.
  cbn [Z.mul] in H0. rewrite round_zero_pos in H0. injection H0 as <-.
  rewrite ramp_seconds_units, Hq. cbn [bind]. rewrite cap_units.
  destruct (min_fin (units cap) q) as (n & -> & Hn);
    [pose proof cap_below_one; lia | exact Hle |].
  now exists n.
Qed.

(** A later reading gives a fraction that is not smaller. *)
Lemma ramp_mono (b a a' : Z) :
  a <= a' ->
  exists f f', ramp (Fin b) (Fin a) = Return f /\
               ramp (Fin b) (Fin a') = Return f' /\ leb f f' = true.
Proof.
  intros H. unfold ramp.
  destruct (div_leb _ _ (12 * one_units) ramp_seconds_pos (sub_leb a a' b H))
    as (q & q' & Hq & Hq' & Hle).
  rewrite ramp_seconds_units, Hq, Hq'. cbn [bind].
  exists (min cap q), (min cap q'). split; [reflexivity|].
  split; [reflexivity|]. rewrite cap_units. now apply min_leb.
Qed.

Lemma merge_loop_step (start now frac last : float) (rest : list float)
    (st : worker) :
  ramp start now = Return frac ->
  merge_loop start (now :: rest) last st
  = if leb min_delta (abs (sub frac last))
    then match _emit_unified_progress st frac with
         | Return percent =>
             match merge_loop start rest frac st with
             | (r, s, t) =>
                 (r, s, Unify frac :: Sig (Progress percent) ::
                        Eff (Sleep poll_interval) :: t)
             end
         | Raise e => (Raised e, st, [Unify frac])
         end
    else match merge_loop start rest last st with
         | (r, s, t) => (r, s, Eff (Sleep poll_interval) :: t)
         end.
Proof.
  intros H. cbn [merge_loop]. unfold seq at 1. rewrite H. cbn [lift].
  unfold ret at 1. unfold seq at 1.
  destruct (leb min_delta (abs (sub frac last))).
  - unfold seq at 1, emit_unified.
    destruct (_emit_unified_progress st frac) as [percent | e];
      [|reflexivity].
    unfold ret at 1, seq, perform.
    destruct (merge_loop start rest frac st) as [[r s] t]. reflexivity.
  - unfold ret at 1, seq, perform.
    destruct (merge_loop start rest last st) as [[r s] t]. reflexivity.
Qed.

Lemma nondecreasing_cons (f : float) (l : list float) :
  nondecreasing l = true ->
  Forall (fun g => leb f g = true) l ->
  nondecreasing (f :: l) = true.
Proof.
  intros Hl Hf. destruct l as [|g l]; [reflexivity|].
  cbn [nondecreasing] in *. inversion Hf as [|? ? Hg _]; subst.
  now rewrite Hg.
Qed.

Lemma nondecreasing_snoc (l : list float) (f : float) :
  nondecreasing l = true ->
  Forall (fun g => leb g f = true) l ->
  nondecreasing (l ++ [f]) = true.
Proof.
  induction l as [|g l IH]; [reflexivity|]. intros Hl Hf.
  inversion Hf as [|? ? Hg Hf']; subst.
  destruct l as [|h l]; [cbn; now rewrite Hg|].
  cbn [nondecreasing] in Hl. apply andb_true_iff in Hl as [Hgh Hl].
  change (nondecreasing ((g :: h :: l) ++ [f]))
    with (leb g h && nondecreasing ((h :: l) ++ [f])).
  rewrite Hgh. now apply IH.
Qed.

(** What the loop does on a steady clock. *)
Lemma merge_loop_trace (b : Z) (st : worker) (Hst : tracked st) :
  forall zs last,
    StronglySorted Z.le (b :: zs) ->
    exists t,
      merge_loop (Fin b) (map Fin zs) last st = (Next tt, st, t) /\
      nondecreasing (fractions t) = true /\
      Forall (fun f => exists z, In z zs /\ ramp (Fin b) (Fin z) = Return f /\
                                 leb (Fin 0) f = true /\ leb f cap = true)
             (fractions t) /\
      filter is_sleep t = repeat (Eff (Sleep poll_interval)) (List.length zs).
Proof.
  induction zs as [|z zs IH]; intros last Hs.
  - exists []. repeat split. constructor.
  - inversion Hs as [|? ? Hzs Hb]; subst.
    inversion Hb as [|? ? Hbz Hbzs]; subst.
    inversion Hzs as [|? ? Hzs' Hz]; subst.
    assert (Hs' : StronglySorted Z.le (b :: zs)) by now constructor.
    destruct (ramp_spec b z Hbz) as (n & Hn & Hrange).
    assert (Hlater :
      forall t, Forall (fun f => exists z', In z' zs /\
                   ramp (Fin b) (Fin z') = Return f /\
                   leb (Fin 0) f = true /\ leb f cap = true) t ->
                Forall (fun f => exists z', In z' (z :: zs) /\
                   ramp (Fin b) (Fin z') = Return f /\
                   leb (Fin 0) f = true /\ leb f cap = true) t /\
                Forall (fun g => leb (Fin n) g = true) t).
    { intros t Ht. split; apply Forall_forall; intros f Hf;
        rewrite Forall_forall in Ht; destruct (Ht f Hf) as (z' & Hz' & Hr & H01).
      - exists z'. split; [now right|]. now split.
      - rewrite Forall_forall in Hz. specialize (Hz z' Hz').
        destruct (ramp_mono b z z' Hz) as (f1 & f2 & E1 & E2 & Hle).
        rewrite Hn in E1. rewrite Hr in E2.
        injection E1 as <-. injection E2 as <-. exact Hle. }
    cbn [map]. rewrite (merge_loop_step _ _ _ _ _ _ Hn).
    destruct (leb min_delta (abs (sub (Fin n) last))).
    + assert (H1 : leb (Fin n) (Fin one_units) = true)
        by (apply Z.leb_le; pose proof cap_below_one; lia).
      assert (H0 : leb (Fin 0) (Fin n) = true) by (apply Z.leb_le; lia).
      destruct (emit_tracked st (Fin n) Hst H0 H1) as (x & _ & _ & -> & _).
      destruct (IH (Fin n) Hs') as (t & -> & Hnd & Hall & Hsl).
      destruct (Hlater _ Hall) as [Hall' Hlow].
      eexists. split; [reflexivity|]. cbn [fractions filter is_sleep].
      split; [now apply nondecreasing_cons|]. split.
      * constructor; [|exact Hall']. exists z. split; [now left|].
        split; [exact Hn|]. split; [exact H0|].
        rewrite cap_units. apply Z.leb_le. lia.
      * cbn [List.length repeat]. now rewrite Hsl.
    + destruct (IH last Hs') as (t & -> & Hnd & Hall & Hsl).
      destruct (Hlater _ Hall) as [Hall' _].
      eexists. split; [reflexivity|]. cbn [fractions filter is_sleep].
      split; [exact Hnd|]. split; [exact Hall'|].
      cbn [List.length repeat]. now rewrite Hsl.
Qed.

End MergePhase.

Lemma fractions_app (t u : list event) :
  fractions (t ++ u) = (fractions t ++ fractions u)%list.
Proof.
  induction t as [|e t IH]; [reflexivity|].
  destruct e; cbn [fractions app]; now rewrite IH.
Qed.

Lemma at_sleeps_app_quiet (t u : list event) :
  existsb is_sleep u = false ->
  forall last, at_sleeps last (t ++ u) = at_sleeps last t.
Proof.
  intros Hu.
  assert (Hq : forall last, at_sleeps last u = []).
  { induction u as [|e u IH]; intros last; [reflexivity|].
    cbn [existsb] in Hu. apply orb_false_iff in Hu as [He Hu].
    destruct e as [g | [] | f]; cbn [at_sleeps]; try discriminate;
      now apply IH. }
  induction t as [|e t IH]; intros last; cbn [app]; [apply Hq|].
  destruct e as [g | [] | f]; cbn [at_sleeps]; now rewrite ?IH.
Qed.

Section Shown.
Import Binary64 GptProgress Exec Gpt.

Lemma below_delta (d x y : Z) :
  leb (Fin d) (abs (sub (Fin x) (Fin y))) = false ->
  ltb (abs (sub (Fin x) (Fin y))) (Fin d) = true.
Proof.
  unfold sub, opp, add, round, of_units.
  destruct (overflow_units <=? _); cbn [abs leb ltb negb]; [discriminate|].
  intros H. apply Z.leb_gt in H. now apply Z.ltb_lt.
Qed.

Lemma delta_pos : ltb (Fin 0) min_delta = true.
Proof. vm_compute. reflexivity. Qed.

(** After each reading the fraction on display is less than [0.005] away
    from the ramp. *)
Lemma merge_loop_shown (b : Z) (st : worker) (Hst : tracked st) :
  forall zs l,
    StronglySorted Z.le (b :: zs) ->
    Forall2 (fun now shown =>
               exists q, div (sub now (Fin b)) ramp_seconds = Return q /\
                         ltb (abs (sub (min cap q) shown)) min_delta = true)
            (map Fin zs)
            (at_sleeps (Fin l)
               (snd (merge_loop (Fin b) (map Fin zs) (Fin l) st))).
Proof.
  induction zs as [|z zs IH]; intros l Hs; [constructor|].
  inversion Hs as [|? ? Hzs Hb]; subst.
  inversion Hb as [|? ? Hbz Hbzs]; subst.
  inversion Hzs as [|? ? Hzs' Hz]; subst.
  assert (Hs' : StronglySorted Z.le (b :: zs)) by now constructor.
  destruct (ramp_spec b z Hbz) as (n & Hn & Hrange).
  assert (Hq : exists q, div (sub (Fin z) (Fin b)) ramp_seconds = Return q /\
                         min cap q = Fin n).
  { unfold ramp in Hn. destruct (div _ _) as [q|e]; [|discriminate].
    exists q. split; [reflexivity|]. cbn [bind] in Hn. now injection Hn. }
  destruct Hq as (q & Eq & Em).
  cbn [map]. rewrite (merge_loop_step _ _ _ _ _ _ Hn).
  destruct (leb min_delta (abs (sub (Fin n) (Fin l)))) eqn:Hd.
  - assert (H1 : leb (Fin n) (Fin one_units) = true)
      by (apply Z.leb_le; pose proof cap_below_one; lia).
    assert (H0 : leb (Fin 0) (Fin n) = true) by (apply Z.leb_le; lia).
    destruct (emit_tracked st (Fin n) Hst H0 H1) as (x & _ & _ & -> & _).
    specialize (IH n Hs').
    destruct (merge_loop (Fin b) (map Fin zs) (Fin n) st) as [[r s] t].
    cbn [snd at_sleeps] in *. constructor; [|exact IH].
    exists q. split; [exact Eq|]. rewrite Em, sub_diag. exact delta_pos.
  - specialize (IH l Hs').
    destruct (merge_loop (Fin b) (map Fin zs) (Fin l) st) as [[r s] t].
    cbn [snd at_sleeps] in *. constructor; [|exact IH].
    exists q. split; [exact Eq|]. rewrite Em.
    assert (E : min_delta = Fin (units min_delta)) by (vm_compute; reflexivity).
    rewrite E in *. now apply below_delta.
Qed.

End Shown.

Section MergeTheorem.
Import Binary64 GptProgress Exec Gpt.

(** C5.  On a clock that does not run backwards, the merge fractions handed
    to the unifier while ffmpeg runs are values [min(0.99, elapsed / 12.0)]
    of the readings, each between [0.0] and [0.99] and none below the one
    before; the loop sleeps [0.08] seconds after each reading, and each time
    it does the last fraction handed over ([0.0] before the first) is less
    than [0.005] away from the value of the reading just taken; when ffmpeg
    has exited with 0 one more fraction follows, [1.0], the last of the
    phase and its only occurrence. *)
Theorem merge_fractions (w : world) (st : worker) (v a o : string)
    (Hclock : steady (merge_start w) (polls w)) (Hst : tracked st) :
  exists ramped,
    fractions (trace (merge w v a o) st)
      = (ramped ++ if merge_succeeds w then [literal 1 1] else [])%list /\
    nondecreasing (fractions (trace (merge w v a o) st)) = true /\
    Forall (fun f =>
              (exists now q,
                 In now (polls w) /\
                 div (sub now (merge_start w)) (literal 12 1) = Return q /\
                 f = min (literal 99 100) q) /\
              leb (Fin 0) f = true /\ leb f (literal 99 100) = true /\
              ltb f (literal 1 1) = true) ramped /\
    (popen w = None ->
     Forall2 (fun now shown =>
                exists q,
                  div (sub now (merge_start w)) (literal 12 1) = Return q /\
                  ltb (abs (sub (min (literal 99 100) q) shown))
                      (literal 5 1000) = true)
             (polls w) (at_sleeps (Fin 0) (trace (merge w v a o) st)) /\
     filter is_sleep (trace (merge w v a o) st)
       = repeat (Eff (Sleep (literal 8 100))) (List.length (polls w))) /\
    (merge_succeeds w = true ->
     exists t percent,
       trace (merge w v a o) st
         = (t ++ [Unify (literal 1 1); Sig (Progress percent)])%list).
Proof.
  change (literal 12 1) with ramp_seconds.
  change (literal 99 100) with cap.
  change (literal 5 1000) with min_delta.
  change (literal 8 100) with poll_interval.
  destruct Hclock as (b & zs & Hb & Hzs & Hs).
  destruct (merge_loop_trace b st Hst zs (Fin 0) Hs)
    as (t & Ht & Hnd & Hall & Hsl).
  pose proof (merge_loop_shown b st Hst zs 0 Hs) as Hshown.
  rewrite Ht in Hshown. cbn [snd] in Hshown.
  assert (Hramped :
    Forall (fun f =>
              (exists now q,
                 In now (polls w) /\
                 div (sub now (merge_start w)) ramp_seconds = Return q /\
                 f = min cap q) /\
              leb (Fin 0) f = true /\ leb f cap = true /\
              ltb f (literal 1 1) = true) (fractions t)).
  { apply Forall_forall. intros f Hf. rewrite Forall_forall in Hall.
    destruct (Hall f Hf) as (z & Hz & Hr & H0 & H1).
    split; [|split; [exact H0 | split; [exact H1|]]].
    - exists (Fin z). unfold ramp in Hr. rewrite Hb.
      destruct (div (sub (Fin z) (Fin b)) ramp_seconds) as [q|e];
        [|discriminate].
      exists q. split; [rewrite Hzs; now apply in_map|].
      split; [reflexivity|]. cbn [bind] in Hr. now injection Hr.
    - rewrite one_literal. rewrite cap_units in H1.
      destruct f as [n | s |]; cbn [leb ltb] in *; try discriminate.
      + apply Z.leb_le in H1. apply Z.ltb_lt.
        pose proof cap_below_one. lia.
      + destruct s; discriminate. }
  assert (Hbelow : Forall (fun g => leb g (literal 1 1) = true) (fractions t)).
  { apply Forall_forall. intros f Hf. rewrite Forall_forall in Hramped.
    destruct (Hramped f Hf) as (_ & _ & _ & Hlt). rewrite one_literal in *.
    destruct f as [n | s |]; cbn [leb ltb] in *; try discriminate.
    - apply Z.ltb_lt in Hlt. apply Z.leb_le. lia.
    - exact Hlt. }
  assert (Hone : exists percent,
            _emit_unified_progress st (literal 1 1) = Return percent).
  { rewrite one_literal.
    destruct (emit_tracked st (Fin one_units) Hst) as (x & _ & _ & E & _).
    - apply Z.leb_le. pose proof one_units_pos. lia.
    - apply Z.leb_le. lia.
    - now exists (Z.quot x one_units). }
  destruct Hone as (percent & Hone).
  rewrite <- (length_map Fin zs), <- Hzs in Hsl.
  rewrite <- Hb, <- Hzs in Ht. rewrite <- Hb, <- Hzs in Hshown.
  assert (Hquiet : forall u, existsb is_sleep u = false ->
            Forall2 (fun now shown =>
                       exists q,
                         div (sub now (merge_start w)) ramp_seconds
                           = Return q /\
                         ltb (abs (sub (min cap q) shown)) min_delta = true)
                    (polls w)
                    (at_sleeps (Fin 0)
                       (Eff (Popen (ffmpeg_cmd v a o)) :: t ++ u))).
  { intros u Hu. cbn [at_sleeps]. now rewrite (at_sleeps_app_quiet t u Hu). }
  unfold merge, merge_succeeds, trace, seq, perform, lift, emit, return_,
    emit_unified.
  destruct (popen w) as [e|].
  - exists []. cbn [snd fractions app nondecreasing].
    split; [reflexivity|]. split; [reflexivity|]. split; [constructor|].
    split; discriminate.
  - rewrite Ht. exists (fractions t).
    destruct (communicate w) as [e|]; cbn [raise ret snd fst].
    + cbn [fractions filter is_sleep app]. rewrite !app_nil_r.
      split; [reflexivity|]. split; [exact Hnd|]. split; [exact Hramped|].
      split; [|discriminate]. intros _. split; [|exact Hsl].
      specialize (Hquiet [] eq_refl). now rewrite app_nil_r in Hquiet.
    + destruct (returncode w =? 0); cbn [negb].
      * rewrite Hone. cbn [snd fractions filter is_sleep app].
        rewrite fractions_app, filter_app. cbn [fractions filter is_sleep].
        rewrite !app_nil_r.
        split; [reflexivity|].
        split; [now apply nondecreasing_snoc|]. split; [exact Hramped|].
        split.
        -- intros _. split; [|exact Hsl]. now apply Hquiet.
        -- intros _. exists (Eff (Popen (ffmpeg_cmd v a o)) :: t), percent.
           reflexivity.
      * cbn [snd fractions filter is_sleep app].
        rewrite fractions_app, filter_app. cbn [fractions filter is_sleep].
        rewrite !app_nil_r.
        split; [reflexivity|]. split; [exact Hnd|]. split; [exact Hramped|].
        split; [|discriminate]. intros _. split; [|exact Hsl].
        now apply Hquiet.
Qed.

End MergeTheorem.

Lemma merge_fractions_witness :
  exists ramped,
    fractions
      (Exec.trace
         (Gpt.merge Scenario.gpt_success "/tmp/ytbr_x/video.mp4"
            "/tmp/ytbr_x/audio.mp4" "/home/user/Videos/ytbr/out.mp4")
         Scenario.downloaded)
      = (ramped ++ [Binary64.literal 1 1])%list /\
    nondecreasing
      (fractions
         (Exec.trace
            (Gpt.merge Scenario.gpt_success "/tmp/ytbr_x/video.mp4"
               "/tmp/ytbr_x/audio.mp4" "/home/user/Videos/ytbr/out.mp4")
            Scenario.downloaded)) = true.
Proof.
  assert (Hclock : steady (Gpt.merge_start Scenario.gpt_success)
                          (Gpt.polls Scenario.gpt_success)).
  { exists (Binary64.units (Binary64.literal 1000 1)),
      [Binary64.units (Binary64.literal 1000 1);
       Binary64.units (Binary64.literal 10008 10);
       Binary64.units (Binary64.literal 10016 10)].
    split; [vm_compute; reflexivity|]. split; [vm_compute; reflexivity|].
    repeat constructor; vm_compute; discriminate. }
  assert (Hst : GptProgress.tracked Scenario.downloaded).
  { split; right; vm_compute; split; discriminate. }
  destruct (merge_fractions Scenario.gpt_success Scenario.downloaded
              "/tmp/ytbr_x/video.mp4" "/tmp/ytbr_x/audio.mp4"
              "/home/user/Videos/ytbr/out.mp4" Hclock Hst)
    as (ramped & E & Hnd & _).
  exists ramped. split; [exact E | exact Hnd].
Defined.

(** C5 fails when the wall clock is set back while ffmpeg runs.  Readings
    of 1003.0, 1006.0 and 997.0 after a start at 1000.0 give the merge
    fractions 0.25, 0.5 and -0.25: the third is below the one before it and
    below [0.0], and the progress of the job goes from 90 down to 75 before
    it ends at 100. *)
Lemma merge_fractions_clock_set_back :
  fractions
    (Exec.trace
       (Gpt.merge Scenario.gpt_clock_set_back "/tmp/ytbr_x/video.mp4"
          "/tmp/ytbr_x/audio.mp4" "/home/user/Videos/ytbr/out.mp4")
       Scenario.downloaded)
    = [Binary64.literal 1 4; Binary64.literal 1 2; Binary64.literal (-1) 4;
       Binary64.literal 1 1] /\
  nondecreasing
    (fractions
       (Exec.trace
          (Gpt.merge Scenario.gpt_clock_set_back "/tmp/ytbr_x/video.mp4"
             "/tmp/ytbr_x/audio.mp4" "/home/user/Videos/ytbr/out.mp4")
          Scenario.downloaded)) = false /\
  Binary64.ltb (Binary64.literal (-1) 4) (Binary64.Fin 0) = true /\
  signals (Gpt.run Scenario.gpt_job Scenario.gpt_clock_set_back)
    = [Message "Downloading video..."; Progress 20; Progress 40; Progress 40;
       Message "Downloading audio..."; Progress 80; Progress 80;
       Message "Merging streams..."; Progress 85; Progress 90; Progress 75;
       Progress 100; Message Gpt.complete_message; Finished].
Proof.
  split; [|split; [|split]]; vm_compute; reflexivity.
Qed.

(** Scenario A on [gpt.py], as the interface sees it. *)
Example gpt_scenario_a :
  signals (Gpt.run Scenario.gpt_job Scenario.gpt_success)
  = [Message "Downloading video..."; Progress 20; Progress 40; Progress 40;
     Message "Downloading audio..."; Progress 80; Progress 80;
     Message "Merging streams..."; Progress 81; Progress 82; Progress 100;
     Message Gpt.complete_message; Finished].
Proof. vm_compute. reflexivity. Qed.

(** Scenario A on [worker.py]. *)
Example ghost_scenario_a :
  signals (Ghost.run Scenario.ghost_job Scenario.ghost_success)
  = [Message "Downloading video (1/2) .."; Progress 50; Progress 100;
     Progress 80; Message "Downloading audio (2/2)"; Progress 100;
     Progress 90; Message "Merging…😃"; Progress 100;
     Message "Downloaded ↘ My Video Part 1.mp4"; Finished].
Proof. vm_compute. reflexivity. Qed.

(** ** The float model against the processor's arithmetic *)

Example binary64_operations :
  Binary64.of_prim (0.1 + 0.2)%float
    = Binary64.add (Binary64.literal 1 10) (Binary64.literal 2 10) /\
  Binary64.of_prim (0.3 - 0.1)%float
    = Binary64.sub (Binary64.literal 3 10) (Binary64.literal 1 10) /\
  Binary64.of_prim (0.7 * 0.4)%float
    = Binary64.mul (Binary64.literal 7 10) (Binary64.literal 4 10) /\
  Return (Binary64.of_prim (1 / 3)%float)
    = Binary64.div (Binary64.of_Z 1) (Binary64.of_Z 3) /\
  Return (Binary64.of_prim (7 / 10)%float) = Binary64.truediv 7 10 /\
  Return (Binary64.of_prim ((1000.8 - 1000) / 12)%float)
    = Gpt.ramp (Binary64.literal 1000 1) (Binary64.literal 10008 10) /\
  Return (Binary64.of_prim 0.99%float)
    = Gpt.ramp (Binary64.literal 1000 1) (Binary64.literal 1012 1).
Proof. vm_compute. repeat split. Qed.

(** * Further properties of the three sources *)

Lemma distinct_NoDup (l : list Z) : distinct l = true -> NoDup l.
Proof.
  induction l as [|x l IH]; cbn [distinct]; [constructor|].
  intros H. apply andb_true_iff in H as [Hx Hl]. constructor; [|now apply IH].
  intros Hin. apply negb_true_iff in Hx.
  assert (E : existsb (Z.eqb x) l = true)
    by (apply existsb_exists; exists x; split; [assumption | apply Z.eqb_refl]).
  congruence.
Qed.

Lemma NoDup_map_injective {A B : Type} (f : A -> B) (l : list A) :
  NoDup (map f l) -> forall a b, In a l -> In b l -> f a = f b -> a = b.
Proof.
  induction l as [|x l IH]; cbn [map]; [intros _ a b []|].
  intros H a b Ha Hb E. inversion H as [|? ? Hx Hl]; subst.
  destruct Ha as [<- | Ha], Hb as [<- | Hb].
  - reflexivity.
  - elim Hx. rewrite E. now apply in_map.
  - elim Hx. rewrite <- E. now apply in_map.
  - now apply IH.
Qed.

Lemma roman_values_distinct :
  distinct (map roman_value (Regex.words Roman.roman_pattern)) = true.
Proof. vm_compute. reflexivity. Qed.

Lemma roman_values_cover :
  let values := map roman_value (Regex.words Roman.roman_pattern) in
  forallb (fun n => existsb (Z.eqb n) values) (map Z.of_nat (seq 0 4000))
  = true.
Proof. vm_compute. reflexivity. Qed.

Lemma roman_words_shape :
  forallb roman_shape (Regex.words Roman.roman_pattern) = true.
Proof. vm_compute. reflexivity. Qed.

Lemma roman_returned_word (s : string) (n : Z) :
  Roman.roman_to_int_strict s = Return n ->
  In s (Regex.words Roman.roman_pattern).
Proof.
  intros H. destruct (String.eqb_spec s "") as [-> | Hs].
  - apply lang_words, fullmatch_lang. reflexivity.
  - destruct (roman_lang_dec s) as [HL | HL]; [now apply lang_words|].
    rewrite (roman_rejected s Hs HL) in H. discriminate.
Qed.

(** X1: [roman_to_int_strict] numbers the strings it accepts: two strings
    with the same value are the same string, and every integer from 0 to
    3999 is the value of a string. *)
Theorem roman_numbering :
  (forall s1 s2 n,
     Roman.roman_to_int_strict s1 = Return n ->
     Roman.roman_to_int_strict s2 = Return n -> s1 = s2) /\
  (forall n, 0 <= n <= 3999 ->
     exists s, Roman.roman_to_int_strict s = Return n).
Proof.
  split.
  - intros s1 s2 n H1 H2.
    apply (NoDup_map_injective roman_value (Regex.words Roman.roman_pattern)).
    + apply distinct_NoDup, roman_values_distinct.
    + exact (roman_returned_word s1 n H1).
    + exact (roman_returned_word s2 n H2).
    + unfold roman_value. now rewrite H1, H2.
  - intros n Hn. pose proof roman_values_cover as H. cbv zeta in H.
    rewrite forallb_forall in H.
    assert (Hin : In n (map Z.of_nat (seq 0 4000))).
    { rewrite <- (Z2Nat.id n) by lia. apply in_map, in_seq. lia. }
    apply H, existsb_exists in Hin. destruct Hin as (v & Hv & E).
    apply Z.eqb_eq in E. subst v. apply in_map_iff in Hv.
    destruct Hv as (s & Hs & _). exists s. unfold roman_value in Hs.
    destruct (Roman.roman_to_int_strict s) as [m | e]; [now subst | lia].
Qed.

(** X2: a string that [roman_to_int_strict] accepts has at most 15
    characters, all of them among [I V X L C D M]; every other string is
    refused with the [ValueError] that quotes it. *)
Theorem roman_alphabet_and_length (s : string) :
  (forall n, Roman.roman_to_int_strict s = Return n ->
     (String.length s <= 15)%nat /\
     PyStr.every (PyStr.contains "IVXLCDM") s = true) /\
  (roman_shape s = false ->
     Roman.roman_to_int_strict s = Raise (ValueError (Roman.invalid_message s))).
Proof.
  assert (H : forall n, Roman.roman_to_int_strict s = Return n ->
                        roman_shape s = true).
  { intros n Hn. pose proof roman_words_shape as Hall.
    rewrite forallb_forall in Hall. apply Hall.
    exact (roman_returned_word s n Hn). }
  split.
  - intros n Hn. specialize (H n Hn). unfold roman_shape in H.
    apply andb_true_iff in H as [Hl He]. split; [|exact He].
    now apply Nat.leb_le.
  - intros Hshape. destruct (String.eqb_spec s "") as [-> | Hs];
      [discriminate|].
    destruct (roman_lang_dec s) as [HL | HL]; [|now apply roman_rejected].
    destruct (roman_accepted s Hs HL) as (n & Hn & _).
    rewrite (H n Hn) in Hshape. discriminate.
Qed.

Section Names.
Import PyStr PosixPath.

Lemma every_app (p : ascii -> bool) (a b : string) :
  every p (a ++ b) = every p a && every p b.
Proof.
  induction a as [|c a IH]; [reflexivity|]. cbn [append every].
  now rewrite IH, andb_assoc.
Qed.

Lemma every_weaken (p q : ascii -> bool) (s : string) :
  (forall c, p c = true -> q c = true) -> every p s = true -> every q s = true.
Proof.
  intros H. induction s as [|c s IH]; [reflexivity|]. cbn [every].
  intros E. apply andb_true_iff in E as [Hc Hs]. now rewrite (H c Hc), IH.
Qed.

Lemma keeps_no_sep (c : ascii) : keeps c = true -> negb (Ascii.eqb c "/") = true.
Proof.
  destruct (Ascii.eqb_spec c "/") as [-> | _]; [discriminate | reflexivity].
Qed.

Lemma basename_plain (name : string) :
  has_sep name = false -> basename name = name.
Proof.
  induction name as [|c r IH]; [reflexivity|].
  unfold has_sep in *. cbn [every]. intros H. apply negb_false_iff in H.
  apply andb_true_iff in H as [Hc Hr]. cbn [basename]. unfold has_sep.
  rewrite Hr. cbn [negb]. apply negb_true_iff in Hc. now rewrite Hc.
Qed.

Lemma basename_after_sep (x name : string) :
  has_sep name = false -> basename (x ++ "/" ++ name) = name.
Proof.
  intros H.
  assert (Hs : forall y, has_sep (y ++ "/" ++ name) = true).
  { intros y. unfold has_sep. rewrite every_app. cbn [append every].
    rewrite Ascii.eqb_refl. cbn. now rewrite andb_false_r. }
  induction x as [|c x IH].
  - cbn [append basename]. now rewrite H, Ascii.eqb_refl.
  - cbn [append basename]. now rewrite Hs.
Qed.

Lemma ends_with_sep_split (a : string) :
  ends_with_sep a = true -> exists x, a = x ++ "/".
Proof.
  induction a as [|c a IH]; [discriminate|]. cbn [ends_with_sep].
  destruct a as [|c' a'].
  - intros H. apply Ascii.eqb_eq in H. subst c. now exists "".
  - intros H. destruct (IH H) as (x & E). exists (String c x).
    cbn [append]. now rewrite E.
Qed.

Lemma no_sep_relative (name : string) :
  has_sep name = false -> String.prefix "/" name = false.
Proof.
  destruct name as [|c r]; [reflexivity|]. unfold has_sep. cbn [every prefix].
  intros H. apply negb_false_iff, andb_true_iff in H as [Hc _].
  apply negb_true_iff, Ascii.eqb_neq in Hc.
  destruct (ascii_dec "/" c) as [E | _]; [now subst c | reflexivity].
Qed.

(** The three cases of [os.path.join] on a name without separator. *)
Lemma basename_join (a name : string) :
  has_sep name = false -> basename (path_join a name) = name.
Proof.
  intros H. unfold path_join. rewrite (no_sep_relative name H).
  destruct a as [|c a]; [now apply basename_plain|]. cbn [is_empty orb].
  destruct (ends_with_sep (String c a)) eqn:E.
  - destruct (ends_with_sep_split _ E) as (x & ->).
    rewrite append_assoc. now apply basename_after_sep.
  - now apply basename_after_sep.
Qed.

Lemma file_name_no_sep (name : string) :
  every keeps name = true -> has_sep (name ++ ".mp4") = false.
Proof.
  intros H. unfold has_sep. apply negb_false_iff. rewrite every_app.
  rewrite (every_weaken keeps _ name keeps_no_sep H). reflexivity.
Qed.

Lemma rstrip_fixed (s : string) :
  trailing_space s = false -> rstrip s = s.
Proof.
  induction s as [|c s IH]; [reflexivity|]. cbn [trailing_space rstrip].
  destruct s as [|c' s'].
  - intros ->. reflexivity.
  - intros H. rewrite (IH H). reflexivity.
Qed.

Lemma join_if_fixed (p : ascii -> bool) (s : string) :
  every p s = true -> join_if p s = s.
Proof.
  induction s as [|c s IH]; [reflexivity|]. cbn [every join_if].
  intros H. apply andb_true_iff in H as [-> Hs]. now rewrite IH.
Qed.

Lemma lstrip_blank (s : string) : every isspace s = true -> lstrip s = "".
Proof.
  induction s as [|c s IH]; [reflexivity|]. cbn [every lstrip].
  intros H. apply andb_true_iff in H as [-> Hs]. now apply IH.
Qed.

Lemma strip_empty_blank (s : string) :
  is_empty (strip s) = every isspace s.
Proof.
  unfold strip. induction s as [|c s IH]; [reflexivity|].
  cbn [lstrip every]. destruct (isspace c) eqn:E; cbn [andb]; [exact IH|].
  cbn [rstrip]. rewrite E, andb_false_r. reflexivity.
Qed.

End Names.

(** X15: the sanitised title holds no path separator, so that the
    basename of the output file is the sanitised title followed by [.mp4]
    whatever the title: the file is created in the chosen folder itself. *)
Theorem output_file_basename (title : string) (gj : Gpt.job) (hj : Ghost.job) :
  PosixPath.basename
    (PyStr.path_join (Gpt.folder_path gj) (Gpt.safe_title title ++ ".mp4"))
    = Gpt.safe_title title ++ ".mp4" /\
  PosixPath.basename (Ghost.output_file hj title)
    = Ghost.safe_title title ++ ".mp4" /\
  PosixPath.has_sep (Gpt.safe_title title) = false /\
  PosixPath.has_sep (Ghost.safe_title title) = false.
Proof.
  assert (Hh : PyStr.every PyStr.keeps (Ghost.safe_title title) = true)
    by apply rstrip_every, join_if_every.
  assert (Hg : PyStr.every PyStr.keeps (Gpt.safe_title title) = true).
  { unfold Gpt.safe_title, PyStr.or_else.
    destruct (PyStr.is_empty _); [reflexivity | exact Hh]. }
  assert (Hn : forall n, PyStr.every PyStr.keeps n = true ->
                         PosixPath.has_sep n = false).
  { intros n H. unfold PosixPath.has_sep.
    now rewrite (every_weaken PyStr.keeps _ n keeps_no_sep H). }
  split; [|split; [|split]].
  - apply basename_join. now apply file_name_no_sep.
  - apply basename_join. now apply file_name_no_sep.
  - now apply Hn.
  - now apply Hn.
Qed.

(** X16: sanitising a title twice gives what sanitising it once gives, in
    both files; a title of permitted characters without trailing white space
    is kept as it is ([gpt.py] replaces the empty one by [ytdl]). *)
Theorem safe_title_idempotent (title : string) :
  Gpt.safe_title (Gpt.safe_title title) = Gpt.safe_title title /\
  Ghost.safe_title (Ghost.safe_title title) = Ghost.safe_title title /\
  (PyStr.every PyStr.keeps title = true ->
   PyStr.trailing_space title = false ->
   Ghost.safe_title title = title /\
   Gpt.safe_title title = PyStr.or_else title "ytdl").
Proof.
  assert (Hfix : forall s, PyStr.every PyStr.keeps s = true ->
                           PyStr.trailing_space s = false ->
                           Ghost.safe_title s = s).
  { intros s Hk Ht. unfold Ghost.safe_title.
    rewrite (join_if_fixed _ _ Hk). now apply rstrip_fixed. }
  assert (Hh : Ghost.safe_title (Ghost.safe_title title)
               = Ghost.safe_title title).
  { apply Hfix; [apply rstrip_every, join_if_every
                | apply rstrip_trailing_space]. }
  split; [|split; [exact Hh|]].
  - assert (Hg : Gpt.safe_title title
                 = if PyStr.is_empty (Ghost.safe_title title) then "ytdl"
                   else Ghost.safe_title title) by reflexivity.
    rewrite Hg.
    destruct (PyStr.is_empty (Ghost.safe_title title)) eqn:E; [reflexivity|].
    unfold Gpt.safe_title, PyStr.or_else.
    change (PyStr.rstrip (PyStr.join_if PyStr.keeps (Ghost.safe_title title)))
      with (Ghost.safe_title (Ghost.safe_title title)).
    now rewrite Hh, E.
  - intros Hk Ht. split; [now apply Hfix|].
    unfold Gpt.safe_title.
    change (PyStr.rstrip (PyStr.join_if PyStr.keeps title))
      with (Ghost.safe_title title).
    now rewrite (Hfix title Hk Ht).
Qed.

(** X7: [gpt.py] strips the URL: for a URL of white space only (the empty
    one included) the run is the single error "No URL provided" and nothing
    is created; for any other URL the run starts by creating the output
    folder. *)
Theorem gpt_blank_url (url folder_path : string) (w : Gpt.world) :
  if PyStr.every PyStr.isspace url
  then Gpt.run (Gpt.init url folder_path) w = [Sig (Error "No URL provided")]
  else hd_error (Gpt.run (Gpt.init url folder_path) w)
       = Some (Eff (Makedirs folder_path)).
Proof.
  pose proof (strip_empty_blank url) as H.
  unfold Gpt.run, Gpt.program, Gpt.main, Gpt.init. cbn [Gpt.url Gpt.folder_path].
  rewrite H. destruct (PyStr.every PyStr.isspace url); [reflexivity|].
  unfold Exec.trace, Exec.try_except, Exec.seq at 1 2.
  unfold Exec.perform at 1.
  destruct (Gpt.makedirs w folder_path) as [e|].
  - reflexivity.
  - match goal with
    | |- context [Exec.seq ?m ?k Gpt.initial] =>
        destruct (Exec.seq m k Gpt.initial) as [[[[]| |e] s] t]
    end; reflexivity.
Qed.

Section FloatMonotone.
Import Binary64.

Lemma round_hundred : round_units (100 * one_units) 1 = 100 * one_units.
Proof. vm_compute. reflexivity. Qed.

Lemma hundred_below_overflow : 100 * one_units < overflow_units.
Proof. reflexivity. Qed.

(** The quotient of two integers, when it lies between 0 and [hi]. *)
Lemma truediv_between (d s hi : Z) :
  0 < s -> 0 <= d <= hi * s ->
  round_units (hi * one_units) 1 < overflow_units ->
  truediv d s = Return (Fin (round_units (d * one_units) s)) /\
  0 <= round_units (d * one_units) s <= round_units (hi * one_units) 1.
Proof.
  intros Hs Hd Hb. unfold truediv.
  destruct (Z.eqb_spec s 0) as [|_]; [lia|].
  replace (Z.sgn s) with 1 by lia. replace (Z.abs s) with s by lia.
  rewrite Z.mul_1_r. unfold round.
  pose proof one_units_pos as H1.
  assert (Hr : round_units 0 1 <= round_units (d * one_units) s
               <= round_units (hi * one_units) 1).
  { apply round_between; [lia|]. nia. }
  rewrite round_zero in Hr. rewrite of_units_fin by lia.
  split; [reflexivity | lia].
Qed.

Lemma truediv_mono (d1 d2 s : Z) :
  0 < s -> 0 <= d1 <= d2 -> d2 <= s ->
  exists n1 n2, truediv d1 s = Return (Fin n1) /\
                truediv d2 s = Return (Fin n2) /\ 0 <= n1 <= n2 /\
                n2 <= one_units.
Proof.
  intros Hs Hd Hd2. pose proof one_units_pos as H1.
  pose proof one_below_overflow as H2.
  destruct (truediv_between d1 s 1 Hs) as [E1 R1];
    [lia | rewrite Z.mul_1_l, round_one; lia |].
  destruct (truediv_between d2 s 1 Hs) as [E2 R2];
    [lia | rewrite Z.mul_1_l, round_one; lia |].
  rewrite Z.mul_1_l, round_one in R1, R2.
  eexists. eexists. split; [exact E1|]. split; [exact E2|].
  split; [|lia]. split; [lia|]. apply round_units_mono; try lia.
  apply Z.mul_le_mono_nonneg_r; [lia|].
  apply Z.mul_le_mono_nonneg_r; lia.
Qed.

(** A quotient [s / s] is exactly [1.0]. *)
Lemma truediv_self (s : Z) : s <> 0 -> truediv s s = Return (Fin one_units).
Proof.
  intros Hs. unfold truediv. destruct (Z.eqb_spec s 0) as [|_]; [contradiction|].
  unfold round. pose proof one_units_pos as H1.
  pose proof one_below_overflow as H2.
  assert (Hr : round_units one_units 1
               <= round_units (s * Z.sgn s * one_units) (Z.abs s)
               <= round_units one_units 1).
  { apply round_between; [lia|]. nia. }
  rewrite round_one in Hr.
  replace (round_units (s * Z.sgn s * one_units) (Z.abs s)) with one_units
    by lia.
  now rewrite of_units_fin by lia.
Qed.

Lemma truediv_zero (s : Z) : s <> 0 -> truediv 0 s = Return (Fin 0).
Proof.
  intros Hs. unfold truediv. destruct (Z.eqb_spec s 0) as [|_]; [contradiction|].
  reflexivity.
Qed.

Lemma mul_fin_mono (a1 a2 b1 b2 a' b' : Z) :
  0 <= a1 <= a2 -> a2 <= a' -> 0 <= b1 <= b2 -> b2 <= b' ->
  round_units (a' * b') one_units < overflow_units ->
  exists n1 n2, mul (Fin a1) (Fin b1) = Fin n1 /\
                mul (Fin a2) (Fin b2) = Fin n2 /\
                0 <= n1 <= n2 /\ n2 <= round_units (a' * b') one_units.
Proof.
  intros Ha Ha' Hb Hb' Hc. cbn [mul]. unfold round.
  pose proof one_units_pos as H1.
  assert (H0 : round_units 0 1 <= round_units (a1 * b1) one_units).
  { apply round_units_mono; try lia; try nia. }
  assert (H12 : round_units (a1 * b1) one_units
                <= round_units (a2 * b2) one_units).
  { apply round_units_mono; try lia.
    apply Z.mul_le_mono_nonneg_r; [lia|]. try lia; nia. }
  assert (H2 : round_units (a2 * b2) one_units
               <= round_units (a' * b') one_units).
  { apply round_units_mono; try lia.
    apply Z.mul_le_mono_nonneg_r; [lia|]. try lia; nia. }
  rewrite round_zero in H0.
  rewrite !of_units_fin by lia.
  eexists. eexists. split; [reflexivity|]. split; [reflexivity|]. lia.
Qed.

Lemma add_fin_mono (a1 a2 b1 b2 a' b' : Z) :
  0 <= a1 <= a2 -> a2 <= a' -> 0 <= b1 <= b2 -> b2 <= b' ->
  round_units (a' + b') 1 < overflow_units ->
  exists n1 n2, add (Fin a1) (Fin b1) = Fin n1 /\
                add (Fin a2) (Fin b2) = Fin n2 /\
                0 <= n1 <= n2 /\ n2 <= round_units (a' + b') 1.
Proof.
  intros Ha Ha' Hb Hb' Hc. cbn [add]. unfold round.
  assert (H0 : round_units 0 1 <= round_units (a1 + b1) 1)
    by (apply round_units_mono; lia).
  assert (H12 : round_units (a1 + b1) 1 <= round_units (a2 + b2) 1)
    by (apply round_units_mono; lia).
  assert (H2 : round_units (a2 + b2) 1 <= round_units (a' + b') 1)
    by (apply round_units_mono; lia).
  rewrite round_zero in H0.
  rewrite !of_units_fin by lia.
  eexists. eexists. split; [reflexivity|]. split; [reflexivity|]. lia.
Qed.

End FloatMonotone.

Section UnifierOrder.
Import Binary64 GptProgress.

Lemma scaled_mono (w1 w2 : worker) (m1 m2 : Z) :
  video_size w1 = video_size w2 -> audio_size w1 = audio_size w2 ->
  0 < video_size w1 -> 0 < audio_size w1 ->
  0 <= video_done w1 <= video_done w2 -> video_done w2 <= video_size w2 ->
  0 <= audio_done w1 <= audio_done w2 -> audio_done w2 <= audio_size w2 ->
  0 <= m1 <= m2 -> m2 <= one_units ->
  exists x1 x2, scaled w1 (Fin m1) = Return (Fin x1) /\
                scaled w2 (Fin m2) = Return (Fin x2) /\
                0 <= x1 <= x2 /\ x2 <= 100 * one_units.
Proof.
  intros Evs Eas Hvs Has Hv Hv2 Ha Ha2 Hm Hm2. unfold scaled, unified, fraction.
  rewrite <- Evs, <- Eas.
  destruct (Z.eqb_spec (video_size w1) 0) as [|_]; [lia|].
  destruct (Z.eqb_spec (audio_size w1) 0) as [|_]; [lia|].
  cbn [negb].
  destruct (truediv_mono (video_done w1) (video_done w2) (video_size w1))
    as (v1 & v2 & -> & -> & Rv & Rv'); try lia.
  destruct (truediv_mono (audio_done w1) (audio_done w2) (audio_size w1))
    as (a1 & a2 & -> & -> & Ra & Ra'); try lia.
  cbn [bind].
  destruct weights_finite as (EV & EA & EM & E100 & PV & PA & PM).
  destruct weights_sum as (KV & KA & KM & KS & K100 & B1 & BV & BA & BM & B100).
  pose proof one_units_pos as H1. pose proof one_below_overflow as H2.
  rewrite EV, EA, EM, E100.
  destruct (mul_fin_mono v1 v2 (units W_VIDEO) (units W_VIDEO)
              one_units (units W_VIDEO))
    as (p1 & p2 & -> & -> & R1 & R1'); try lia.
  destruct (mul_fin_mono a1 a2 (units W_AUDIO) (units W_AUDIO)
              one_units (units W_AUDIO))
    as (q1 & q2 & -> & -> & R2 & R2'); try lia.
  destruct (mul_fin_mono m1 m2 (units W_MERGE) (units W_MERGE)
              one_units (units W_MERGE))
    as (r1 & r2 & -> & -> & R3 & R3'); try lia.
  rewrite KV in R1'. rewrite KA in R2'. rewrite KM in R3'.
  destruct (add_fin_mono p1 p2 q1 q2 (units W_VIDEO) (units W_AUDIO))
    as (s1 & s2 & -> & -> & R4 & R4'); try lia.
  destruct (add_fin_mono s1 s2 r1 r2
              (round_units (units W_VIDEO + units W_AUDIO) 1) (units W_MERGE))
    as (t1 & t2 & -> & -> & R5 & R5'); try lia.
  rewrite KS in R5'.
  destruct (mul_fin_mono t1 t2 (100 * one_units) (100 * one_units)
              one_units (100 * one_units))
    as (y1 & y2 & -> & -> & R6 & R6'); try lia.
  rewrite K100 in R6'.
  exists y1, y2. split; [reflexivity|]. split; [reflexivity|]. lia.
Qed.

(** X4: the unifier of [gpt.py] is monotone: with the same positive sizes,
    counters that are not smaller and a merge fraction that is not smaller
    give a percent that is not smaller. *)
Theorem unified_progress_monotone (w1 w2 : worker) (m1 m2 : float)
    (Evs : video_size w1 = video_size w2)
    (Eas : audio_size w1 = audio_size w2)
    (Hvs : 0 < video_size w1) (Has : 0 < audio_size w1)
    (Hv : 0 <= video_done w1 <= video_done w2)
    (Hv2 : video_done w2 <= video_size w2)
    (Ha : 0 <= audio_done w1 <= audio_done w2)
    (Ha2 : audio_done w2 <= audio_size w2)
    (Hm0 : leb (Fin 0) m1 = true) (Hm : leb m1 m2 = true)
    (Hm1 : leb m2 (Fin one_units) = true) :
  exists p1 p2,
    _emit_unified_progress w1 m1 = Return p1 /\
    _emit_unified_progress w2 m2 = Return p2 /\
    0 <= p1 <= p2 /\ p2 <= 100.
Proof.
  destruct (unit_interval_leb m2) as (n2 & -> & R2); [|assumption|].
  { destruct m1 as [n1 | [] |], m2 as [n2 | [] |]; cbn [leb] in *;
      try discriminate. apply Z.leb_le in Hm0, Hm. apply Z.leb_le. lia. }
  destruct m1 as [n1 | [] |]; cbn [leb] in *; try discriminate.
  apply Z.leb_le in Hm0, Hm.
  destruct (scaled_mono w1 w2 n1 n2) as (x1 & x2 & E1 & E2 & R & R');
    try assumption; try lia.
  pose proof one_units_pos as H1.
  assert (Q1 : 0 <= Z.quot x1 one_units <= 100) by (apply quot_percent; lia).
  assert (Q2 : 0 <= Z.quot x2 one_units <= 100) by (apply quot_percent; lia).
  exists (Z.quot x1 one_units), (Z.quot x2 one_units).
  rewrite (emit_of_scaled _ _ _ E1), (emit_of_scaled _ _ _ E2).
  rewrite !clamp_inert by assumption.
  split; [reflexivity|]. split; [reflexivity|]. split; [|lia].
  split; [lia|]. apply Z.quot_le_mono; lia.
Qed.

(** The percent at the end of each phase, whatever the sizes. *)
Lemma milestone_percents (w : worker) :
  video_size w <> 0 -> audio_size w <> 0 ->
  (video_done w = 0 -> audio_done w = 0 ->
   _emit_unified_progress w (Fin 0) = Return 0) /\
  (video_done w = video_size w -> audio_done w = 0 ->
   _emit_unified_progress w (Fin 0) = Return 40) /\
  (video_done w = video_size w -> audio_done w = audio_size w ->
   _emit_unified_progress w (Fin 0) = Return 80 /\
   _emit_unified_progress w Gpt.cap = Return 99 /\
   _emit_unified_progress w (literal 1 1) = Return 100).
Proof.
  intros Hvs Has. unfold _emit_unified_progress, unified, fraction.
  destruct (Z.eqb_spec (video_size w) 0) as [|_]; [contradiction|].
  destruct (Z.eqb_spec (audio_size w) 0) as [|_]; [contradiction|].
  cbn [negb].
  split; [|split].
  - intros -> ->. rewrite !truediv_zero by assumption.
    vm_compute. reflexivity.
  - intros -> ->. rewrite truediv_self, truediv_zero by assumption.
    vm_compute. reflexivity.
  - intros -> ->. rewrite !truediv_self by assumption.
    split; [|split]; vm_compute; reflexivity.
Qed.

(** X3: whatever the sizes recorded (the sentinel 1 included), the unifier
    of [gpt.py] reports 0 when nothing is transferred, 40 when the video is
    complete, 80 when both streams are, 99 at the cap of the merge ramp and
    100 at the merge fraction 1.0. *)
Theorem gpt_progress_milestones (w : worker)
    (Hvs : video_size w <> 0) (Has : audio_size w <> 0) :
  (video_done w = 0 -> audio_done w = 0 ->
   _emit_unified_progress w (Fin 0) = Return 0) /\
  (video_done w = video_size w -> audio_done w = 0 ->
   _emit_unified_progress w (Fin 0) = Return 40) /\
  (video_done w = video_size w -> audio_done w = audio_size w ->
   _emit_unified_progress w (Fin 0) = Return 80 /\
   _emit_unified_progress w Gpt.cap = Return 99 /\
   _emit_unified_progress w (literal 1 1) = Return 100).
Proof. now apply milestone_percents. Qed.

Lemma gpt_progress_milestones_witness :
  _emit_unified_progress Scenario.downloaded (Fin 0) = Return 80 /\
  _emit_unified_progress Scenario.downloaded Gpt.cap = Return 99 /\
  _emit_unified_progress Scenario.downloaded (literal 1 1) = Return 100.
Proof.
  destruct (gpt_progress_milestones Scenario.downloaded) as (_ & _ & H).
  - discriminate.
  - discriminate.
  - apply H; reflexivity.
Defined.

Lemma unified_progress_monotone_witness :
  exists p1 p2,
    _emit_unified_progress
      {| video_size := 10; audio_size := 4; video_done := 3; audio_done := 0;
         _video_itag := Some 136; _audio_itag := Some 140 |} (Fin 0)
      = Return p1 /\
    _emit_unified_progress
      {| video_size := 10; audio_size := 4; video_done := 7; audio_done := 1;
         _video_itag := Some 136; _audio_itag := Some 140 |} (literal 1 2)
      = Return p2 /\
    0 <= p1 <= p2 /\ p2 <= 100.
Proof.
  apply unified_progress_monotone.
  - reflexivity.
  - reflexivity.
  - reflexivity.
  - reflexivity.
  - cbn [video_done]. lia.
  - cbn [video_done video_size]. lia.
  - cbn [audio_done]. lia.
  - cbn [audio_done audio_size]. lia.
  - reflexivity.
  - vm_compute. reflexivity.
  - vm_compute. reflexivity.
Defined.

End UnifierOrder.

Section GhostCallback.
Import Binary64 Pytube.

(** X11: the progress callback of [worker.py]: a stream of size 0 gives
    the error "Progress callback error: division by zero" and no progress;
    for a positive size and [bytes_remaining] between 0 and the size the
    percent lies between 0 and 100, with 100 at 0 bytes remaining and 0 at
    the whole size remaining. *)
Theorem ghost_callback_percent (s : stream) (bytes_remaining : Z) :
  (filesize s = 0 ->
   Ghost.on_progress_callback s bytes_remaining
     = Error "Progress callback error: division by zero") /\
  (0 < filesize s -> 0 <= bytes_remaining <= filesize s ->
   exists p, Ghost.on_progress_callback s bytes_remaining = Progress p /\
             0 <= p <= 100) /\
  (0 < filesize s ->
   Ghost.on_progress_callback s 0 = Progress 100 /\
   Ghost.on_progress_callback s (filesize s) = Progress 0).
Proof.
  pose proof one_units_pos as H1.
  pose proof hundred_below_overflow as H100.
  unfold Ghost.on_progress_callback.
  split; [|split].
  - intros ->. reflexivity.
  - intros Hs Hr.
    destruct (truediv_between ((filesize s - bytes_remaining) * 100)
                (filesize s) 100 Hs) as [E R];
      [nia | rewrite round_hundred; lia |].
    rewrite E. cbn [bind to_int]. rewrite round_hundred in R.
    eexists. split; [reflexivity|]. now apply quot_percent.
  - intros Hs. split.
    + destruct (truediv_between ((filesize s - 0) * 100)
                  (filesize s) 100 Hs) as [E R];
        [nia | rewrite round_hundred; lia |].
      rewrite E. cbn [bind to_int]. rewrite round_hundred in R.
      assert (Hlow : round_units (100 * one_units) 1
                     <= round_units ((filesize s - 0) * 100 * one_units)
                          (filesize s)).
      { apply round_units_mono; try lia. }
      rewrite round_hundred in Hlow.
      replace (round_units ((filesize s - 0) * 100 * one_units) (filesize s))
        with (100 * one_units) by lia.
      now rewrite Z.quot_mul by lia.
    + rewrite Z.sub_diag. cbn [Z.mul].
      rewrite truediv_zero by lia. reflexivity.
Qed.

End GhostCallback.

Section Stops.
Import Exec.
Context {S : Type}.
Variable P : event -> bool.

Lemma avoids_seq_stops {A B : Type} (m : prog S A) (k : A -> prog S B) :
  avoids P m -> stops m -> avoids P (seq m k).
Proof.
  intros Hm Hs s. rewrite trace_seq. specialize (Hm s). unfold trace in Hm.
  specialize (Hs s).
  destruct (m s) as [[[a | | e] s'] t]; cbn [snd] in Hm; try exact Hm.
  now elim (Hs a s' t).
Qed.

Lemma avoids_seq_yields {A B : Type} (Q : A -> Prop) (m : prog S A)
    (k : A -> prog S B) :
  avoids P m -> yields Q m -> (forall a, Q a -> avoids P (k a)) ->
  avoids P (seq m k).
Proof.
  intros Hm Hy Hk s. rewrite trace_seq. specialize (Hm s). unfold trace in Hm.
  specialize (Hy s).
  destruct (m s) as [[[a | | e] s'] t]; cbn [snd] in Hm; try exact Hm.
  rewrite existsb_app, Hm. apply Hk. now apply (Hy a s' t).
Qed.

Lemma stops_seq_l {A B : Type} (m : prog S A) (k : A -> prog S B) :
  stops m -> stops (seq m k).
Proof.
  intros Hm s b s'' t. unfold seq. specialize (Hm s).
  destruct (m s) as [[[a | | e] s'] t1]; try discriminate.
  now elim (Hm a s' t1).
Qed.

Lemma stops_seq_r {A B : Type} (m : prog S A) (k : A -> prog S B) :
  (forall a, stops (k a)) -> stops (seq m k).
Proof.
  intros Hk s b s'' t. unfold seq.
  destruct (m s) as [[[a | | e] s'] t1]; try discriminate.
  specialize (Hk a s'). destruct (k a s') as [[r s2] t2].
  intros E. injection E as -> -> <-. now elim (Hk b s'' t2).
Qed.

Lemma stops_raise {A : Type} (e : exn) : stops (@raise S A e).
Proof. intros s a s' t. discriminate. Qed.

Lemma stops_perform (e : effect) (x : exn) : stops (@perform S e (Some x)).
Proof. intros s a s' t. discriminate. Qed.

End Stops.

(** Events that no progress report and no transfer produces. *)
Section Silent.
Import Binary64 Pytube GptProgress Exec.
Variable P : event -> bool.
Hypothesis P_unify : forall m, P (Unify m) = false.
Hypothesis P_progress : forall p, P (Sig (Progress p)) = false.
Hypothesis P_error : forall msg, P (Sig (Error msg)) = false.
Hypothesis P_download : forall s o f k, P (Eff (Download s o f k)) = false.

Lemma gpt_emit_unified_silent (m : float) : avoids P (Gpt.emit_unified m).
Proof.
  intros s. unfold trace, Gpt.emit_unified.
  destruct (_emit_unified_progress s m); cbn [snd existsb];
    now rewrite ?P_unify, ?P_progress.
Qed.

Lemma gpt_callbacks_silent (v : stream) (l : list Z) :
  avoids P (Gpt.callbacks v l).
Proof.
  induction l as [|r l IH]; cbn [Gpt.callbacks]; [apply avoids_ret|].
  apply avoids_seq; [|intros _; exact IH].
  intros s. unfold trace, Gpt.callback, on_progress_callback.
  destruct (_emit_unified_progress _ _); cbn [snd existsb];
    now rewrite ?P_unify, ?P_progress, ?P_error.
Qed.

Lemma gpt_download_silent (v : stream) (o f : string) (d : download) :
  avoids P (Gpt.download_stream v o f d).
Proof.
  unfold Gpt.download_stream.
  apply avoids_seq; [apply avoids_perform, P_download | intros _].
  apply avoids_seq; [apply gpt_callbacks_silent | intros _].
  destruct (failure d); [apply avoids_raise | apply avoids_ret].
Qed.

Lemma ghost_callbacks_silent (v : stream) (l : list Z) :
  avoids P (Ghost.callbacks v l).
Proof.
  induction l as [|r l IH]; cbn [Ghost.callbacks]; [apply avoids_ret|].
  apply avoids_seq; [|intros _; exact IH].
  apply avoids_emit. unfold Ghost.on_progress_callback.
  destruct (bind _ _); [apply P_progress | apply P_error].
Qed.

Lemma ghost_download_silent (v : stream) (o f : string) (d : download) :
  avoids P (Ghost.download_stream v o f d).
Proof.
  unfold Ghost.download_stream.
  apply avoids_seq; [apply avoids_perform, P_download | intros _].
  apply avoids_seq; [apply ghost_callbacks_silent | intros _].
  destruct (failure d); [apply avoids_raise | apply avoids_ret].
Qed.

End Silent.

Section FailedTransfer.
Import Binary64 Pytube GptProgress Exec.

Lemma gpt_download_stops (v : stream) (o f : string) (d : download) (e : exn) :
  failure d = Some e -> stops (Gpt.download_stream v o f d).
Proof.
  intros H. unfold Gpt.download_stream. rewrite H.
  apply stops_seq_r. intros _. apply stops_seq_r. intros _. apply stops_raise.
Qed.

Lemma ghost_download_stops (v : stream) (o f : string) (d : download)
    (e : exn) :
  failure d = Some e -> stops (Ghost.download_stream v o f d).
Proof.
  intros H. unfold Ghost.download_stream. rewrite H.
  apply stops_seq_r. intros _. apply stops_seq_r. intros _. apply stops_raise.
Qed.

End FailedTransfer.

(** Steps over the statements that come before the one of interest. *)
Ltac pass P :=
  apply avoids_seq;
  [ first [ apply avoids_emit; reflexivity
          | apply avoids_perform; reflexivity
          | apply avoids_put | apply avoids_modify | apply avoids_lift
          | apply (gpt_emit_unified_silent P); reflexivity
          | apply (gpt_download_silent P); reflexivity
          | apply (ghost_download_silent P); reflexivity ]
  | intros ? ].

Section Ffmpeg.
Import Binary64 PyStr Pytube GptProgress Exec.

Lemma gpt_main_no_ffmpeg (j : Gpt.job) (w : Gpt.world) :
  (exists e, failure (Gpt.video_download w) = Some e) \/
  (exists e, failure (Gpt.audio_download w) = Some e) ->
  avoids is_ffmpeg (Gpt.main j w).
Proof.
  intros H. unfold Gpt.main.
  destruct (is_empty (Gpt.url j)); [repeat quiet_step|].
  do 3 pass is_ffmpeg.
  destruct (select_video _) as [video|];
    [destruct (select_audio _) as [audio|]|]; try solve [repeat quiet_step].
  do 2 pass is_ffmpeg.
  destruct H as [[e H] | [e H]].
  - apply avoids_seq_stops;
      [apply (gpt_download_silent is_ffmpeg); reflexivity
      | exact (gpt_download_stops _ _ _ _ e H)].
  - do 4 pass is_ffmpeg.
    apply avoids_seq_stops;
      [apply (gpt_download_silent is_ffmpeg); reflexivity
      | exact (gpt_download_stops _ _ _ _ e H)].
Qed.

Lemma ghost_query_no_ffmpeg (w : Ghost.world) : avoids is_ffmpeg (Ghost.query w).
Proof. unfold Ghost.query. repeat quiet_step. Qed.

Lemma ghost_download_video_no_ffmpeg (j : Ghost.job) (w : Ghost.world) :
  (exists e, failure (Ghost.video_download w) = Some e) \/
  (exists e, failure (Ghost.audio_download w) = Some e) ->
  avoids is_ffmpeg (Ghost.download_video j w).
Proof.
  intros H. unfold Ghost.download_video.
  pass is_ffmpeg.
  apply avoids_seq; [apply ghost_query_no_ffmpeg | intros bound].
  pass is_ffmpeg.
  destruct bound as [[[yt video] audio]|]; [|apply avoids_raise].
  destruct H as [[e H] | [e H]].
  - apply avoids_seq_stops;
      [apply (ghost_download_silent is_ffmpeg); reflexivity
      | exact (ghost_download_stops _ _ _ _ e H)].
  - do 3 pass is_ffmpeg.
    apply avoids_seq_stops;
      [apply (ghost_download_silent is_ffmpeg); reflexivity
      | exact (ghost_download_stops _ _ _ _ e H)].
Qed.

Lemma gpt_program_avoids (P : event -> bool) (j : Gpt.job) (w : Gpt.world) :
  (forall g, P (Sig g) = false) ->
  avoids P (Gpt.main j w) -> avoids P (Gpt.program j w).
Proof.
  intros HP H. unfold Gpt.program. apply avoids_try_except.
  - apply avoids_seq; [exact H | intros _].
    apply avoids_seq; [apply avoids_emit, HP | intros _].
    apply avoids_emit, HP.
  - intros e. apply avoids_emit, HP.
Qed.

Lemma ghost_cleanup_no_ffmpeg (j : Ghost.job) (w : Ghost.world) :
  avoids is_ffmpeg (Ghost.cleanup j w).
Proof. unfold Ghost.cleanup. repeat quiet_step. Qed.

(** X10: neither worker starts ffmpeg unless both transfers ended without
    an exception. *)
Theorem ffmpeg_needs_both_transfers (gj : Gpt.job) (gw : Gpt.world)
    (hj : Ghost.job) (hw : Ghost.world) :
  (existsb is_ffmpeg (Gpt.run gj gw) = true ->
   failure (Gpt.video_download gw) = None /\
   failure (Gpt.audio_download gw) = None) /\
  (existsb is_ffmpeg (Ghost.run hj hw) = true ->
   failure (Ghost.video_download hw) = None /\
   failure (Ghost.audio_download hw) = None).
Proof.
  split; intros H.
  - destruct (failure (Gpt.video_download gw)) as [e|] eqn:Ev;
      [|destruct (failure (Gpt.audio_download gw)) as [e|] eqn:Ea];
      [| |now split];
      exfalso;
      assert (Hq : avoids is_ffmpeg (Gpt.program gj gw))
        by (apply gpt_program_avoids; [reflexivity|];
            apply gpt_main_no_ffmpeg; eauto);
      specialize (Hq Gpt.initial); unfold Gpt.run in H; congruence.
  - destruct (failure (Ghost.video_download hw)) as [e|] eqn:Ev;
      [|destruct (failure (Ghost.audio_download hw)) as [e|] eqn:Ea];
      [| |now split];
      exfalso;
      assert (Hq : avoids is_ffmpeg (Ghost.program hj hw))
        by (unfold Ghost.program;
            apply avoids_seq;
            [ apply avoids_try_except;
              [ apply avoids_call, ghost_download_video_no_ffmpeg; eauto
              | intros ?; apply avoids_emit; reflexivity ]
            | intros _; apply ghost_cleanup_no_ffmpeg ]);
      specialize (Hq tt); unfold Ghost.run in H; congruence.
Qed.

End Ffmpeg.

Section Performs.
Import Exec.
Context {S : Type}.
Variable P : event -> bool.

Lemma performs_seq_l {A B : Type} (m : prog S A) (k : A -> prog S B) :
  performs P m -> performs P (seq m k).
Proof.
  intros Hm s. rewrite trace_seq. specialize (Hm s). unfold trace in Hm.
  destruct (m s) as [[[a | | e] s'] t]; cbn [snd] in Hm; try exact Hm.
  now rewrite existsb_app, Hm.
Qed.

Lemma performs_seq_r {A B : Type} (m : prog S A) (k : A -> prog S B) :
  proceeds m -> (forall s, forall e, outcome m s <> Raised e) ->
  (forall a, performs P (k a)) -> performs P (seq m k).
Proof.
  intros Hp Hr Hk s. rewrite trace_seq. specialize (Hp s). specialize (Hr s).
  unfold outcome in *.
  destruct (m s) as [[[a | | e] s'] t]; cbn [fst] in *.
  - rewrite existsb_app, (Hk a s'). apply orb_true_r.
  - congruence.
  - now elim (Hr e).
Qed.

Lemma performs_try_except {A : Type} (m : prog S A) (h : exn -> prog S A) :
  performs P m -> performs P (try_except m h).
Proof.
  intros Hm s. specialize (Hm s). unfold trace, try_except in *.
  destruct (m s) as [[[a | | e] s'] t]; cbn [snd] in *; try exact Hm.
  destruct (h e s') as [[r s''] t']. cbn [snd]. now rewrite existsb_app, Hm.
Qed.

Lemma performs_perform (e : effect) (o : option exn) :
  P (Eff e) = true -> performs P (@perform S e o).
Proof. intros H s. destruct o; cbn; now rewrite H. Qed.

Lemma stops_try_except {A : Type} (m : prog S A) (h : exn -> prog S A) :
  stops m -> (forall e, stops (h e)) -> stops (try_except m h).
Proof.
  intros Hm Hh s a s'' t. unfold try_except. specialize (Hm s).
  destruct (m s) as [[[b | | e] s'] t1]; try discriminate.
  - now elim (Hm b s' t1).
  - specialize (Hh e s'). destruct (h e s') as [[r s2] t2].
    intros E. injection E as -> -> <-. now elim (Hh a s'' t2).
Qed.

Lemma yields_try_except {A : Type} (Q : A -> Prop) (m : prog S A)
    (h : exn -> prog S A) :
  stops m -> (forall e, yields Q (h e)) -> yields Q (try_except m h).
Proof.
  intros Hm Hh s a s'' t. unfold try_except. specialize (Hm s).
  destruct (m s) as [[[b | | e] s'] t1]; try discriminate.
  - now elim (Hm b s' t1).
  - specialize (Hh e s'). destruct (h e s') as [[r s2] t2].
    intros E. injection E as -> -> <-. now apply (Hh a s'' t2).
Qed.

End Performs.

Section Announcement.
Import Binary64 PyStr Pytube Exec.

Lemma ffmpeg_merge_stops (w : Ghost.world) (v a o : string) (e : exn) :
  Ghost.ffmpeg w = Some e -> stops (Ghost.ffmpeg_merge w v a o).
Proof.
  intros H. unfold Ghost.ffmpeg_merge. rewrite H.
  apply stops_try_except; [apply stops_perform|].
  intros x. destruct x; apply stops_seq_r; intros _; apply stops_raise.
Qed.

Lemma ffmpeg_merge_performs (w : Ghost.world) (v a o : string) :
  performs is_ffmpeg (Ghost.ffmpeg_merge w v a o).
Proof.
  unfold Ghost.ffmpeg_merge. apply performs_try_except.
  now apply performs_perform.
Qed.

Lemma ffmpeg_merge_silent (w : Ghost.world) (v a o : string) :
  avoids announces (Ghost.ffmpeg_merge w v a o).
Proof. unfold Ghost.ffmpeg_merge. repeat quiet_step. Qed.

Lemma ghost_query_silent (w : Ghost.world) : avoids announces (Ghost.query w).
Proof. unfold Ghost.query. repeat quiet_step. Qed.

(** The merge step of [download_video] with its [try]. *)
Lemma merge_step_silent (w : Ghost.world) (v a o : string) :
  avoids announces
    (try_except
       (emit (Message "Merging…😃") ;;;
        Ghost.ffmpeg_merge w v a o ;;; emit (Progress 100) ;;; ret true)
       (fun e => emit (Error (str_exn e)) ;;; ret false)).
Proof.
  apply avoids_try_except.
  - apply avoids_seq; [apply avoids_emit; reflexivity | intros _].
    apply avoids_seq; [apply ffmpeg_merge_silent | intros _].
    repeat quiet_step.
  - intros e. repeat quiet_step.
Qed.

Lemma merge_step_fails (w : Ghost.world) (v a o : string) (e : exn) :
  Ghost.ffmpeg w = Some e ->
  yields (fun merged => merged = false)
    (try_except
       (emit (Message "Merging…😃") ;;;
        Ghost.ffmpeg_merge w v a o ;;; emit (Progress 100) ;;; ret true)
       (fun e => emit (Error (str_exn e)) ;;; ret false)).
Proof.
  intros H. apply yields_try_except.
  - apply stops_seq_r. intros _. apply stops_seq_l.
    exact (ffmpeg_merge_stops w v a o e H).
  - intros x s b s' t. unfold seq, emit, ret. intros E. now injection E.
Qed.

Lemma merge_step_performs (w : Ghost.world) (v a o : string) :
  performs is_ffmpeg
    (try_except
       (emit (Message "Merging…😃") ;;;
        Ghost.ffmpeg_merge w v a o ;;; emit (Progress 100) ;;; ret true)
       (fun e => emit (Error (str_exn e)) ;;; ret false)).
Proof.
  apply performs_try_except.
  apply performs_seq_r.
  - apply proceeds_emit.
  - intros s e. discriminate.
  - intros _. apply performs_seq_l, ffmpeg_merge_performs.
Qed.

Lemma download_video_silent (j : Ghost.job) (w : Ghost.world) :
  (exists e, Ghost.ffmpeg w = Some e) \/
  (exists e, failure (Ghost.video_download w) = Some e) \/
  (exists e, failure (Ghost.audio_download w) = Some e) ->
  avoids announces (Ghost.download_video j w).
Proof.
  intros H. unfold Ghost.download_video.
  pass announces.
  apply avoids_seq; [apply ghost_query_silent | intros bound].
  pass announces.
  destruct bound as [[[yt video] audio]|]; [|apply avoids_raise].
  destruct H as [[e H] | [[e H] | [e H]]].
  - do 6 pass announces.
    apply (avoids_seq_yields announces (fun merged => merged = false)).
    + apply merge_step_silent.
    + exact (merge_step_fails _ _ _ _ e H).
    + intros merged ->. apply avoids_ret.
  - apply avoids_seq_stops;
      [apply (ghost_download_silent announces); reflexivity
      | exact (ghost_download_stops _ _ _ _ e H)].
  - do 3 pass announces.
    apply avoids_seq_stops;
      [apply (ghost_download_silent announces); reflexivity
      | exact (ghost_download_stops _ _ _ _ e H)].
Qed.

Lemma ghost_program_silent (j : Ghost.job) (w : Ghost.world) :
  avoids announces (Ghost.download_video j w) ->
  avoids announces (Ghost.program j w).
Proof.
  intros H. unfold Ghost.program.
  apply avoids_seq.
  - apply avoids_try_except; [now apply avoids_call|].
    intros e. apply avoids_emit. reflexivity.
  - intros _. unfold Ghost.cleanup. repeat quiet_step.
Qed.

End Announcement.

Section Needs.
Import Exec.
Context {S : Type}.
Variables P Q : event -> bool.

Lemma needs_avoids {A : Type} (m : prog S A) : avoids Q m -> needs P Q m.
Proof. intros H s E. rewrite (H s) in E. discriminate. Qed.

Lemma needs_performs {A : Type} (m : prog S A) : performs P m -> needs P Q m.
Proof. intros H s _. apply H. Qed.

Lemma needs_seq {A B : Type} (m : prog S A) (k : A -> prog S B) :
  avoids Q m -> (forall a, needs P Q (k a)) -> needs P Q (seq m k).
Proof.
  intros Hm Hk s. rewrite trace_seq. specialize (Hm s). unfold trace in Hm.
  destruct (m s) as [[[a | | e] s'] t]; cbn [snd] in Hm;
    try (intros E; congruence).
  rewrite !existsb_app, Hm. cbn [orb]. intros E.
  rewrite (Hk a s' E). apply orb_true_r.
Qed.

Lemma needs_seq_tail {A B : Type} (m : prog S A) (k : A -> prog S B) :
  needs P Q m -> (forall a, avoids Q (k a)) -> needs P Q (seq m k).
Proof.
  intros Hm Hk s. rewrite trace_seq. specialize (Hm s). unfold trace in Hm.
  destruct (m s) as [[[a | | e] s'] t]; cbn [snd] in Hm; try exact Hm.
  rewrite !existsb_app, (Hk a s'), orb_false_r. intros E.
  now rewrite (Hm E).
Qed.

Lemma needs_try_except {A : Type} (m : prog S A) (h : exn -> prog S A) :
  needs P Q m -> (forall e, avoids Q (h e)) -> needs P Q (try_except m h).
Proof.
  intros Hm Hh s. specialize (Hm s). unfold trace, try_except in *.
  destruct (m s) as [[[a | | e] s'] t]; cbn [snd] in *; try exact Hm.
  specialize (Hh e s'). unfold trace in Hh.
  destruct (h e s') as [[r s''] t']. cbn [snd] in *.
  rewrite !existsb_app, Hh, orb_false_r. intros E. now rewrite (Hm E).
Qed.

Lemma needs_call (m : prog S unit) : needs P Q m -> needs P Q (call m).
Proof.
  intros Hm s. specialize (Hm s). unfold trace, call in *.
  destruct (m s) as [[[a | | e] s'] t]; exact Hm.
Qed.

End Needs.

Ltac pass_needs P Q :=
  apply needs_seq;
  [ first [ apply avoids_emit; reflexivity
          | apply avoids_perform; reflexivity
          | apply avoids_lift
          | apply (ghost_download_silent Q); reflexivity ]
  | intros ? ].

Section AnnouncementTheorem.
Import Binary64 PyStr Pytube Exec.

Lemma download_video_needs_ffmpeg (j : Ghost.job) (w : Ghost.world) :
  needs is_ffmpeg announces (Ghost.download_video j w).
Proof.
  unfold Ghost.download_video.
  pass_needs is_ffmpeg announces.
  apply needs_seq; [apply ghost_query_silent | intros bound].
  pass_needs is_ffmpeg announces.
  destruct bound as [[[yt video] audio]|];
    [|apply needs_avoids, avoids_raise].
  do 6 pass_needs is_ffmpeg announces.
  apply needs_performs, performs_seq_l, merge_step_performs.
Qed.

Lemma ghost_program_needs_ffmpeg (j : Ghost.job) (w : Ghost.world) :
  needs is_ffmpeg announces (Ghost.program j w).
Proof.
  unfold Ghost.program. apply needs_seq_tail.
  - apply needs_try_except.
    + apply needs_call, download_video_needs_ffmpeg.
    + intros e. apply avoids_emit. reflexivity.
  - intros _. unfold Ghost.cleanup. repeat quiet_step.
Qed.

(** X14: [worker.py] emits a message that starts with "Downloaded" only in
    a run in which ffmpeg was called and raised nothing and both transfers
    ended without an exception. *)
Theorem ghost_announcement (j : Ghost.job) (w : Ghost.world)
    (H : existsb announces (Ghost.run j w) = true) :
  existsb is_ffmpeg (Ghost.run j w) = true /\
  Ghost.ffmpeg w = None /\
  failure (Ghost.video_download w) = None /\
  failure (Ghost.audio_download w) = None.
Proof.
  split; [exact (ghost_program_needs_ffmpeg j w tt H)|].
  assert (Hno : forall (C : Prop),
            ((exists e, Ghost.ffmpeg w = Some e) \/
             (exists e, failure (Ghost.video_download w) = Some e) \/
             (exists e, failure (Ghost.audio_download w) = Some e)) -> C).
  { intros C Hc. exfalso.
    pose proof (ghost_program_silent j w (download_video_silent j w Hc) tt)
      as Hq.
    unfold Ghost.run in H. congruence. }
  destruct (Ghost.ffmpeg w) as [e|]; [apply Hno; eauto|].
  destruct (failure (Ghost.video_download w)) as [e|]; [apply Hno; eauto|].
  destruct (failure (Ghost.audio_download w)) as [e|]; [apply Hno; eauto 6|].
  repeat split.
Qed.

Lemma ghost_announcement_witness :
  existsb is_ffmpeg (Ghost.run Scenario.ghost_job Scenario.ghost_success)
    = true /\
  Ghost.ffmpeg Scenario.ghost_success = None /\
  failure (Ghost.video_download Scenario.ghost_success) = None /\
  failure (Ghost.audio_download Scenario.ghost_success) = None.
Proof.
  apply (ghost_announcement Scenario.ghost_job Scenario.ghost_success).
  vm_compute. reflexivity.
Defined.

(** X12: when [YouTube(url)] raises in [worker.py]: a [RegexMatchError] and
    a [VideoUnavailable] are reported and end the job; after any other
    exception the method goes on, announces the video download and fails on
    the unbound [video_stream], so that two errors are reported.  In each
    case [finished] and the removal of the folder follow. *)
Theorem ghost_query_errors (j : Ghost.job) (w : Ghost.world) (e : exn)
    (Hm : Ghost.makedirs w = None) (Hy : Ghost.youtube w = Raise e) :
  Ghost.run j w
  = (Eff (Makedirs (Ghost.temp_yt_folder j)) ::
     match e with
     | RegexMatchError _ => [Sig (Error "Invalid YouTube URL structure.")]
     | VideoUnavailable msg => [Sig (Error ("Video unavailable: " ++ msg))]
     | _ => [Sig (Error ("Error: " ++ str_exn e));
             Sig (Message "Downloading video (1/2) ..");
             Sig (Error (str_exn (UnboundLocalError "video_stream")))]
     end ++ Sig Finished :: Ghost.removal j w)%list.
Proof.
  unfold Ghost.run, Ghost.program. rewrite trace_seq.
  pose proof (cleanup_trace j w) as Hc. unfold trace in Hc.
  unfold Ghost.download_video, Ghost.query, trace, try_except, call, seq,
    perform, lift, emit, return_, ret, raise.
  rewrite Hm, Hy.
  destruct e; cbn [fst snd app]; rewrite Hc; reflexivity.
Qed.

Lemma ghost_query_errors_witness :
  Ghost.run Scenario.ghost_job
    (Ghost_with_youtube Scenario.ghost_success
       (Raise (OtherError "HTTP Error 400: Bad Request")))
  = [Eff (Makedirs "/tmp/ytbr");
     Sig (Error "Error: HTTP Error 400: Bad Request");
     Sig (Message "Downloading video (1/2) ..");
     Sig (Error (str_exn (UnboundLocalError "video_stream")));
     Sig Finished; Eff (Rmtree "/tmp/ytbr")].
Proof.
  apply (ghost_query_errors Scenario.ghost_job
           (Ghost_with_youtube Scenario.ghost_success
              (Raise (OtherError "HTTP Error 400: Bad Request")))
           (OtherError "HTTP Error 400: Bad Request")); reflexivity.
Defined.

End AnnouncementTheorem.

Section Inversion.
Import Exec.
Context {S : Type}.

Lemma seq_next {A B : Type} (m : prog S A) (k : A -> prog S B)
    (s s'' : S) (b : B) (t : list event) :
  seq m k s = (Next b, s'', t) ->
  exists a s' t1 t2, m s = (Next a, s', t1) /\ k a s' = (Next b, s'', t2) /\
                     t = (t1 ++ t2)%list.
Proof.
  unfold seq. destruct (m s) as [[[a | | e] s'] t1]; try discriminate.
  destruct (k a s') as [[r s2] t2] eqn:E. intros H. injection H as -> -> <-.
  now exists a, s', t1, t2.
Qed.

Lemma keeps_seq {A B : Type} (m : prog S A) (k : A -> prog S B) :
  keeps_state m -> (forall a, keeps_state (k a)) -> keeps_state (seq m k).
Proof.
  intros Hm Hk s b s'' t H.
  apply seq_next in H as (a & s' & t1 & t2 & E1 & E2 & _).
  apply Hm in E1. apply Hk in E2. congruence.
Qed.

Lemma keeps_ret {A : Type} (a : A) : keeps_state (@ret S A a).
Proof. intros s b s' t H. now injection H. Qed.

Lemma keeps_emit (g : signal) : keeps_state (@emit S g).
Proof. intros s b s' t H. now injection H. Qed.

Lemma keeps_perform (e : effect) (o : option exn) :
  keeps_state (@perform S e o).
Proof. intros s b s' t. destruct o; [discriminate|]. intros H. now injection H. Qed.

Lemma keeps_lift {A : Type} (r : result A) : keeps_state (@lift S A r).
Proof.
  intros s b s' t. destruct r; [|discriminate]. intros H. now injection H.
Qed.

End Inversion.

Section Completion.
Import Binary64 PyStr Pytube GptProgress Exec Gpt.

Lemma keeps_emit_unified (m : float) : keeps_state (emit_unified m).
Proof.
  intros s b s' t. unfold emit_unified.
  destruct (_emit_unified_progress s m); [|discriminate].
  intros H. now injection H.
Qed.

Lemma keeps_merge_loop (start : float) (readings : list float) :
  forall last, keeps_state (merge_loop start readings last).
Proof.
  induction readings as [|now rest IH]; intros last; cbn [merge_loop].
  - apply keeps_ret.
  - apply keeps_seq; [apply keeps_lift | intros frac].
    apply keeps_seq.
    + destruct (leb _ _); [|apply keeps_ret].
      apply keeps_seq; [apply keeps_emit_unified | intros _; apply keeps_ret].
    + intros last'. apply keeps_seq; [apply keeps_perform | intros _; apply IH].
Qed.

Lemma recorded_progress (video audio s : stream) (st : worker) (r : Z) :
  recorded video audio st -> recorded video audio (record_progress st s r).
Proof.
  intros H. unfold record_progress.
  destruct (itag_is _ _); [exact H|]. destruct (itag_is _ _); exact H.
Qed.

Lemma audio_progress_keeps_video (video audio : stream) (st : worker) (r : Z) :
  itag video <> itag audio -> recorded video audio st ->
  video_done (record_progress st audio r) = video_done st /\
  video_size (record_progress st audio r) = video_size st.
Proof.
  intros Hi (Hv & Ha & _). unfold record_progress. rewrite Hv, Ha.
  cbn [itag_is]. destruct (Z.eqb_spec (itag audio) (itag video)) as [E|_];
    [now elim Hi|].
  rewrite Z.eqb_refl. now split.
Qed.

Lemma callbacks_recorded (video audio s : stream) (l : list Z) :
  forall st st' t,
    recorded video audio st -> callbacks s l st = (Next tt, st', t) ->
    recorded video audio st'.
Proof.
  induction l as [|r l IH]; intros st st' t Hst; cbn [callbacks].
  - intros H. injection H as <- _. exact Hst.
  - intros H. apply seq_next in H as ([] & s1 & t1 & t2 & E1 & E2 & _).
    unfold callback, on_progress_callback in E1.
    destruct (_emit_unified_progress _ _); injection E1 as <- _;
      (eapply IH; [|exact E2]); now apply recorded_progress.
Qed.

Lemma audio_callbacks_keep_video (video audio : stream) (l : list Z) :
  itag video <> itag audio ->
  forall st st' t,
    recorded video audio st -> callbacks audio l st = (Next tt, st', t) ->
    video_done st' = video_done st /\ video_size st' = video_size st.
Proof.
  intros Hi. induction l as [|r l IH]; intros st st' t Hst; cbn [callbacks].
  - intros H. injection H as <- _. now split.
  - intros H. apply seq_next in H as ([] & s1 & t1 & t2 & E1 & E2 & _).
    destruct (audio_progress_keeps_video video audio st r Hi Hst) as [Hd Hs].
    unfold callback, on_progress_callback in E1.
    destruct (_emit_unified_progress _ _); injection E1 as <- _;
      (destruct (IH _ _ _ (recorded_progress _ _ audio st r Hst) E2)
         as [Hd' Hs']); split; congruence.
Qed.

Lemma download_next (s : stream) (o f : string) (d : download)
    (st st' : worker) (t : list event) :
  download_stream s o f d st = (Next tt, st', t) ->
  exists t', callbacks s (chunks d) st = (Next tt, st', t').
Proof.
  unfold download_stream. intros H.
  apply seq_next in H as ([] & s1 & t1 & t2 & E1 & E2 & _).
  apply keeps_perform in E1 as ->.
  apply seq_next in E2 as ([] & s2 & t3 & t4 & E3 & E4 & _).
  destruct (failure d); [discriminate|]. apply keeps_ret in E4 as ->.
  now exists t3.
Qed.

Lemma recorded_select (video audio : stream) :
  recorded video audio (select video audio).
Proof.
  unfold recorded, select. cbn. repeat split.
  - destruct (Z.eqb_spec (_get_stream_size video) 0); lia.
  - destruct (Z.eqb_spec (_get_stream_size audio) 0); lia.
Qed.

(** The last emission of a merge that ends normally. *)
Lemma merge_next (w : world) (v a o : string) (st st' : worker)
    (t : list event) :
  merge w v a o st = (Next tt, st', t) ->
  exists t' percent,
    _emit_unified_progress st (literal 1 1) = Return percent /\
    t = (t' ++ [Unify (literal 1 1); Sig (Progress percent)])%list.
Proof.
  unfold merge. intros H.
  apply seq_next in H as ([] & s1 & t1 & t2 & E1 & E2 & ->).
  apply keeps_perform in E1 as ->.
  apply seq_next in E2 as ([] & s2 & t3 & t4 & E3 & E4 & ->).
  apply keeps_merge_loop in E3 as ->.
  apply seq_next in E4 as ([] & s3 & t5 & t6 & E5 & E6 & ->).
  apply keeps_lift in E5 as ->.
  destruct (negb _).
  - apply seq_next in E6 as ([] & s4 & t7 & t8 & _ & E8 & _). discriminate.
  - unfold emit_unified in E6.
    destruct (_emit_unified_progress st (literal 1 1)) as [p|]; [|discriminate].
    injection E6 as _ <-. exists (t1 ++ t3 ++ t5)%list, p.
    split; [reflexivity|]. now rewrite <- !app_assoc.
Qed.

Lemma main_next (j : job) (w : world) (c : catalog) (video audio : stream)
    (st : worker) (t : list event) :
  youtube w = Return c ->
  select_video (streams c) = Some video ->
  select_audio (streams c) = Some audio ->
  itag video <> itag audio ->
  main j w initial = (Next tt, st, t) ->
  exists t', t = (t' ++ [Unify (literal 1 1); Sig (Progress 100)])%list.
Proof.
  intros Hy Hv Ha Hi. unfold main.
  destruct (is_empty (url j)).
  { intros H. apply seq_next in H as ([] & s1 & t1 & t2 & _ & E & _).
    discriminate. }
  intros H.
  apply seq_next in H as ([] & s1 & t1 & t2 & E1 & H & ->).
  apply seq_next in H as ([] & s2 & t3 & t4 & E2 & H & ->).
  rewrite Hy in H. cbn [lift] in H.
  apply seq_next in H as (yt & s3 & t5 & t6 & E3 & H & ->).
  inversion E3; subst; clear E3. rewrite Hv, Ha in H.
  apply seq_next in H as ([] & s4 & t7 & t8 & E4 & H & ->).
  inversion E4; subst; clear E4.
  apply seq_next in H as ([] & s5 & t9 & t10 & E5 & H & ->).
  apply keeps_emit in E5 as ->.
  apply seq_next in H as ([] & s6 & t11 & t12 & E6 & H & ->).
  apply download_next in E6 as (tv & E6).
  pose proof (callbacks_recorded video audio _ _ _ _ _
                (recorded_select video audio) E6) as R6.
  apply seq_next in H as ([] & s7 & t13 & t14 & E7 & H & ->).
  inversion E7; subst; clear E7.
  assert (R7 : recorded video audio (finish_video s6)) by exact R6.
  apply seq_next in H as ([] & s8 & t15 & t16 & E8 & H & ->).
  apply keeps_emit_unified in E8 as ->.
  apply seq_next in H as ([] & s9 & t17 & t18 & E9 & H & ->).
  apply keeps_emit in E9 as ->.
  apply seq_next in H as ([] & s10 & t19 & t20 & E10 & H & ->).
  apply download_next in E10 as (ta & E10).
  pose proof (callbacks_recorded video audio _ _ _ _ _ R7 E10) as R10.
  destruct (audio_callbacks_keep_video video audio _ Hi _ _ _ R7 E10)
    as [Hd Hs].
  apply seq_next in H as ([] & s11 & t21 & t22 & E11 & H & ->).
  inversion E11; subst; clear E11.
  apply seq_next in H as ([] & s12 & t23 & t24 & E12 & H & ->).
  apply keeps_emit_unified in E12 as ->.
  apply seq_next in H as (name & s13 & t25 & t26 & E13 & H & ->).
  apply keeps_lift in E13 as ->.
  apply seq_next in H as ([] & s14 & t27 & t28 & E14 & H & ->).
  apply keeps_perform in E14 as ->.
  apply seq_next in H as ([] & s15 & t29 & t30 & E15 & H & ->).
  apply keeps_emit in E15 as ->.
  apply merge_next in H as (t' & percent & Hp & ->).
  destruct R10 as (_ & _ & Nv & Na).
  destruct (milestone_percents (finish_audio s10)) as (_ & _ & M);
    [exact Nv | exact Na |].
  destruct M as (_ & _ & M100);
    [cbn [finish_audio finish_video video_done video_size] in *; congruence
    | reflexivity |].
  rewrite M100 in Hp. injection Hp as <-.
  eexists. rewrite !app_assoc. reflexivity.
Qed.

(** X5: a job of [gpt.py] that emits [finished] has reported 100 percent
    just before its completion message, provided the two selected streams
    have distinct itags: the last progress of a completed job is 100. *)
Theorem completed_job_reports_100 (j : job) (w : world) (c : catalog)
    (video audio : stream)
    (Hy : youtube w = Return c)
    (Hv : select_video (streams c) = Some video)
    (Ha : select_audio (streams c) = Some audio)
    (Hi : itag video <> itag audio)
    (Hfin : In (Sig Finished) (run j w)) :
  exists t,
    run j w = (t ++ [Unify (literal 1 1); Sig (Progress 100);
                     Sig (Message complete_message); Sig Finished])%list.
Proof.
  pose proof (main_quiet j w initial) as Hq.
  unfold run, program, trace, try_except in *. unfold seq at 1 in Hfin.
  unfold seq at 1.
  destruct (main j w initial) as [[[[] | | e] st] t] eqn:E; cbn [snd] in Hq.
  - destruct (main_next j w c video audio st t Hy Hv Ha Hi E) as (t' & ->).
    exists t'. unfold seq, emit. cbn [snd]. now rewrite <- app_assoc.
  - exfalso. cbn [snd] in Hfin.
    apply terminal_finished in Hq.
    assert (Hex : existsb is_finished t = true)
      by (apply existsb_exists; now exists (Sig Finished)).
    congruence.
  - exfalso. unfold emit in Hfin. cbn [snd] in Hfin.
    apply in_app_or in Hfin as [Hin | [Hin | []]]; [|discriminate].
    apply terminal_finished in Hq.
    assert (Hex : existsb is_finished t = true)
      by (apply existsb_exists; now exists (Sig Finished)).
    congruence.
Qed.

Lemma completed_job_reports_100_witness :
  exists t,
    run Scenario.gpt_job Scenario.gpt_success
    = (t ++ [Unify (literal 1 1); Sig (Progress 100);
             Sig (Message complete_message); Sig Finished])%list.
Proof.
  apply (completed_job_reports_100 Scenario.gpt_job Scenario.gpt_success
           Scenario.both Scenario.video720 Scenario.audio128).
  - reflexivity.
  - reflexivity.
  - reflexivity.
  - discriminate.
  - vm_compute. tauto.
Defined.

End Completion.

Section MainWindow.
Import Qt MainUi.

Lemma fold_deliver_app (u : window) (a b : list signal) :
  fold_left deliver (a ++ b)%list u = fold_left deliver b (fold_left deliver a u).
Proof. apply fold_left_app. Qed.

(** X18: once the signals of a run of [worker.py] have reached the slots
    of [main.py] in the order of their emission, the controls are enabled,
    the progress bar is hidden and its value is 0, whatever happened in the
    run. *)
Theorem main_window_unlocked (u : window) (j : Ghost.job) (w : Ghost.world) :
  controls_enabled (after_run u (Ghost.run j w)) = true /\
  bar_visible (after_run u (Ghost.run j w)) = false /\
  bar_value (after_run u (Ghost.run j w)) = 0.
Proof.
  destruct (ghost_run_cases j w) as (t & _ & ->).
  unfold after_run. rewrite signals_app. cbn [signals].
  rewrite fold_deliver_app. cbn [fold_left deliver].
  generalize (fold_left deliver (signals t) u). intros v.
  unfold Ghost.removal. destruct (Ghost.temp_exists w); [|now cbn].
  destruct (Ghost.rmtree w); now cbn.
Qed.

(** X17: [url_download_on_return] of [main.py] hands a worker to the pool
    only for a text that, stripped, is not empty and starts with
    [https://youtu.be/], and only when the folder could be created; the
    worker gets the stripped text, the controls are disabled, the bar shown
    and the input cleared.  Otherwise no worker is created and the controls
    and the bar stay as they were. *)
Theorem main_window_validation (default : string)
    (makedirs : string -> option exn) (u : window) :
  match snd (url_download_on_return default makedirs u) with
  | Some worker =>
      Ghost.url worker = PyStr.strip (input_text u) /\
      PyStr.is_empty (Ghost.url worker) = false /\
      String.prefix "https://youtu.be/" (Ghost.url worker) = true /\
      makedirs (PyStr.or_else (download_folder u) default) = None /\
      Ghost.folder_path worker = download_folder u /\
      Ghost.temp_yt_folder worker = "/tmp/ytbr" /\
      controls_enabled (fst (url_download_on_return default makedirs u))
        = false /\
      bar_visible (fst (url_download_on_return default makedirs u)) = true /\
      input_text (fst (url_download_on_return default makedirs u)) = ""
  | None =>
      (PyStr.is_empty (PyStr.strip (input_text u)) = true \/
       String.prefix "https://youtu.be/" (PyStr.strip (input_text u)) = false \/
       exists e,
         makedirs (PyStr.or_else (download_folder u) default) = Some e) /\
      controls_enabled (fst (url_download_on_return default makedirs u))
        = controls_enabled u /\
      bar_visible (fst (url_download_on_return default makedirs u))
        = bar_visible u
  end.
Proof.
  unfold url_download_on_return.
  destruct (PyStr.is_empty (PyStr.strip (input_text u))) eqn:E1.
  { cbn. repeat split; auto. }
  destruct (String.prefix "https://youtu.be/" (PyStr.strip (input_text u)))
    eqn:E2; cbn [negb].
  2:{ cbn. repeat split; auto. }
  destruct (makedirs _) as [e|] eqn:E3.
  { cbn. repeat split; eauto. }
  cbn. repeat split; auto.
Qed.

End MainWindow.

Section GptWindow.
Import Qt GptUi.

(** X19: once the signals of a run of [gpt.py] have reached the slots of
    its window: after a completed job the input is cleared, the placeholder
    reads "Download Complete ✔" and two timers are pending, to hide the bar
    and to restore the placeholder; after any other run the bar is hidden and
    the placeholder shows the last error. *)
Theorem gpt_window_after_run (u : window) (j : Gpt.job) (w : Gpt.world) :
  (In (Sig Finished) (Gpt.run j w) /\
   placeholder_text (after_run u (Gpt.run j w)) = "Download Complete ✔" /\
   input_text (after_run u (Gpt.run j w)) = "" /\
   exists pending,
     timers (after_run u (Gpt.run j w))
       = (pending ++ [(1200, HideProgressBar);
                      (2000, SetPlaceholderText placeholder)])%list) \/
  (~ In (Sig Finished) (Gpt.run j w) /\
   bar_visible (after_run u (Gpt.run j w)) = false /\
   exists msg,
     placeholder_text (after_run u (Gpt.run j w)) = "❌ " ++ msg /\
     last (signals (Gpt.run j w)) Finished = Error msg).
Proof.
  destruct (program_cases j w) as (t & Ht & [E | [msg E]]); rewrite E.
  - left. split; [apply in_or_app; right; right; now left|].
    unfold after_run. rewrite signals_app. cbn [signals].
    rewrite fold_left_app. cbn [fold_left deliver].
    generalize (fold_left deliver (signals t) u). intros v.
    split; [reflexivity|]. split; [reflexivity|].
    exists (timers v). cbn. now rewrite <- app_assoc.
  - right. split.
    + intros Hin. apply in_app_or in Hin as [Hin | [Hin | []]];
        [|discriminate].
      apply terminal_finished in Ht.
      assert (Hex : existsb is_finished t = true)
        by (apply existsb_exists; now exists (Sig Finished)).
      congruence.
    + unfold after_run. rewrite signals_app. cbn [signals].
      rewrite fold_left_app. cbn [fold_left deliver].
      split; [reflexivity|]. exists msg. split; [reflexivity|].
      apply last_last.
Qed.

End GptWindow.

Section ProgressRange.
Import Binary64 PyStr Pytube GptProgress Exec.

Lemma in_range_percent (w : worker) (m : float) (p : Z) :
  _emit_unified_progress w m = Return p ->
  out_of_range (Sig (Progress p)) = false.
Proof.
  intros H. apply emit_in_range in H. cbn [out_of_range].
  apply negb_false_iff, andb_true_iff. split; apply Z.leb_le; lia.
Qed.

Lemma emit_unified_in_range (m : float) :
  avoids out_of_range (Gpt.emit_unified m).
Proof.
  intros s. unfold trace, Gpt.emit_unified.
  destruct (_emit_unified_progress s m) as [p|] eqn:E; [|reflexivity].
  cbn [snd existsb]. now rewrite (in_range_percent s m p E).
Qed.

Lemma callbacks_in_range (v : stream) (l : list Z) :
  avoids out_of_range (Gpt.callbacks v l).
Proof.
  induction l as [|r l IH]; cbn [Gpt.callbacks]; [apply avoids_ret|].
  apply avoids_seq; [|intros _; exact IH].
  intros s. unfold trace, Gpt.callback, on_progress_callback.
  destruct (_emit_unified_progress _ _) as [p|] eqn:E; [|reflexivity].
  cbn [snd existsb]. now rewrite (in_range_percent _ _ p E).
Qed.

Lemma download_in_range (v : stream) (o f : string) (d : download) :
  avoids out_of_range (Gpt.download_stream v o f d).
Proof.
  unfold Gpt.download_stream. repeat quiet_step. apply callbacks_in_range.
Qed.

Lemma merge_loop_in_range (start : float) (readings : list float) :
  forall last, avoids out_of_range (Gpt.merge_loop start readings last).
Proof.
  induction readings as [|now rest IH]; intros last; cbn [Gpt.merge_loop].
  - apply avoids_ret.
  - repeat quiet_step; try apply emit_unified_in_range. apply IH.
Qed.

Lemma main_in_range (j : Gpt.job) (w : Gpt.world) :
  avoids out_of_range (Gpt.main j w).
Proof.
  unfold Gpt.main, Gpt.merge. repeat quiet_step;
    first [apply download_in_range | apply emit_unified_in_range
          | apply merge_loop_in_range].
Qed.

Lemma program_in_range (j : Gpt.job) (w : Gpt.world) :
  avoids out_of_range (Gpt.program j w).
Proof. unfold Gpt.program. repeat quiet_step. apply main_in_range. Qed.

Lemma signals_in (g : signal) (t : list event) :
  In g (signals t) -> In (Sig g) t.
Proof.
  induction t as [|e t IH]; [intros []|].
  destruct e as [g' | f | m]; cbn [signals].
  - intros [-> | H]; [now left | right; now apply IH].
  - intros H. right. now apply IH.
  - intros H. right. now apply IH.
Qed.

(** X6: every [progress] signal of a run of [gpt.py] carries a percent
    between 0 and 100, whatever the provider reports and whatever fails. *)
Theorem gpt_progress_in_range (j : Gpt.job) (w : Gpt.world) :
  Forall (fun g => match g with
                   | Progress percent => 0 <= percent <= 100
                   | _ => True
                   end) (signals (Gpt.run j w)).
Proof.
  apply Forall_forall. intros g Hg. destruct g as [| text | p | text]; trivial.
  apply signals_in in Hg.
  pose proof (program_in_range j w Gpt.initial) as Hq.
  fold (Gpt.run j w) in Hq.
  destruct (out_of_range (Sig (Progress p))) eqn:E.
  - assert (Hex : existsb out_of_range (Gpt.run j w) = true)
      by (apply existsb_exists; now exists (Sig (Progress p))).
    congruence.
  - cbn [out_of_range] in E. apply negb_false_iff, andb_true_iff in E.
    destruct E as [E1 E2]. apply Z.leb_le in E1, E2. lia.
Qed.

(** X9: [Worker.run] lets no exception escape, in either file: [gpt.py]
    ends normally or by [return], [worker.py] always reaches the end of its
    [finally] block. *)
Theorem run_never_raises (gj : Gpt.job) (gw : Gpt.world)
    (hj : Ghost.job) (hw : Ghost.world) (e : exn) :
  outcome (Gpt.program gj gw) Gpt.initial <> Raised e /\
  outcome (Ghost.program hj hw) tt = Next tt.
Proof.
  split.
  - unfold Gpt.program, outcome, try_except.
    destruct (seq _ _ Gpt.initial) as [[[[] | | x] s] t]; discriminate.
  - destruct (guarded_download hj hw) as (t & Ht & _).
    unfold Ghost.program. rewrite outcome_seq, Ht.
    unfold Ghost.cleanup, outcome, seq, emit, try_except, perform, ret.
    destruct (Ghost.temp_exists hw); [|reflexivity].
    destruct (Ghost.rmtree hw); reflexivity.
Qed.

Lemma trace_try_except {S A : Type} (m : prog S A) (h : exn -> prog S A)
    (s : S) :
  exists u, trace (try_except m h) s = (trace m s ++ u)%list.
Proof.
  unfold trace, try_except. destruct (m s) as [[[a | | e] s'] t]; cbn [snd].
  - exists []. now rewrite app_nil_r.
  - exists []. now rewrite app_nil_r.
  - destruct (h e s') as [[r s''] t']. now exists t'.
Qed.

Lemma trace_seq_prefix {S A B : Type} (m : prog S A) (k : A -> prog S B)
    (s : S) :
  exists u, trace (seq m k) s = (trace m s ++ u)%list.
Proof.
  rewrite trace_seq. unfold trace.
  destruct (m s) as [[[a | | e] s'] t]; cbn [snd].
  - now exists (snd (k a s')).
  - exists []. now rewrite app_nil_r.
  - exists []. now rewrite app_nil_r.
Qed.

(** X8: in [gpt.py] the first of [makedirs(folder)], [makedirs(temp)] and
    [YouTube(url)] that raises ends the job: the run is the calls made so
    far followed by one [error] signal carrying [str(e)]. *)
Theorem gpt_first_failure (j : Gpt.job) (w : Gpt.world)
    (Hurl : is_empty (Gpt.url j) = false) :
  match Gpt.makedirs w (Gpt.folder_path j),
        Gpt.makedirs w (Gpt.temp_yt_folder w), Gpt.youtube w with
  | Some e, _, _ =>
      Gpt.run j w = [Eff (Makedirs (Gpt.folder_path j)); Sig (Error (str_exn e))]
  | None, Some e, _ =>
      Gpt.run j w = [Eff (Makedirs (Gpt.folder_path j));
                     Eff (Makedirs (Gpt.temp_yt_folder w));
                     Sig (Error (str_exn e))]
  | None, None, Raise e =>
      Gpt.run j w = [Eff (Makedirs (Gpt.folder_path j));
                     Eff (Makedirs (Gpt.temp_yt_folder w));
                     Sig (Error (str_exn e))]
  | None, None, Return _ =>
      exists t, Gpt.run j w = (Eff (Makedirs (Gpt.folder_path j)) ::
                               Eff (Makedirs (Gpt.temp_yt_folder w)) :: t)%list
  end.
Proof.
  destruct (Gpt.makedirs w (Gpt.folder_path j)) as [e|] eqn:E1;
    [|destruct (Gpt.makedirs w (Gpt.temp_yt_folder w)) as [e|] eqn:E2;
      [|destruct (Gpt.youtube w) as [c | e] eqn:E3]].
  - unfold Gpt.run, Gpt.program, Gpt.main. rewrite Hurl, E1. reflexivity.
  - unfold Gpt.run, Gpt.program, Gpt.main. rewrite Hurl, E1, E2. reflexivity.
  - unfold Gpt.run, Gpt.program.
    destruct (trace_try_except
                (Gpt.main j w ;;;
                 emit (Message Gpt.complete_message) ;;; emit Finished)
                (fun e => emit (Error (str_exn e))) Gpt.initial) as (u & ->).
    destruct (trace_seq_prefix (Gpt.main j w)
                (fun _ => emit (Message Gpt.complete_message) ;;;
                          emit Finished) Gpt.initial) as (u' & ->).
    unfold Gpt.main. rewrite Hurl, E1, E2.
    rewrite !trace_perform_seq. eexists. reflexivity.
  - unfold Gpt.run, Gpt.program, Gpt.main. rewrite Hurl, E1, E2, E3.
    reflexivity.
Qed.

Lemma gpt_first_failure_witness :
  Gpt.run Scenario.gpt_job
    (Gpt_with_youtube Scenario.gpt_success
       (Raise (RegexMatchError "regex_search: could not find match")))
  = [Eff (Makedirs "/home/user/Videos/ytbr");
     Eff (Makedirs "/tmp/ytbr_0123456789abcdef0123456789abcdef");
     Sig (Error "regex_search: could not find match")].
Proof.
  apply (gpt_first_failure Scenario.gpt_job
           (Gpt_with_youtube Scenario.gpt_success
              (Raise (RegexMatchError "regex_search: could not find match")))).
  reflexivity.
Defined.

End ProgressRange.

Section MergeFailure.
Import Binary64 PyStr Pytube Exec.

Lemma ghost_download_next (v : stream) (o f : string) (d : download) :
  failure d = None ->
  exists t, Ghost.download_stream v o f d tt = (Next tt, tt, t).
Proof.
  intros H. unfold Ghost.download_stream. rewrite H.
  destruct (ghost_callbacks_next v (chunks d)) as (t & Ht).
  unfold seq, perform, ret. rewrite Ht. eexists. reflexivity.
Qed.

Lemma ffmpeg_merge_raises (w : Ghost.world) (v a o : string) (e : exn) :
  Ghost.ffmpeg w = Some e ->
  Ghost.ffmpeg_merge w v a o tt
  = (Raised e, tt,
     [Eff (SubprocessRun (Ghost.merge_cmd v a o));
      Sig (Error (merge_error (Ghost.merge_cmd v a o) e))]).
Proof.
  intros H. unfold Ghost.ffmpeg_merge, try_except, perform. rewrite H.
  destruct e; reflexivity.
Qed.

Lemma merge_step_failed (w : Ghost.world) (v a o : string) (e : exn) :
  Ghost.ffmpeg w = Some e ->
  try_except
    (emit (Message "Merging…😃") ;;;
     Ghost.ffmpeg_merge w v a o ;;; emit (Progress 100) ;;; ret true)
    (fun e => emit (Error (str_exn e)) ;;; ret false) tt
  = (Next false, tt,
     [Sig (Message "Merging…😃");
      Eff (SubprocessRun (Ghost.merge_cmd v a o));
      Sig (Error (merge_error (Ghost.merge_cmd v a o) e));
      Sig (Error (str_exn e))]).
Proof.
  intros H. unfold try_except, seq. cbn [emit].
  rewrite (ffmpeg_merge_raises w v a o e H). reflexivity.
Qed.

(** X13: when the two transfers of [worker.py] succeed and ffmpeg fails,
    the run ends with the mark 90, the merge message, the call of ffmpeg,
    the error of [ffmpeg_merge] for the kind of exception, the error
    [str(e)] of [download_video], then [finished] and the removal: no mark
    100 and no "Downloaded" message. *)
Theorem ghost_merge_failure (j : Ghost.job) (w : Ghost.world) (c : catalog)
    (video audio : stream) (name : string) (e : exn)
    (Hm : Ghost.makedirs w = None) (Hy : Ghost.youtube w = Return c)
    (Hv : select_video (streams c) = Some video)
    (Ha : select_audio (streams c) = Some audio)
    (Hvd : failure (Ghost.video_download w) = None)
    (Had : failure (Ghost.audio_download w) = None)
    (Ht : title c = Return name) (Hf : Ghost.ffmpeg w = Some e) :
  exists t,
    Ghost.run j w
    = (t ++ [Sig (Progress 90); Sig (Message "Merging…😃");
             Eff (SubprocessRun
                    (Ghost.merge_cmd
                       (path_join (Ghost.temp_yt_folder j) "video.mp4")
                       (path_join (Ghost.temp_yt_folder j) "audio.mp4")
                       (Ghost.output_file j name)));
             Sig (Error
                    (merge_error
                       (Ghost.merge_cmd
                          (path_join (Ghost.temp_yt_folder j) "video.mp4")
                          (path_join (Ghost.temp_yt_folder j) "audio.mp4")
                          (Ghost.output_file j name)) e));
             Sig (Error (str_exn e)); Sig Finished] ++ Ghost.removal j w)%list.
Proof.
  destruct (ghost_download_next video (Ghost.temp_yt_folder j) "video.mp4"
              _ Hvd) as (tv & Ev).
  destruct (ghost_download_next audio (Ghost.temp_yt_folder j) "audio.mp4"
              _ Had) as (ta & Ea).
  assert (Hdv : exists t,
            Ghost.download_video j w tt
            = (Next tt, tt,
               (t ++ [Sig (Progress 90); Sig (Message "Merging…😃");
                  Eff (SubprocessRun
                    (Ghost.merge_cmd
                       (path_join (Ghost.temp_yt_folder j) "video.mp4")
                       (path_join (Ghost.temp_yt_folder j) "audio.mp4")
                       (Ghost.output_file j name)));
                  Sig (Error
                    (merge_error
                       (Ghost.merge_cmd
                          (path_join (Ghost.temp_yt_folder j) "video.mp4")
                          (path_join (Ghost.temp_yt_folder j) "audio.mp4")
                          (Ghost.output_file j name)) e));
                  Sig (Error (str_exn e))])%list)).
  { unfold Ghost.download_video. rewrite Hm.
    erewrite seq_step by reflexivity.
    erewrite seq_step by (apply ghost_query_next; eassumption).
    erewrite seq_step by reflexivity.
    erewrite seq_step by exact Ev.
    erewrite seq_step by reflexivity.
    erewrite seq_step by reflexivity.
    erewrite seq_step by exact Ea.
    erewrite seq_step by reflexivity.
    rewrite Ht.
    erewrite seq_step by reflexivity.
    erewrite seq_step by (apply merge_step_failed; exact Hf).
    cbn [ret fst snd].
    exists (Eff (Makedirs (Ghost.temp_yt_folder j)) ::
            Sig (Message "Downloading video (1/2) ..") :: tv ++
            Sig (Progress 80) :: Sig (Message "Downloading audio (2/2)") :: ta)%list.
    cbn [app]. rewrite <- !app_assoc. reflexivity. }
  destruct Hdv as (t & Hdv). exists t.
  pose proof (cleanup_trace j w) as Hc. unfold trace in Hc.
  unfold Ghost.run, Ghost.program. rewrite trace_seq.
  unfold try_except, call. rewrite Hdv. cbn [fst snd]. unfold trace.
  rewrite Hc. rewrite <- app_assoc. reflexivity.
Qed.

Lemma ghost_merge_failure_witness :
  exists t,
    Ghost.run Scenario.ghost_job Scenario_ghost_ffmpeg_missing
    = (t ++ [Sig (Progress 90); Sig (Message "Merging…😃");
             Eff (SubprocessRun
                    ["ffmpeg"; "-y"; "-i"; "/tmp/ytbr/video.mp4"; "-i";
                     "/tmp/ytbr/audio.mp4"; "-c"; "copy";
                     "/home/user/Videos/ytbr/My Video Part 1.mp4"]);
             Sig (Error "FFmpeg not found in $PATH.");
             Sig (Error "[Errno 2] No such file or directory: 'ffmpeg'");
             Sig Finished; Eff (Rmtree "/tmp/ytbr")])%list.
Proof.
  apply (ghost_merge_failure Scenario.ghost_job Scenario_ghost_ffmpeg_missing
           Scenario.both Scenario.video720 Scenario.audio128
           "My Video: Part #1?"
           (FileNotFoundError "[Errno 2] No such file or directory: 'ffmpeg'"));
    reflexivity.
Defined.

End MergeFailure.

(** ** The number of emissions of the merge loop *)

Section Throttle.
Import Binary64 GptProgress Exec Gpt.

Lemma merge_loop_spaced (start : float) (readings : list float) :
  forall last st,
    spaced last (fractions (snd (merge_loop start readings last st))) = true.
Proof.
  induction readings as [|now rest IH]; intros last st; [reflexivity|].
  destruct (ramp start now) as [frac | e] eqn:E.
  - rewrite (merge_loop_step _ _ _ _ _ _ E).
    destruct (leb min_delta (abs (sub frac last))) eqn:C.
    + destruct (_emit_unified_progress st frac) as [p | x].
      * specialize (IH frac st).
        destruct (merge_loop start rest frac st) as [[r s] t].
        cbn [snd fractions spaced] in *. now rewrite C, IH.
      * cbn [snd fractions spaced]. now rewrite C.
    + specialize (IH last st).
      destruct (merge_loop start rest last st) as [[r s] t].
      cbn [snd fractions] in *. exact IH.
  - cbn [merge_loop]. unfold seq. rewrite E. reflexivity.
Qed.

Lemma ulp_exp_one : ulp_exp one_units = 1022.
Proof. vm_compute. reflexivity. Qed.

(** Rounding adds less than one unit in the last place. *)
Lemma round_units_above (x : Z) :
  0 <= x <= one_units -> round_units x 1 <= x + 2 ^ 1022.
Proof.
  intros Hx. unfold round_units.
  destruct (Z.eq_dec x 0) as [-> | Hne]; [cbn; lia|].
  replace (Z.sgn x) with 1 by lia. replace (Z.abs x) with x by lia.
  rewrite Z.mul_1_l. unfold round_pos. rewrite Z.div_1_r, Z.mul_1_l.
  pose proof (ulp_exp_nonneg x) as Hs.
  pose proof (ulp_exp_mono x one_units (proj2 Hx)) as Hm.
  rewrite ulp_exp_one in Hm.
  set (s := ulp_exp x) in *.
  assert (Hp : 0 < 2 ^ s) by (apply Z.pow_pos_nonneg; lia).
  assert (Hle : 2 ^ s <= 2 ^ 1022) by (apply Z.pow_le_mono_r; lia).
  pose proof (rne_bounds x (2 ^ s)) as [_ Hr].
  pose proof (Z.mul_div_le x (2 ^ s) Hp) as Hd.
  nia.
Qed.

Lemma delta_units : min_delta = Fin (units min_delta).
Proof. vm_compute. reflexivity. Qed.

Lemma spacing_count :
  199 * (units min_delta - 2 ^ 1022) > units cap /\
  0 < units min_delta - 2 ^ 1022.
Proof. split; vm_compute; reflexivity. Qed.

Lemma spaced_length (l : list float) :
  forall last,
    0 <= last <= units cap ->
    spaced (Fin last) l = true ->
    nondecreasing (Fin last :: l) = true ->
    Forall (fun f => leb (Fin 0) f = true /\ leb f cap = true) l ->
    Z.of_nat (List.length l) * (units min_delta - 2 ^ 1022)
    <= units cap - last.
Proof.
  pose proof cap_below_one as Hcap. pose proof spacing_count as [_ Hd].
  pose proof one_units_pos as H1. pose proof one_below_overflow as H2.
  induction l as [|f l IH]; intros last Hl Hs Hn Hall.
  - cbn [List.length Z.of_nat]. lia.
  - inversion Hall as [|? ? [H0 Hc] Hall']; subst.
    rewrite cap_units in Hc.
    destruct f as [n | [] |]; cbn [leb] in H0, Hc;
      try discriminate H0; try discriminate Hc.
    apply Z.leb_le in H0, Hc.
    cbn [nondecreasing] in Hn. apply andb_true_iff in Hn as [Hln Hn].
    cbn [leb] in Hln. apply Z.leb_le in Hln.
    cbn [spaced] in Hs. apply andb_true_iff in Hs as [Hsp Hs].
    assert (Hstep : units min_delta - 2 ^ 1022 <= n - last).
    { rewrite delta_units in Hsp. unfold sub, opp, add, round in Hsp.
      replace (n + - last) with (n - last) in Hsp by lia.
      assert (Hr : round_units 0 1 <= round_units (n - last) 1
                   <= round_units one_units 1)
        by (split; apply round_units_mono; lia).
      rewrite round_zero, round_one in Hr.
      rewrite of_units_fin in Hsp by lia. cbn [abs leb] in Hsp.
      apply Z.leb_le in Hsp.
      pose proof (round_units_above (n - last)) as Ha. lia. }
    assert (Hn' : nondecreasing (Fin n :: l) = true) by exact Hn.
    specialize (IH n (conj H0 Hc) Hs Hn' Hall').
    change (List.length (Fin n :: l)) with (S (List.length l)).
    rewrite Nat2Z.inj_succ. lia.
Qed.

Lemma merge_end_fractions (w : world) (st : worker) :
  (List.length
     (fractions
        (trace
           (lift (match communicate w with
                  | Some e => Raise e
                  | None => Return tt
                  end) ;;;
            if negb (Z.eqb (returncode w) 0)
            then emit (Error (String.append "ffmpeg failed: "
                                (PyStr.take 400 (PyStr.strip (stderr w))))) ;;;
                 return_
            else emit_unified (literal 1 1)) st)) <= 1)%nat.
Proof.
  rewrite trace_seq. destruct (communicate w); cbn [lift raise ret];
    [cbn; lia|].
  cbn [app]. destruct (negb _).
  - cbn. lia.
  - unfold trace, emit_unified.
    destruct (_emit_unified_progress st (literal 1 1)); cbn [snd fractions];
      cbn [List.length]; lia.
Qed.

(** X20: the merge loop of [gpt.py] emits a fraction only when it differs
    by at least [0.005] from the last one emitted; on a clock that does not
    run backwards it therefore emits at most 198 fractions however long
    ffmpeg runs, and the merge phase at most 199. *)
Theorem merge_emissions_bounded (w : world) (st : worker) (v a o : string)
    (Hclock : steady (merge_start w) (polls w)) (Hst : tracked st) :
  spaced (Fin 0) (fractions (trace (merge_loop (merge_start w) (polls w)
                                       (Fin 0)) st)) = true /\
  (List.length (fractions (trace (merge_loop (merge_start w) (polls w)
                                    (Fin 0)) st)) <= 198)%nat /\
  (List.length (fractions (trace (merge w v a o) st)) <= 199)%nat.
Proof.
  destruct Hclock as (b & zs & Hb & Hzs & Hs).
  destruct (merge_loop_trace b st Hst zs (Fin 0) Hs)
    as (t & Ht & Hnd & Hall & _).
  rewrite <- Hb, <- Hzs in Ht.
  pose proof (merge_loop_spaced (merge_start w) (polls w) (Fin 0) st) as Hsp.
  pose proof cap_below_one as Hcap. pose proof spacing_count as [Hc Hd].
  rewrite Ht in Hsp. cbn [snd] in Hsp.
  assert (Hlen : (List.length (fractions t) <= 198)%nat).
  { assert (Hall' : Forall (fun f => leb (Fin 0) f = true /\ leb f cap = true)
                           (fractions t)).
    { apply Forall_forall. intros f Hf. rewrite Forall_forall in Hall.
      destruct (Hall f Hf) as (_ & _ & _ & H0 & H1). now split. }
    assert (Hn : nondecreasing (Fin 0 :: fractions t) = true).
    { apply nondecreasing_cons; [exact Hnd|].
      apply Forall_forall. intros f Hf. rewrite Forall_forall in Hall'.
      now destruct (Hall' f Hf). }
    pose proof (spaced_length (fractions t) 0 ltac:(lia) Hsp Hn Hall') as Hb'.
    destruct (Nat.le_gt_cases (List.length (fractions t)) 198) as [|Hgt];
      [assumption|].
    assert (Hmul : 199 * (units min_delta - 2 ^ 1022)
                   <= Z.of_nat (List.length (fractions t))
                      * (units min_delta - 2 ^ 1022))
      by (apply Z.mul_le_mono_nonneg_r; lia).
    lia. }
  assert (Eloop : trace (merge_loop (merge_start w) (polls w) (Fin 0)) st = t)
    by (unfold trace; now rewrite Ht).
  rewrite Eloop. split; [exact Hsp|]. split; [exact Hlen|].
  unfold merge. rewrite trace_seq.
  destruct (popen w); cbn [perform]; [cbn; lia|].
  rewrite trace_seq, Ht. rewrite fractions_app, fractions_app.
  rewrite !length_app. pose proof (merge_end_fractions w st) as He.
  cbn [fractions List.length]. lia.
Qed.

Lemma merge_emissions_bounded_witness :
  (List.length
     (fractions
        (trace (merge Scenario.gpt_success "/tmp/ytbr_x/video.mp4"
                  "/tmp/ytbr_x/audio.mp4" "/home/user/Videos/ytbr/out.mp4")
           Scenario.downloaded)) <= 199)%nat.
Proof.
  assert (Hclock : steady (merge_start Scenario.gpt_success)
                          (polls Scenario.gpt_success)).
  { exists (units (literal 1000 1)),
      [units (literal 1000 1); units (literal 10008 10);
       units (literal 10016 10)].
    split; [vm_compute; reflexivity|]. split; [vm_compute; reflexivity|].
    repeat constructor; vm_compute; discriminate. }
  assert (Hst : tracked Scenario.downloaded).
  { split; right; vm_compute; split; discriminate. }
  exact (proj2 (proj2 (merge_emissions_bounded Scenario.gpt_success
                         Scenario.downloaded "/tmp/ytbr_x/video.mp4"
                         "/tmp/ytbr_x/audio.mp4"
                         "/home/user/Videos/ytbr/out.mp4" Hclock Hst))).
Defined.

End Throttle.

(** ** Samples *)

(** Scenario A starts ffmpeg once its two transfers are complete, in both
    files; the transfers of Scenario A can fail. *)
Example ffmpeg_started_sample :
  existsb is_ffmpeg (Gpt.run Scenario.gpt_job Scenario.gpt_success) = true /\
  existsb is_ffmpeg (Ghost.run Scenario.ghost_job Scenario.ghost_success)
    = true /\
  existsb announces (Ghost.run Scenario.ghost_job Scenario.ghost_success)
    = true /\
  existsb announces
    (Ghost.run Scenario.ghost_job Scenario_ghost_ffmpeg_missing) = false.
Proof. vm_compute. repeat split. Qed.

Example roman_shape_sample :
  roman_shape "MMMDCCCLXXXVIII" = true /\ roman_shape "mcmxciv" = false /\
  roman_shape "MMMMMMMMMMMMMMMM" = false /\
  Roman.roman_to_int_strict "mcmxciv"
    = Raise (ValueError (Roman.invalid_message "mcmxciv")).
Proof. vm_compute. repeat split. Qed.

Example main_window_sample :
  let u := {| Qt.placeholder_text := MainUi.placeholder;
              Qt.input_text := "  https://youtu.be/dQw4w9WgXcQ ";
              Qt.controls_enabled := true; Qt.bar_visible := false;
              Qt.bar_value := 0;
              Qt.download_folder := "/home/user/Videos/ytbr";
              Qt.timers := [] |} in
  snd (MainUi.url_download_on_return "/home/user/Videos/ytbr"
         (fun _ => None) u)
    = Some Scenario.ghost_job /\
  snd (MainUi.url_download_on_return "/home/user/Videos/ytbr"
         (fun _ => None) (Qt.clear u)) = None.
Proof. vm_compute. repeat split. Qed.

(** [os.path.join], [os.path.dirname] and [os.path.basename] on the shapes
    of folder that [path.expanduser] can give. *)
Example posixpath_sample :
  PyStr.path_join "" "a.mp4" = "a.mp4" /\
  PyStr.path_join "/home/user/Videos/" "a.mp4" = "/home/user/Videos/a.mp4" /\
  PyStr.path_join "/home/user/Videos" "a.mp4" = "/home/user/Videos/a.mp4" /\
  PyStr.path_join "/home/user" "/a.mp4" = "/a.mp4" /\
  PosixPath.dirname "/home/user/Videos/a.mp4" = "/home/user/Videos" /\
  PosixPath.dirname "/home/user/Videos//a.mp4" = "/home/user/Videos" /\
  PosixPath.dirname "a.mp4" = "" /\
  PosixPath.dirname "/a.mp4" = "/" /\
  PosixPath.dirname "//a.mp4" = "//" /\
  PosixPath.basename "/home/user/Videos/a.mp4" = "a.mp4" /\
  PosixPath.basename "/home/user/Videos/" = "".
Proof. repeat split. Qed.
